(** * TubeProphet: projection of view counts and detection of rank changes

    A shallow embedding of [TubeProphet.py]: the [Video] class, the
    simulation loop [track_changes] and the command-line driver [main],
    followed by the properties the specification states about them.

    Python numbers.  A video's [views] starts as an [int] and, from the first
    [fast_forward] on, is a [float]; [avg_views] is the result of the true
    division [/] and is a [float] from the start.  The program is written
    once over an interface [Number] of the operations it uses ([+], [*], [/],
    [<] and the conversion of an [int]) and read at two carriers:
    - [float], the kernel's IEEE-754 binary64 numbers, which is what CPython
      computes with (integers below [2^53] are represented exactly);
    - [Qc], the rationals, where every operation is exact.
    The properties of the loop are proved for every carrier, under the laws
    of [<] and [+] they rest on; these laws are then proved for binary64
    from the specification of the kernel's floats.  So is the arithmetic
    of whole numbers below [2^53], which binary64 computes without
    rounding: the properties of the growth of the views are stated there.

    Dates are proleptic ordinals (Python's [date.toordinal]), so the
    [.days] of a difference of two dates is a subtraction in [Z].

    A report is kept as its header line and the ranked list it prints.
    [__str__], [print_videos_summary] and the [print] calls of the loop
    are modelled apart and tied to the reports by a theorem.  Of
    [full_info], the line on the time since the upload is modelled; its
    first line formats [views] as Python formats an [int] or a [float], a
    distinction the embedding of the numbers does not keep. *)

From Stdlib Require Import ZArith List String Ascii Bool Lia.
From Stdlib Require Import Permutation Sorted.
From Stdlib Require Import QArith Qcanon.
From Stdlib Require Import Floats.
From Stdlib Require Import DecimalString.
Import ListNotations.

Set Implicit Arguments.

(** ** Exceptions and the error monad *)

Inductive exn : Type :=
| ZeroDivisionError
| AttributeError
| IndexError
| KeyError.

Inductive result (A : Type) : Type :=
| Ok (a : A)
| Raise (e : exn).

Arguments Ok {A} a.
Arguments Raise {A} e.

Definition bind {A B : Type} (r : result A) (k : A -> result B) : result B :=
  match r with
  | Ok a => k a
  | Raise e => Raise e
  end.

Notation "x <- r ;; k" := (bind r (fun x => k))
  (at level 61, r at next level, right associativity).

(** ** Numbers *)

Class Number (num : Type) : Type := {
  of_int : Z -> num;
  add : num -> num -> num;
  mul : num -> num -> num;
  div : num -> num -> num;
  ltb : num -> num -> bool
}.

(** [a / b] on two [int]s: the true division, which raises on a zero
    divisor.  (CPython rounds the exact quotient; for operands below [2^53]
    that is the quotient of the two conversions.  A quotient too large for
    a [float] raises [OverflowError], which is left out.) *)
Definition truediv {num} `{Number num} (a b : Z) : result num :=
  if (b =? 0)%Z then Raise ZeroDivisionError
  else Ok (div (of_int a) (of_int b)).

(** The exact carrier. *)
Definition Qc_ltb (x y : Qc) : bool :=
  match (x ?= y)%Qc with Lt => true | _ => false end.

#[export] Instance Qc_Number : Number Qc := {
  of_int := fun z => Q2Qc (inject_Z z);
  add := Qcplus;
  mul := Qcmult;
  div := Qcdiv;
  ltb := Qc_ltb
}.

(** The binary64 carrier.  [float(z)] is the correctly rounded conversion. *)
Definition float_of_int (z : Z) : float :=
  SF2Prim (binary_normalize prec emax z 0 false).

#[export] Instance float_Number : Number float := {
  of_int := float_of_int;
  add := PrimFloat.add;
  mul := PrimFloat.mul;
  div := PrimFloat.div;
  ltb := PrimFloat.ltb
}.

(** ** The [Video] class *)

Section Program.

Context {num : Type} `{Number num}.

(** [TODAY = date.today()], read once when the module is loaded. *)
Variable TODAY : Z.

Record Video : Type := mkVideo {
  title : string;
  views : num;
  upload_date : Z;
  days_up : Z;
  years_up : Z;
  avg_views : num
}.

(** [Video.__init__].  [int(days_up / 365)] truncates towards zero.
    [self.views] is kept as the number the first [fast_forward] converts
    the [int] to: the count itself, for a count below [2^53]. *)
Definition Video_init (title : string) (views : Z) (upload_date : Z)
  : result Video :=
  let days_up := (TODAY - upload_date)%Z in
  let years_up := (days_up ÷ 365)%Z in
  avg_views <- truediv views days_up ;;
  Ok (mkVideo title (of_int views) upload_date days_up years_up avg_views).

(** [Video.fast_forward]: [self.views += self.avg_views * days]. *)
Definition fast_forward (days : Z) (v : Video) : Video :=
  mkVideo (title v)
          (add (views v) (mul (avg_views v) (of_int days)))
          (upload_date v) (days_up v) (years_up v) (avg_views v).

(** The default [days=1]. *)
Definition fast_forward1 : Video -> Video := fast_forward 1.

(** ** [videos.sort(reverse=True, key=lambda v: v.views)]

    A stable sort into descending order of [views] that compares with [<]
    only: an item is placed before the first item of the sorted rest
    that is not greater than it.  (Where [<] is a strict weak order, a
    stable sort has one possible result, so this is the list CPython's
    sort leaves, with [reverse=True] keeping ties in their order.) *)

Fixpoint insert_desc (x : Video) (l : list Video) : list Video :=
  match l with
  | [] => [x]
  | y :: l' =>
      if ltb (views x) (views y) then y :: insert_desc x l'
      else x :: y :: l'
  end.

Definition sort_videos (l : list Video) : list Video :=
  fold_right insert_desc [] l.

(** ** Reports *)

Record Report : Type := mkReport {
  label : string;
  ranking : list Video
}.

Definition show_nat (n : nat) : string :=
  NilZero.string_of_uint (Nat.to_uint n).

Definition starting_label : string := "Starting state (Day 1):".

Definition day_label (day : nat) : string :=
  ("Day " ++ show_nat (day + 1) ++ ":")%string.

(** [dict(enumerate(videos))], kept in insertion order, which is the order
    [.items()] iterates in.  The dictionary holds the [Video] objects
    themselves; the loop reads back only their [title], which is never
    assigned after construction. *)
Definition enumerate (l : list Video) : list (nat * Video) :=
  combine (seq 0 (List.length l)) l.

(** The [for i, vid in prev_order.items()] loop: [true] when it reaches the
    [print] and [break], [false] when it runs to its end. *)
Fixpoint order_changed (items : list (nat * Video)) (videos : list Video)
  : result bool :=
  match items with
  | [] => Ok false
  | (i, vid) :: rest =>
      match nth_error videos i with
      | None => Raise IndexError
      | Some cur =>
          if negb (String.eqb (title vid) (title cur)) then Ok true
          else order_changed rest videos
      end
  end.

(** ** [track_changes]

    The state of the loop: the list [videos] (sorted in place every day),
    [prev_order] and what has been printed so far.  The list and the
    dictionary hold the same [Video] objects, taken here to be distinct
    objects, as [main] builds them: a [fast_forward] through the list is
    seen through the dictionary too. *)

Record SimState : Type := mkState {
  videos : list Video;
  prev_order : option (list (nat * Video));
  printed : list Report
}.

(** [videos.sort(reverse=True, key=lambda v: v.views)] *)
Definition sort_step (st : SimState) : SimState :=
  mkState (sort_videos (videos st)) (prev_order st) (printed st).

(** The [if day == 0: ... else: ...] statement.  [prev_order] is [None]
    only before the first day; [.items()] on it would raise. *)
Definition detect_step (day : nat) (st : SimState) : result SimState :=
  if (day =? 0)%nat then
    Ok (mkState (videos st) (prev_order st)
                (printed st ++ [mkReport starting_label (videos st)]))
  else
    match prev_order st with
    | None => Raise AttributeError
    | Some items =>
        changed <- order_changed items (videos st) ;;
        Ok (if changed : bool
            then mkState (videos st) (prev_order st)
                         (printed st ++ [mkReport (day_label day) (videos st)])
            else st)
    end.

(** [prev_order = dict(enumerate(videos))] *)
Definition record_step (st : SimState) : SimState :=
  mkState (videos st) (Some (enumerate (videos st))) (printed st).

(** [for vid in videos: vid.fast_forward()] *)
Definition advance_step (st : SimState) : SimState :=
  mkState (map fast_forward1 (videos st))
          (option_map (map (fun p => (fst p, fast_forward1 (snd p))))
                      (prev_order st))
          (printed st).

(** One iteration of [for day in range(days_threshold)]. *)
Definition day_step (day : nat) (st : SimState) : result SimState :=
  st' <- detect_step day (sort_step st) ;;
  Ok (advance_step (record_step st')).

(** The days [day, day + 1, ..., day + n - 1] in turn. *)
Fixpoint run_days (n : nat) (day : nat) (st : SimState) : result SimState :=
  match n with
  | O => Ok st
  | S n' => st' <- day_step day st ;; run_days n' (S day) st'
  end.

Definition initial_state (vs : list Video) : SimState :=
  mkState vs None [].

(** [range(days_threshold)] is empty for a threshold below one. *)
Definition track_changes (vs : list Video) (days_threshold : Z)
  : result (list Report) :=
  st <- run_days (Z.to_nat days_threshold) 0 (initial_state vs) ;;
  Ok (printed st).

(** ** [get_video_details] and [main]

    The YouTube Data API is a function from a video id and a key to the
    three fields [get_video_details] reads from the answer.  The JSON file
    is kept as the two keys [main] looks up. *)

Record Args : Type := mkArgs {
  args_json : string;
  args_key : option string;
  args_d : option Z
}.

Record Config : Type := mkConfig {
  cfg_videos : option (list string);
  cfg_key : option string
}.

Record Snippet : Type := mkSnippet {
  snippet_title : string;
  view_count : Z;
  published_at : Z
}.

Variable youtube : string -> string -> result Snippet.

Definition get_video_details (vid_id key : string) : result Video :=
  json <- youtube vid_id key ;;
  Video_init (snippet_title json) (view_count json) (published_at json).

(** [[get_video_details(vid, key) for vid in video_ids]] *)
Fixpoint fetch_videos (video_ids : list string) (key : string)
  : result (list Video) :=
  match video_ids with
  | [] => Ok []
  | vid :: rest =>
      v <- get_video_details vid key ;;
      vs <- fetch_videos rest key ;;
      Ok (v :: vs)
  end.

(** What [main] returns: an exit status, or [None] after the simulation,
    kept here with what the simulation printed. *)
Inductive Outcome : Type :=
| Exit (status : Z)
| Finished (reports : list Report).

(** [track_changes]' default [days_threshold=100]. *)
Definition default_days_threshold : Z := 100.

(** [main].  [args.d] is parsed and never read: [track_changes(videos)] is
    called with one argument.  The exceptions kept are those of the data
    provider and of the construction of a [Video]; what [int(self.views)]
    raises while the reports are printed is part of the printing below,
    and reading the JSON file is left out. *)
Definition main (args : Args) (data : Config) : result Outcome :=
  match cfg_videos data with
  | None => Ok (Exit 1)
  | Some video_ids =>
      match (match cfg_key data with
             | Some key => Some key
             | None => args_key args
             end) with
      | None => Ok (Exit 2)
      | Some key =>
          vs <- fetch_videos video_ids key ;;
          reports <- track_changes vs default_days_threshold ;;
          Ok (Finished reports)
      end
  end.

End Program.

Arguments mkVideo {num} title views upload_date days_up years_up avg_views.
Arguments mkReport {num} label ranking.
Arguments mkState {num} videos prev_order printed.
Arguments Exit {num} status.
Arguments Finished {num} reports.

(** ** What is printed

    [__str__], [print_videos_summary] and the [print] calls of the loop of
    [track_changes].  The output is the list of the strings printed, one
    for each call of [print]; a run ends by returning or by raising, and
    what it printed before it raised stays printed. *)

(** Besides the exceptions of the loop: [int(x)] raises [OverflowError]
    for an infinite float and [ValueError] for a NaN. *)
Inductive raised : Type :=
| Exn (e : exn)
| OverflowError
| ValueError.

Inductive ending (A : Type) : Type :=
| Returns (a : A)
| Raises (e : raised).

Arguments Returns {A} a.
Arguments Raises {A} e.

Record Run (A : Type) : Type := mkRun {
  stdout : list string;
  ended : ending A
}.

Arguments mkRun {A} stdout ended.

Definition ret {A : Type} (a : A) : Run A := mkRun [] (Returns a).

Definition print (s : string) : Run unit := mkRun [s] (Returns tt).

Definition lift {A : Type} (o : ending A) : Run A := mkRun [] o.

Definition and_then {A B : Type} (r : Run A) (k : A -> Run B) : Run B :=
  match ended r with
  | Returns a => mkRun (stdout r ++ stdout (k a)) (ended (k a))
  | Raises e => mkRun (stdout r) (Raises e)
  end.

Notation "x <~ r ;; k" := (and_then r (fun x => k))
  (at level 61, r at next level, right associativity).

Definition of_result {A : Type} (r : result A) : ending A :=
  match r with
  | Ok a => Returns a
  | Raise e => Raises (Exn e)
  end.

(** [int(x)]: the number without its fraction. *)
Class Truncation (num : Type) : Type := {
  to_int : num -> ending Z
}.

#[export] Instance Qc_Truncation : Truncation Qc := {
  to_int := fun q => Returns (Qnum (this q) ÷ Z.pos (Qden (this q)))%Z
}.

(** For a float [m * 2^e], the shift of [m] by [e] binary places drops the
    fraction. *)
Definition float_to_int (x : float) : ending Z :=
  match Prim2SF x with
  | S754_zero _ => Returns 0%Z
  | S754_finite s m e =>
      Returns (if s then (- Z.shiftl (Z.pos m) e)%Z else Z.shiftl (Z.pos m) e)
  | S754_infinity _ => Raises OverflowError
  | S754_nan => Raises ValueError
  end.

#[export] Instance float_Truncation : Truncation float := {
  to_int := float_to_int
}.

(** The colour constants. *)
Definition RED : string := String "027" "[0;31m".
Definition GREEN : string := String "027" "[0;32m".
Definition BLUE : string := String "027" "[0;34m".
Definition NC : string := String "027" "[0m".

(** ['%d' % z] *)
Definition show_int (z : Z) : string := NilZero.string_of_int (Z.to_int z).

(** The digits [s] with a comma before every group of three, counted from
    the right. *)
Fixpoint group_digits (s : string) : string :=
  match s with
  | EmptyString => EmptyString
  | String c rest =>
      String c
        (if (negb (String.length rest =? 0)%nat
             && (String.length rest mod 3 =? 0)%nat)%bool
         then String "," (group_digits rest)
         else group_digits rest)
  end.

(** The decimal digits of a natural number. *)
Definition digits (n : N) : string := NilZero.string_of_uint (N.to_uint n).

(** ['{:,}'.format(z)] for an [int]. *)
Definition format_commas (z : Z) : string :=
  ((if (z <? 0)%Z then "-" else "")
   ++ group_digits (digits (Z.abs_N z)))%string.

Section Printing.

Context {num : Type} `{Number num} `{Truncation num}.

Abbreviation Video := (@Video num).
Abbreviation Report := (@Report num).
Abbreviation SimState := (@SimState num).

(** [Video.__str__] *)
Definition Video_str (v : Video) : ending string :=
  match to_int (views v) with
  | Returns n =>
      Returns (RED ++ title v ++ NC ++ " - "
               ++ GREEN ++ format_commas n ++ " views" ++ NC)%string
  | Raises e => Raises e
  end.

(** [print_videos_summary], from the index [i] on. *)
Fixpoint print_videos_from (i : nat) (videos : list Video) : Run unit :=
  match videos with
  | [] => ret tt
  | vid :: rest =>
      s <~ lift (Video_str vid) ;;
      _ <~ print (show_nat (i + 1) ++ ". " ++ s)%string ;;
      print_videos_from (S i) rest
  end.

Definition print_videos_summary (videos : list Video) : Run unit :=
  print_videos_from 0 videos.

(** The second line of [full_info]: the years, when there are any, and the
    days since the upload.  [%] is the remainder of the division that
    rounds down. *)
Definition since_upload (v : Video) : string :=
  (String "009" ""
   ++ BLUE
   ++ (if (years_up v =? 0)%Z then ""
       else show_int (years_up v) ++ " year"
            ++ (if (years_up v =? 1)%Z then "" else "s") ++ " and ")
   ++ show_int (days_up v mod 365) ++ " days" ++ NC
   ++ " since upload" ++ String "010" "")%string.

(** The [if day == 0: ... else: ...] statement of the loop, with its
    [print] calls. *)
Definition detect_print (day : nat) (st : SimState) : Run unit :=
  if (day =? 0)%nat then
    _ <~ print starting_label ;;
    print_videos_summary (videos st)
  else
    match prev_order st with
    | None => lift (Raises (Exn AttributeError))
    | Some items =>
        changed <~ lift (of_result (order_changed items (videos st))) ;;
        if changed : bool then
          _ <~ print (day_label day) ;;
          print_videos_summary (videos st)
        else ret tt
    end.

(** The loop of [track_changes] for the days [day, ..., day + n - 1], as
    the sequence of its [print] calls.  The state is the list and
    [prev_order]; what is printed goes to the output. *)
Fixpoint loop_print (n day : nat) (st : SimState) : Run unit :=
  match n with
  | O => ret tt
  | S n' =>
      let st1 := sort_step st in
      _ <~ detect_print day st1 ;;
      loop_print n' (S day) (advance_step (record_step st1))
  end.

(** A report as it is printed: its header, then the numbered lines. *)
Definition print_report (r : Report) : Run unit :=
  _ <~ print (label r) ;;
  print_videos_summary (ranking r).

Fixpoint print_reports (rs : list Report) : Run unit :=
  match rs with
  | [] => ret tt
  | r :: rest => _ <~ print_report r ;; print_reports rest
  end.

End Printing.

(** * Vocabulary of the properties *)

(** ** Laws of the comparison and of the addition

    On a domain [dom] of numbers, [<] is a strict weak order; adding the
    same amount to two numbers does not reverse their order; the arithmetic
    is exact.  All three hold for the rationals.  For [float] the first
    holds on the numbers that are not NaN, the second is the monotonicity
    of IEEE-754 rounding, and the third fails: the addition rounds. *)

Class OrderLaws (num : Type) `{Number num} (dom : num -> Prop) : Prop := {
  ltb_asym : forall x y : num,
      dom x -> dom y -> ltb x y = true -> ltb y x = false;
  ltb_negtrans : forall x y z : num,
      dom x -> dom y -> dom z ->
      ltb x y = false -> ltb y z = false -> ltb x z = false
}.

Class AddMonotone (num : Type) `{Number num} : Prop := {
  add_mono : forall x y c : num,
      ltb x y = false -> ltb (add x c) (add y c) = false
}.

Class ExactArith (num : Type) `{Number num} : Prop := {
  add_assoc : forall x y z : num, add (add x y) z = add x (add y z);
  mul_add_distr : forall g x y : num,
      mul g (add x y) = add (mul g x) (mul g y);
  of_int_add : forall x y : Z, of_int (x + y) = add (of_int x) (of_int y)
}.

Arguments OrderLaws num {_} dom.
Arguments AddMonotone num {_}.
Arguments ExactArith num {_}.

(** Every rational is in the domain; of the floats, those that are not
    NaN. *)
Definition any_Qc (x : Qc) : Prop := True.

Definition not_nan (x : float) : Prop := PrimFloat.is_nan x = false.

(** The place of a float that is not NaN on the line: its class (the
    infinities, the finite numbers of either sign, the zeros), then its
    exponent, then its mantissa. *)
Definition SF_key (f : spec_float) : Z * (Z * Z) :=
  match f with
  | S754_nan => (0, (0, 0))
  | S754_zero _ => (0, (0, 0))
  | S754_infinity true => (-2, (0, 0))
  | S754_infinity false => (2, (0, 0))
  | S754_finite true m e => (-1, (- e, Z.neg m))
  | S754_finite false m e => (1, (e, Z.pos m))
  end%Z.

Definition key_ltb (p q : Z * (Z * Z)) : bool :=
  let '(a, (b, c)) := p in
  let '(a', (b', c')) := q in
  ((a <? a') || ((a =? a') && ((b <? b') || ((b =? b') && (c <? c')))))%Z.

(** ** Binary64 rounding

    What the addition of two floats computes, in the terms of the
    specification of the kernel's floats ([SpecFloat]): the value of a
    float as a whole number of units [2^emin64], and the float such a
    number rounds to. *)

Section Binary64Notions.

Local Open Scope Z_scope.

(** After [k] shifts of [x]: the quotient by [2^k], and where the
    remainder stands against half of [2^k]. *)
Definition shifted (x : Z) (k : nat) (mrs : shr_record) : Prop :=
  let p := 2 ^ Z.of_nat k in
  shr_m mrs = x / p /\
  (shr_r mrs = true <-> p <= 2 * (x mod p)) /\
  (shr_s mrs = true <-> x mod p <> 0 /\ 2 * (x mod p) <> p).

(** [x / 2^k] rounded to an integer. *)
Definition rne (x k : Z) : Z :=
  let p := 2 ^ k in
  let m := x / p in
  let r := x mod p in
  if 2 * r <? p then m
  else if p <? 2 * r then m + 1
  else if Z.even m then m else m + 1.

Definition emin64 : Z := -1074.

(** The float with the mantissa [M], at most [2^53], and the exponent
    [c]. *)
Definition decode (s : bool) (M c : Z) : spec_float :=
  match M with
  | Z0 => S754_zero s
  | Zpos p =>
      if M =? 2 ^ 53 then
        if c + 1 <=? 971 then S754_finite s (2 ^ 52)%positive (c + 1)
        else S754_infinity s
      else if c <=? 971 then S754_finite s p c
      else S754_infinity s
  | Zneg _ => S754_nan
  end.

(** A number [N] of units [2^emin64]: its canonical exponent and the
    float it rounds to. *)
Definition cexp (N : Z) : Z := fexp prec emax (Zdigits2 N + emin64).

Definition round_int (s : bool) (N : Z) : spec_float :=
  decode s (rne N (cexp N - emin64)) (cexp N).

(** The float a signed number of units rounds to. *)
Definition round_signed (N : Z) : spec_float :=
  match N with
  | Z0 => S754_zero false
  | Zpos p => round_int false N
  | Zneg p => round_int true (Z.pos p)
  end.

(** [p] is not above [q]. *)
Definition key_le (p q : Z * (Z * Z)) : Prop := key_ltb q p = false.

Definition key_opp (p : Z * (Z * Z)) : Z * (Z * Z) :=
  (- fst p, (- fst (snd p), - snd (snd p))).

(** The key of the float with a positive mantissa. *)
Definition mantissa_key (M c : Z) : Z * (Z * Z) :=
  if M =? 2 ^ 53 then
    if c + 1 <=? 971 then (1, (c + 1, 2 ^ 52)) else (2, (0, 0))
  else if c <=? 971 then (1, (c, M)) else (2, (0, 0)).

(** The float is zero or finite. *)
Definition real (f : spec_float) : Prop :=
  match f with
  | S754_zero _ | S754_finite _ _ _ => True
  | _ => False
  end.

(** Its value, in units of [2^emin64]. *)
Definition ival (f : spec_float) : Z :=
  match f with
  | S754_finite s m e =>
      (if s then - Z.pos m else Z.pos m) * 2 ^ (e - emin64)
  | _ => 0
  end.

End Binary64Notions.

(** ** Rankings and states *)

Section Notions.

Context {num : Type} `{Number num}.

Abbreviation Video := (@Video num).
Abbreviation Report := (@Report num).
Abbreviation SimState := (@SimState num).

(** [a] is ranked no lower than [b]: [a.views < b.views] is false. *)
Definition not_below (a b : Video) : Prop := ltb (views a) (views b) = false.

(** Every measure of the list is in the domain. *)
Definition measured (dom : num -> Prop) (l : list Video) : Prop :=
  Forall (fun v => dom (views v)) l.

(** [v] has the measure [k]: neither is below the other. *)
Definition same_measure (k : num) (v : Video) : bool :=
  negb (ltb (views v) k) && negb (ltb k (views v)).

(** The outcome of the scan of [prev_order] against the current ranking. *)
Definition titles_differ (old cur : list Video) : bool :=
  existsb (fun p => negb (String.eqb (title (fst p)) (title (snd p))))
          (combine old cur).

(** What one day prints, given the ranking of the day before. *)
Definition reports_of_day (day : nat) (old sorted : list Video) : list Report :=
  if (day =? 0)%nat then [mkReport starting_label sorted]
  else if titles_differ old sorted then [mkReport (day_label day) sorted]
  else [].

(** The loop's invariant: from the second day on, [prev_order] enumerates
    the list of videos as the day before left it. *)
Definition well_formed (day : nat) (st : SimState) : Prop :=
  day = O \/ prev_order st = Some (enumerate (videos st)).

(** The state one day leaves behind. *)
Definition after_day (day : nat) (st : SimState) : SimState :=
  let sorted := sort_videos (videos st) in
  mkState (map fast_forward1 sorted)
          (Some (enumerate (map fast_forward1 sorted)))
          (printed st ++ reports_of_day day (videos st) sorted).

(** The item [v] after [k] days. *)
Definition after (k : nat) (v : Video) : Video := Nat.iter k fast_forward1 v.

(** The state in which every later day finds the loop when all the items
    grow by [g] a day. *)
Definition same_growth (g : num) (v : Video) : Prop := avg_views v = g.

Definition steady (g : num) (st : SimState) : Prop :=
  StronglySorted not_below (videos st) /\
  Forall (same_growth g) (videos st) /\
  prev_order st = Some (enumerate (videos st)).

(** The ranking [[x; y]] as the day before left it. *)
Definition ranked (x y : Video) (out : list Report) : SimState :=
  mkState [x; y] (Some (enumerate [x; y])) out.

(** The two reports of a run in which [b] passes [a] on the fourth day. *)
Definition overtake_reports (a b : Video) : list Report :=
  [mkReport starting_label [a; b];
   mkReport (day_label 3) [after 3 b; after 3 a]].

Fixpoint update (i : nat) (x : Video) (l : list Video) : list Video :=
  match l, i with
  | [], _ => []
  | _ :: l', O => x :: l'
  | y :: l', S i' => y :: update i' x l'
  end.

(** The ranking [l] with the items at ranks [i] and [j] exchanged. *)
Definition swap (i j : nat) (l : list Video) : list Video :=
  match nth_error l i, nth_error l j with
  | Some a, Some b => update i b (update j a l)
  | _, _ => l
  end.

End Notions.

(** ** The run, day by day *)

Section RunNotions.

Context {num : Type} `{Number num}.

Abbreviation Video := (@Video num).
Abbreviation Report := (@Report num).

(** The ranking of day [d], counted from 0: the list as that day's sort
    leaves it. *)
Fixpoint ranking_on (vs : list Video) (d : nat) : list Video :=
  match d with
  | O => sort_videos vs
  | S d' => sort_videos (map fast_forward1 (ranking_on vs d'))
  end.

(** Two rankings show the same titles, rank by rank. *)
Definition same_titles (a b : list Video) : bool :=
  if list_eq_dec string_dec (map title a) (map title b) then true else false.

(** What day [d] prints: the starting state on the first day, and on a
    later day the ranking when its titles are not those of the day
    before. *)
Definition report_on (vs : list Video) (d : nat) : list Report :=
  match d with
  | O => [mkReport starting_label (ranking_on vs 0)]
  | S d' =>
      if same_titles (ranking_on vs d') (ranking_on vs d) then []
      else [mkReport (day_label d) (ranking_on vs d)]
  end.

(** What the first [n] days print. *)
Definition reports_until (vs : list Video) (n : nat) : list Report :=
  flat_map (report_on vs) (seq 0 n).

(** The header of the report of day [d]. *)
Definition label_of_day (d : nat) : string :=
  if (d =? 0)%nat then starting_label else day_label d.

End RunNotions.

(** ** Leading *)

Section Leading.

Context {num : Type} `{Number num}.

(** [a] is not below [b] on any day. *)
Definition leads (a b : @Video num) : Prop :=
  forall k : nat, not_below (after k a) (after k b).

(** [a] gains no less a day than [b]. *)
Definition gains_no_less (a b : @Video num) : Prop :=
  ltb (avg_views a) (avg_views b) = false.

End Leading.

(** ** Reading a printed number *)

(** [s.replace(',', '')] *)
Fixpoint strip_commas (s : string) : string :=
  match s with
  | EmptyString => EmptyString
  | String c rest =>
      if (c =? ",")%char then strip_commas rest
      else String c (strip_commas rest)
  end.

(** [s.split(',')] *)
Fixpoint split_commas (s : string) : list string :=
  match s with
  | EmptyString => [EmptyString]
  | String c rest =>
      if (c =? ",")%char then EmptyString :: split_commas rest
      else match split_commas rest with
           | g :: gs => String c g :: gs
           | [] => [String c EmptyString]
           end
  end.

Fixpoint comma_free (s : string) : bool :=
  match s with
  | EmptyString => true
  | String c rest => negb (c =? ",")%char && comma_free rest
  end.

(** ** The key *)

(** The key [main] goes on with: the one of the JSON file, or else the
    one of the command line. *)
Definition resolved_key (args : Args) (data : Config) : option string :=
  match cfg_key data with
  | Some key => Some key
  | None => args_key args
  end.

(** ** The items of the examples *)

(** A has 100 views after 100 days, B has 90 views after 18 days: one
    view a day against five.  The property: the two items are constructed,
    with these rates, and a run of [h] days prints the starting state with
    A first and, headed "Day 4:", the ranking with B first, and nothing
    else. *)
Definition swap_on_day_4 (num : Type) `{Number num} (TODAY h : Z) : Prop :=
  exists A B : @Video num,
    Video_init TODAY "A" 100 (TODAY - 100) = Ok A /\
    Video_init TODAY "B" 90 (TODAY - 18) = Ok B /\
    avg_views A = of_int 1 /\
    avg_views B = of_int 5 /\
    track_changes [A; B] h
    = Ok [mkReport "Starting state (Day 1):" [A; B];
          mkReport "Day 4:" [after 3 B; after 3 A]] /\
    map title [A; B] = ["A"; "B"]%string /\
    map title [after 3 B; after 3 A] = ["B"; "A"]%string.

Arguments swap_on_day_4 num {_} TODAY h.

(** A data provider that knows the two videos, and the videos as
    [get_video_details] builds them from its answers on day 1000. *)
Definition two_videos (vid_id key : string) : result Snippet :=
  if (vid_id =? "a")%string then Ok (mkSnippet "A" 100 900)
  else if (vid_id =? "b")%string then Ok (mkSnippet "B" 90 982)
  else Raise IndexError.

Definition video_a : @Video float :=
  mkVideo "A" (of_int 100) 900 100 0 (div (of_int 100) (of_int 100)).

Definition video_b : @Video float :=
  mkVideo "B" (of_int 90) 982 18 0 (div (of_int 90) (of_int 18)).

(** Two items that both gain two views a day. *)
Definition steady_p : @Video float :=
  mkVideo "P" (of_int 10) 0 5 0 (div (of_int 10) (of_int 5)).

Definition steady_q : @Video float :=
  mkVideo "Q" (of_int 8) 0 4 0 (div (of_int 8) (of_int 4)).

(** Two items of one title, the second about to pass the first, and the
    state of the second day after its sort, when it has. *)
Definition twin_1 : @Video float :=
  mkVideo "X" (of_int 10) 0 10 0 (div (of_int 10) (of_int 10)).

Definition twin_2 : @Video float :=
  mkVideo "X" (of_int 9) 0 3 0 (div (of_int 9) (of_int 3)).

Definition twins_swapped : @SimState float :=
  sort_step (after_day 0 (initial_state [twin_1; twin_2])).

(** A data provider that also knows a video published on day 1000. *)
Definition three_videos (vid_id key : string) : result Snippet :=
  if (vid_id =? "c")%string then Ok (mkSnippet "C" 7 1000)
  else two_videos vid_id key.

(** A video with 200 views after 100 days: two views a day. *)
Definition video_c : @Video float :=
  mkVideo "C" (of_int 200) 900 100 0 (div (of_int 200) (of_int 100)).

(** A data provider for a change of ranks on the last simulated day: on
    day 1000, S has 1000 views after 1000 days and F has 902 views after
    451 days, one view a day against two, and the videos as
    [get_video_details] builds them from its answers. *)
Definition late_videos (vid_id key : string) : result Snippet :=
  if (vid_id =? "s")%string then Ok (mkSnippet "S" 1000 0)
  else if (vid_id =? "f")%string then Ok (mkSnippet "F" 902 549)
  else Raise IndexError.

Definition video_s : @Video float :=
  mkVideo "S" (of_int 1000) 0 1000 2 (div (of_int 1000) (of_int 1000)).

Definition video_f : @Video float :=
  mkVideo "F" (of_int 902) 549 451 1 (div (of_int 902) (of_int 451)).

(** * Proofs *)

(** ** The sort, the scan and the loop, for every carrier *)

Section Facts.

Context {num : Type} `{Number num}.

Abbreviation Video := (@Video num).
Abbreviation Report := (@Report num).
Abbreviation SimState := (@SimState num).

Lemma insert_desc_perm (x : Video) (l : list Video) :
  Permutation (x :: l) (insert_desc x l).
Proof.
  induction l as [|y l IH]; simpl.
  - apply Permutation_refl.
  - destruct (ltb (views x) (views y)).
    + apply perm_trans with (y :: x :: l).
      * apply perm_swap.
      * apply perm_skip, IH.
    + apply Permutation_refl.
Qed.

Lemma sort_videos_perm (l : list Video) : Permutation l (sort_videos l).
Proof.
  induction l as [|x l IH]; simpl.
  - apply perm_nil.
  - apply perm_trans with (x :: sort_videos l).
    + apply perm_skip, IH.
    + apply insert_desc_perm.
Qed.

Lemma sort_videos_length (l : list Video) :
  List.length (sort_videos l) = List.length l.
Proof. symmetry. apply Permutation_length, sort_videos_perm. Qed.

(** A list already in descending order is left as it is: the sort is
    stable, so ties do not move either. *)
Lemma sort_videos_sorted_id (l : list Video) :
  Sorted not_below l -> sort_videos l = l.
Proof.
  induction 1 as [|x l Hs IH Hhd]; simpl.
  - reflexivity.
  - rewrite IH. destruct Hhd as [|y l Hxy]; simpl.
    + reflexivity.
    + unfold not_below in Hxy. rewrite Hxy. reflexivity.
Qed.

Lemma order_changed_combine (old pre cur : list Video) :
  List.length old = List.length cur ->
  order_changed (combine (seq (List.length pre) (List.length old)) old)
                (pre ++ cur)
  = Ok (titles_differ old cur).
Proof.
  revert pre cur.
  induction old as [|a old IH]; intros pre [|c cur] Hlen; simpl in *;
    try discriminate; try reflexivity.
  rewrite nth_error_app2 by lia.
  rewrite Nat.sub_diag. simpl.
  unfold titles_differ. simpl.
  destruct (String.eqb (title a) (title c)); simpl; [|reflexivity].
  specialize (IH (pre ++ [c]) cur).
  rewrite length_app, <- app_assoc in IH. simpl in IH.
  rewrite Nat.add_1_r in IH.
  apply IH. lia.
Qed.

Lemma order_changed_enumerate (old cur : list Video) :
  List.length old = List.length cur ->
  order_changed (enumerate old) cur = Ok (titles_differ old cur).
Proof.
  intros Hlen. apply (order_changed_combine old [] cur Hlen).
Qed.

Lemma titles_differ_same (old cur : list Video) :
  map title old = map title cur -> titles_differ old cur = false.
Proof.
  revert cur. unfold titles_differ.
  induction old as [|a old IH]; intros [|c cur] Heq; simpl in *;
    try discriminate; try reflexivity.
  injection Heq as Ht Hrest.
  rewrite Ht, String.eqb_refl. simpl. apply IH, Hrest.
Qed.

Lemma map_title_fast_forward (l : list Video) :
  map title (map fast_forward1 l) = map title l.
Proof. rewrite map_map. reflexivity. Qed.

Lemma enumerate_map (f : Video -> Video) (l : list Video) :
  map (fun p => (fst p, f (snd p))) (enumerate l) = enumerate (map f l).
Proof.
  unfold enumerate. rewrite length_map.
  generalize 0%nat as k.
  induction l as [|x l IH]; intros k; simpl; [reflexivity|].
  f_equal. apply IH.
Qed.

Lemma day_step_spec (day : nat) (st : SimState) :
  well_formed day st -> day_step day st = Ok (after_day day st).
Proof.
  intros Hwf. unfold day_step, detect_step, after_day, reports_of_day.
  simpl.
  destruct (Nat.eqb_spec day 0) as [Hd|Hd]; simpl.
  - unfold advance_step, record_step. simpl.
    rewrite enumerate_map. reflexivity.
  - destruct Hwf as [Hwf|Hprev]; [contradiction|].
    rewrite Hprev.
    rewrite order_changed_enumerate by (now rewrite sort_videos_length).
    simpl.
    destruct (titles_differ (videos st) (sort_videos (videos st)));
      unfold advance_step, record_step; simpl; rewrite enumerate_map.
    + reflexivity.
    + rewrite app_nil_r. reflexivity.
Qed.

Lemma after_day_well_formed (day day' : nat) (st : SimState) :
  well_formed day' (after_day day st).
Proof. right. reflexivity. Qed.

(** The loop never raises, and only appends to what is printed. *)
Lemma run_days_total (n day : nat) (st : SimState) :
  well_formed day st ->
  exists st', run_days n day st = Ok st' /\
              well_formed (n + day) st' /\
              exists more, printed st' = printed st ++ more.
Proof.
  revert day st.
  induction n as [|n IH]; intros day st Hwf; simpl.
  - exists st. repeat split; [exact Hwf|]. exists []. now rewrite app_nil_r.
  - rewrite (day_step_spec Hwf). simpl.
    destruct (IH (S day) _ (after_day_well_formed day (S day) st))
      as [st' [Hrun [Hwf' [more Hmore]]]].
    exists st'. split; [exact Hrun|]. split.
    + replace (S (n + day)) with (n + S day)%nat by lia. exact Hwf'.
    + simpl in Hmore. rewrite <- app_assoc in Hmore.
      eexists. exact Hmore.
Qed.

Lemma run_days_add (a b day : nat) (st : SimState) :
  run_days (a + b) day st =
  (st' <- run_days a day st ;; run_days b (a + day) st').
Proof.
  revert day st. induction a as [|a IH]; intros day st; simpl.
  - reflexivity.
  - destruct (day_step day st) as [st1|e]; simpl; [|reflexivity].
    rewrite IH. replace (S (a + day)) with (a + S day)%nat by lia.
    reflexivity.
Qed.

Lemma initial_well_formed (vs : list Video) : well_formed 0 (initial_state vs).
Proof. left. reflexivity. Qed.

(** With a horizon of at least one day, the first day is the one that
    prints the starting state. *)
Lemma track_changes_first_day (vs : list Video) (h : Z) :
  (1 <= h)%Z ->
  track_changes vs h =
  (st <- run_days (Z.to_nat h - 1) 1 (after_day 0 (initial_state vs)) ;;
   Ok (printed st)).
Proof.
  intros Hh. unfold track_changes.
  destruct (Z.to_nat h) as [|n] eqn:Hn; [lia|].
  cbn [run_days]. rewrite (day_step_spec (initial_well_formed vs)).
  cbn [bind]. rewrite Nat.sub_succ, Nat.sub_0_r. reflexivity.
Qed.


Lemma detect_step_videos (day : nat) (st st' : SimState) :
  detect_step day st = Ok st' ->
  videos st' = videos st /\ prev_order st' = prev_order st.
Proof.
  unfold detect_step. destruct (day =? 0)%nat.
  - intros E. injection E as <-. split; reflexivity.
  - destruct (prev_order st) as [items|] eqn:Hprev; [|discriminate].
    destruct (order_changed items (videos st)) as [[|]|]; simpl;
      try discriminate; intros E; injection E as <-; split;
      try reflexivity; exact Hprev.
Qed.

Lemma titles_differ_map_l (old cur : list Video) :
  titles_differ (map fast_forward1 old) cur = titles_differ old cur.
Proof.
  revert cur. unfold titles_differ.
  induction old as [|a old IH]; intros [|c cur]; simpl; try reflexivity.
  now rewrite IH.
Qed.

Lemma title_after (k : nat) (v : Video) : title (after k v) = title v.
Proof. induction k as [|k IH]; simpl; [reflexivity|exact IH]. Qed.

Lemma avg_views_after (k : nat) (v : Video) :
  avg_views (after k v) = avg_views v.
Proof. induction k as [|k IH]; simpl; [reflexivity|exact IH]. Qed.

Lemma after_succ (k : nat) (v : Video) :
  after (S k) v = fast_forward1 (after k v).
Proof. reflexivity. Qed.

Lemma after_add (j k : nat) (v : Video) :
  after j (after k v) = after (j + k) v.
Proof. unfold after. symmetry. apply Nat.iter_add. Qed.

(** *** Construction *)

Lemma Video_init_aged (TODAY : Z) (t : string) (m days : Z) :
  days <> 0%Z ->
  Video_init TODAY t m (TODAY - days)
  = Ok (mkVideo t (of_int m) (TODAY - days) days (days ÷ 365)
                (div (of_int m) (of_int days))).
Proof.
  intros Hd. unfold Video_init, truediv.
  replace (TODAY - (TODAY - days))%Z with days by lia.
  destruct (Z.eqb_spec days 0) as [|_]; [contradiction|]. reflexivity.
Qed.

Lemma Video_init_inv (TODAY : Z) (t : string) (m d : Z) (v : Video) :
  Video_init TODAY t m d = Ok v ->
  (TODAY - d <> 0)%Z /\
  v = mkVideo t (of_int m) d (TODAY - d) ((TODAY - d) ÷ 365)
              (div (of_int m) (of_int (TODAY - d))).
Proof.
  unfold Video_init, truediv.
  destruct (Z.eqb_spec (TODAY - d) 0) as [E|E]; simpl; [discriminate|].
  intros Hv. injection Hv as <-. split; [exact E|reflexivity].
Qed.

Lemma Video_init_raises (TODAY : Z) (t : string) (m d : Z) (e : exn) :
  Video_init (num:=num) TODAY t m d = Raise e ->
  d = TODAY /\ e = ZeroDivisionError.
Proof.
  unfold Video_init, truediv.
  destruct (Z.eqb_spec (TODAY - d) 0) as [E|E]; simpl; [|discriminate].
  intros Hv. injection Hv as <-. split; [lia|reflexivity].
Qed.

(** *** Exchanging two ranks *)

Lemma update_same_title (i : nat) (x y : Video) (l : list Video) :
  nth_error l i = Some y -> title x = title y ->
  map title (update i x l) = map title l.
Proof.
  revert i. induction l as [|z l IH]; intros [|i] Hnth Ht; simpl in *;
    try discriminate.
  - injection Hnth as ->. now rewrite Ht.
  - f_equal. apply IH; assumption.
Qed.

Lemma nth_error_update (i j : nat) (x y : Video) (l : list Video) :
  nth_error l i = Some y ->
  exists z, nth_error (update j x l) i = Some z /\
            (z = y \/ (i = j /\ z = x)).
Proof.
  revert i j. induction l as [|w l IH]; intros [|i] [|j] Hnth; simpl in *;
    try discriminate.
  - exists x. split; [reflexivity|right; split; reflexivity].
  - exists y. split; [exact Hnth|left; reflexivity].
  - exists y. split; [exact Hnth|left; reflexivity].
  - destruct (IH i j Hnth) as [z [Hz Hcase]].
    exists z. split; [exact Hz|].
    destruct Hcase as [->|[-> ->]]; [left|right]; auto.
Qed.

Lemma swap_same_title (i j : nat) (a b : Video) (l : list Video) :
  nth_error l i = Some a -> nth_error l j = Some b -> title a = title b ->
  map title (swap i j l) = map title l.
Proof.
  intros Ha Hb Ht. unfold swap. rewrite Ha, Hb.
  destruct (@nth_error_update i j a a l Ha) as [z [Hz Hcase]].
  rewrite (@update_same_title i b z _ Hz).
  - apply (@update_same_title j a b l Hb). exact Ht.
  - destruct Hcase as [->|[_ ->]]; congruence.
Qed.

(** *** What one day does to a ranking of two *)

Lemma sort_pair_keep (x y : Video) :
  ltb (views x) (views y) = false -> sort_videos [x; y] = [x; y].
Proof. intros E. simpl. now rewrite E. Qed.

Lemma sort_pair_swap (x y : Video) :
  ltb (views x) (views y) = true -> sort_videos [x; y] = [y; x].
Proof. intros E. simpl. now rewrite E. Qed.

Lemma day_step_pair_keep (day : nat) (x y : Video) (out : list Report) :
  day <> O -> ltb (views x) (views y) = false ->
  day_step day (ranked x y out)
  = Ok (ranked (fast_forward1 x) (fast_forward1 y) out).
Proof.
  intros Hday E. rewrite day_step_spec by (now right).
  unfold after_day, reports_of_day, ranked.
  cbn [videos printed]. rewrite (sort_pair_keep x y E).
  destruct (Nat.eqb_spec day 0) as [|_]; [contradiction|].
  rewrite titles_differ_same by reflexivity.
  now rewrite app_nil_r.
Qed.

Lemma day_step_pair_swap (day : nat) (x y : Video) (out : list Report) :
  day <> O -> ltb (views x) (views y) = true ->
  (title x =? title y)%string = false ->
  day_step day (ranked x y out)
  = Ok (ranked (fast_forward1 y) (fast_forward1 x)
               (out ++ [mkReport (day_label day) [y; x]])).
Proof.
  intros Hday E Ht. rewrite day_step_spec by (now right).
  unfold after_day, reports_of_day, ranked.
  cbn [videos printed]. rewrite (sort_pair_swap x y E).
  destruct (Nat.eqb_spec day 0) as [|_]; [contradiction|].
  unfold titles_differ. simpl. rewrite Ht. reflexivity.
Qed.

(** Once [x] is ahead of [y] and stays ahead, nothing more is printed. *)
Lemma run_days_pair_keep (n day : nat) (x y : Video) (out : list Report) :
  day <> O ->
  (forall k : nat,
      ltb (views (after k x)) (views (after k y)) = false) ->
  run_days n day (ranked x y out) = Ok (ranked (after n x) (after n y) out).
Proof.
  revert day x y. induction n as [|n IH]; intros day x y Hday Hk.
  - reflexivity.
  - cbn [run_days].
    rewrite day_step_pair_keep; [|exact Hday|exact (Hk O)].
    cbn [bind]. rewrite IH.
    + unfold after. rewrite <- !Nat.iter_succ_r. reflexivity.
    + apply Nat.neq_succ_0.
    + intros k. unfold after in *. rewrite <- !Nat.iter_succ_r. apply Hk.
Qed.

End Facts.

(** ** One overtaking *)

Section Overtake.

Context {num : Type} `{Number num}.

Abbreviation Video := (@Video num).

Variables a b : Video.

Hypothesis titles : (title a =? title b)%string = false.
Hypothesis ahead :
  forall k, (k < 3)%nat ->
            ltb (views (after k a)) (views (after k b)) = false.
Hypothesis overtaken : ltb (views (after 3 a)) (views (after 3 b)) = true.
Hypothesis behind :
  forall k, (3 <= k)%nat ->
            ltb (views (after k b)) (views (after k a)) = false.

Lemma overtake_run (n : nat) :
  run_days (4 + n) 0 (initial_state [a; b])
  = Ok (ranked (after (4 + n) b) (after (4 + n) a) (overtake_reports a b)).
Proof.
  rewrite run_days_add.
  assert (H4 : run_days 4 0 (initial_state [a; b])
               = Ok (ranked (after 4 b) (after 4 a) (overtake_reports a b))).
  { cbn [run_days].
    rewrite (day_step_spec (initial_well_formed [a; b])).
    unfold after_day, reports_of_day, initial_state.
    cbn [videos printed Nat.eqb bind].
    rewrite (sort_pair_keep a b (ahead (k:=0) ltac:(lia))).
    change (mkState (map fast_forward1 [a; b])
                    (Some (enumerate (map fast_forward1 [a; b])))
                    ([] ++ [mkReport starting_label [a; b]]))
      with (ranked (after 1 a) (after 1 b) [mkReport starting_label [a; b]]).
    rewrite day_step_pair_keep;
      [|discriminate|exact (ahead (k:=1) ltac:(lia))].
    cbn [bind].
    change (fast_forward1 (after 1 a)) with (after 2 a).
    change (fast_forward1 (after 1 b)) with (after 2 b).
    rewrite day_step_pair_keep;
      [|discriminate|exact (ahead (k:=2) ltac:(lia))].
    cbn [bind].
    change (fast_forward1 (after 2 a)) with (after 3 a).
    change (fast_forward1 (after 2 b)) with (after 3 b).
    rewrite day_step_pair_swap;
      [|discriminate|exact overtaken|now rewrite !title_after].
    cbn [bind]. reflexivity. }
  rewrite H4. cbn [bind]. rewrite Nat.add_0_r.
  rewrite run_days_pair_keep.
  - rewrite !after_add, (Nat.add_comm n 4). reflexivity.
  - discriminate.
  - intros k. rewrite !after_add. apply behind. lia.
Qed.

Lemma overtake_track_changes (h : Z) :
  (4 <= h)%Z -> track_changes [a; b] h = Ok (overtake_reports a b).
Proof.
  intros Hh. unfold track_changes.
  replace (Z.to_nat h) with (4 + (Z.to_nat h - 4))%nat by lia.
  rewrite overtake_run. reflexivity.
Qed.

End Overtake.

(** ** The sort under a strict weak order *)

Section Sorting.

Context {num : Type} `{Number num} {dom : num -> Prop} `{!OrderLaws num dom}.

Abbreviation Video := (@Video num).

Lemma measured_sort (l : list Video) :
  measured dom l -> measured dom (sort_videos l).
Proof. apply Permutation_Forall, sort_videos_perm. Qed.

Lemma insert_desc_sorted (x : Video) (l : list Video) :
  dom (views x) -> measured dom l ->
  StronglySorted not_below l -> StronglySorted not_below (insert_desc x l).
Proof.
  intros Hx Hl Hs. induction Hs as [|y l Hs IH Hall]; simpl.
  - constructor; constructor.
  - inversion Hl as [|? ? Hy Hl']; subst.
    destruct (ltb (views x) (views y)) eqn:E.
    + constructor; [apply IH, Hl'|].
      apply (Permutation_Forall (insert_desc_perm x l)).
      constructor; [|exact Hall].
      apply ltb_asym; assumption.
    + constructor.
      * constructor; assumption.
      * constructor; [exact E|].
        unfold measured in Hl'. rewrite Forall_forall in *.
        intros z Hz.
        apply ltb_negtrans with (views y); auto. apply Hall, Hz.
Qed.

Lemma sort_videos_sorted (l : list Video) :
  measured dom l -> StronglySorted not_below (sort_videos l).
Proof.
  induction 1 as [|x l Hx Hl IH]; simpl.
  - constructor.
  - apply insert_desc_sorted; [exact Hx|apply measured_sort, Hl|exact IH].
Qed.

Lemma insert_desc_stable (k : num) (x : Video) (l : list Video) :
  dom k -> dom (views x) -> measured dom l ->
  filter (same_measure k) (insert_desc x l) = filter (same_measure k) (x :: l).
Proof.
  intros Hk Hx Hl. induction Hl as [|y l Hy Hl IH]; simpl; [reflexivity|].
  destruct (ltb (views x) (views y)) eqn:E; simpl; [|reflexivity].
  rewrite IH. simpl.
  destruct (same_measure k x) eqn:Ex, (same_measure k y) eqn:Ey;
    try reflexivity.
  exfalso. unfold same_measure in Ex, Ey.
  apply andb_prop in Ex, Ey. destruct Ex as [Ex _], Ey as [_ Ey].
  apply negb_true_iff in Ex, Ey.
  pose proof (ltb_negtrans _ _ _ Hx Hk Hy Ex Ey). congruence.
Qed.

Lemma sort_videos_stable (k : num) (l : list Video) :
  dom k -> measured dom l ->
  filter (same_measure k) (sort_videos l) = filter (same_measure k) l.
Proof.
  intros Hk Hl. induction Hl as [|x l Hx Hl IH]; simpl; [reflexivity|].
  rewrite insert_desc_stable by (auto using measured_sort).
  simpl. rewrite IH. reflexivity.
Qed.

End Sorting.

(** ** The loop on a ranking that no longer changes *)

Section Steady.

Context {num : Type} `{Number num} `{!AddMonotone num}.

Abbreviation Video := (@Video num).
Abbreviation SimState := (@SimState num).

Variable g : num.

Lemma fast_forward_sorted (l : list Video) :
  Forall (same_growth g) l ->
  StronglySorted not_below l ->
  StronglySorted not_below (map fast_forward1 l).
Proof.
  intros Hg Hs. induction Hs as [|x l Hs IH Hall]; simpl.
  - constructor.
  - inversion Hg as [|? ? Hx Hl]; subst.
    constructor; [apply IH, Hl|].
    apply Forall_map. rewrite Forall_forall in *.
    intros y Hy. unfold not_below, fast_forward1, fast_forward. simpl.
    rewrite Hx, (Hl y Hy). apply add_mono. apply Hall, Hy.
Qed.

Lemma fast_forward_same_growth (l : list Video) :
  Forall (same_growth g) l -> Forall (same_growth g) (map fast_forward1 l).
Proof.
  intros Hg. apply Forall_map. apply Forall_impl with (2 := Hg).
  intros v Hv. exact Hv.
Qed.

Lemma steady_after_sorted_day (day : nat) (st : SimState) :
  Forall (same_growth g) (videos st) ->
  StronglySorted not_below (sort_videos (videos st)) ->
  steady g (after_day day st).
Proof.
  intros Hg Hs. unfold steady, after_day. simpl.
  assert (Hg' : Forall (same_growth g) (sort_videos (videos st)))
    by (apply (Permutation_Forall (sort_videos_perm (videos st))), Hg).
  repeat split.
  - apply fast_forward_sorted; assumption.
  - apply fast_forward_same_growth, Hg'.
Qed.

Lemma steady_day (day : nat) (st : SimState) :
  day <> O -> steady g st ->
  exists st', day_step day st = Ok st' /\ steady g st' /\
              printed st' = printed st.
Proof.
  intros Hday (Hs & Hg & Hprev).
  exists (after_day day st). split; [apply day_step_spec; now right|].
  unfold after_day, reports_of_day.
  rewrite (sort_videos_sorted_id (StronglySorted_Sorted Hs)).
  destruct (Nat.eqb_spec day 0) as [|_]; [contradiction|].
  rewrite titles_differ_same by reflexivity.
  simpl. split; [|apply app_nil_r].
  repeat split.
  - apply fast_forward_sorted; assumption.
  - apply fast_forward_same_growth, Hg.
Qed.

Lemma steady_run (n day : nat) (st : SimState) :
  day <> O -> steady g st ->
  exists st', run_days n day st = Ok st' /\ printed st' = printed st.
Proof.
  revert day st. induction n as [|n IH]; intros day st Hday Hst; simpl.
  - exists st. split; reflexivity.
  - destruct (steady_day Hday Hst) as [st1 [Hstep [Hst1 Hp1]]].
    rewrite Hstep. simpl.
    destruct (IH (S day) st1 (Nat.neq_succ_0 day) Hst1) as [st' [Hrun Hp]].
    exists st'. split; [exact Hrun|]. now rewrite Hp.
Qed.

End Steady.

(** ** Linear growth in exact arithmetic *)

Section Linear.

Context {num : Type} `{Number num} `{!ExactArith num}.

Abbreviation Video := (@Video num).

Lemma views_after_linear (n : nat) (v : Video) :
  views (after (S n) v)
  = add (views v) (mul (avg_views v) (of_int (Z.of_nat (S n)))).
Proof.
  induction n as [|n IH].
  - reflexivity.
  - rewrite (after_succ (S n) v).
    unfold fast_forward1 at 1, fast_forward. cbn [views avg_views].
    rewrite IH, (avg_views_after (S n) v).
    rewrite add_assoc, <- mul_add_distr, <- of_int_add.
    replace (Z.of_nat (S n) + 1)%Z with (Z.of_nat (S (S n))) by lia.
    reflexivity.
Qed.

End Linear.

(** ** The rationals *)

Lemma Qc_ltb_true (x y : Qc) : Qc_ltb x y = true <-> (x < y)%Qc.
Proof.
  unfold Qc_ltb. rewrite Qclt_alt.
  destruct (x ?= y)%Qc; split; intros E; congruence.
Qed.

Lemma Qc_ltb_false (x y : Qc) : Qc_ltb x y = false <-> (y <= x)%Qc.
Proof.
  split; intros E.
  - apply Qcnot_lt_le. intros Hlt. apply Qc_ltb_true in Hlt. congruence.
  - destruct (Qc_ltb x y) eqn:E'; [|reflexivity].
    apply Qc_ltb_true in E'. exfalso. revert E'. apply Qcle_not_lt, E.
Qed.

#[export] Instance Qc_OrderLaws : OrderLaws Qc any_Qc.
Proof.
  split; simpl.
  - intros x y _ _ E. apply Qc_ltb_true in E. apply Qc_ltb_false.
    apply Qclt_le_weak, E.
  - intros x y z _ _ _ Exy Eyz. apply Qc_ltb_false in Exy, Eyz.
    apply Qc_ltb_false. apply Qcle_trans with y; assumption.
Qed.

#[export] Instance Qc_AddMonotone : AddMonotone Qc.
Proof.
  split; simpl. intros x y c E. apply Qc_ltb_false in E.
  apply Qc_ltb_false. apply Qcplus_le_compat; [exact E|apply Qcle_refl].
Qed.

Lemma Qc_of_int_add (x y : Z) :
  Q2Qc (inject_Z (x + y)) = (Q2Qc (inject_Z x) + Q2Qc (inject_Z y))%Qc.
Proof.
  unfold Qcplus. apply Q2Qc_eq_iff. cbn [this Q2Qc].
  rewrite !Qred_correct, inject_Z_plus. reflexivity.
Qed.

Lemma Qc_of_int_mul (x y : Z) :
  Q2Qc (inject_Z (x * y)) = (Q2Qc (inject_Z x) * Q2Qc (inject_Z y))%Qc.
Proof.
  unfold Qcmult. apply Q2Qc_eq_iff. cbn [this Q2Qc].
  rewrite !Qred_correct, inject_Z_mult. reflexivity.
Qed.

Lemma Qc_ltb_of_int (x y : Z) :
  Qc_ltb (Q2Qc (inject_Z x)) (Q2Qc (inject_Z y)) = (x <? y)%Z.
Proof.
  destruct (Z.ltb_spec x y) as [Hlt|Hle].
  - apply Qc_ltb_true. unfold Qclt. cbn [this Q2Qc].
    rewrite !Qred_correct, <- Zlt_Qlt. exact Hlt.
  - apply Qc_ltb_false. unfold Qcle. cbn [this Q2Qc].
    rewrite !Qred_correct, <- Zle_Qle. exact Hle.
Qed.

#[export] Instance Qc_ExactArith : ExactArith Qc.
Proof.
  split; simpl.
  - intros x y z. symmetry. apply Qcplus_assoc.
  - apply Qcmult_plus_distr_r.
  - apply Qc_of_int_add.
Qed.

Lemma Qc_views_after (k : nat) (v : @Video Qc) :
  views (after k v)
  = (views v + avg_views v * Q2Qc (inject_Z (Z.of_nat k)))%Qc.
Proof.
  destruct k as [|k].
  - simpl. change (Q2Qc (inject_Z 0)) with 0%Qc. ring.
  - exact (views_after_linear (num:=Qc) k v).
Qed.

Lemma Qc_views_after_int (k : nat) (t : string) (m u a y g : Z) :
  views (after k (mkVideo (num:=Qc) t (Q2Qc (inject_Z m)) u a y
                          (Q2Qc (inject_Z g))))
  = Q2Qc (inject_Z (m + g * Z.of_nat k)).
Proof.
  rewrite Qc_views_after. cbn [views avg_views].
  now rewrite Qc_of_int_add, Qc_of_int_mul.
Qed.

Lemma Qc_div_exact (q b : Z) :
  b <> 0%Z ->
  Qcdiv (Q2Qc (inject_Z (q * b))) (Q2Qc (inject_Z b)) = Q2Qc (inject_Z q).
Proof.
  intros Hb. rewrite Qc_of_int_mul. apply Qcdiv_mult_l.
  intros E. apply Q2Qc_eq_iff in E.
  apply (inject_Z_injective b 0) in E. contradiction.
Qed.

Lemma Qc_div_neg (m a : Z) :
  (0 < m)%Z -> (a < 0)%Z ->
  (Qcdiv (Q2Qc (inject_Z m)) (Q2Qc (inject_Z a)) < Q2Qc (inject_Z 0))%Qc.
Proof.
  intros Hm Ha. unfold Qclt, Qcdiv, Qcmult, Qcinv. cbn [this Q2Qc].
  rewrite !Qred_correct.
  destruct m as [|p|p]; try lia. destruct a as [|q|q]; try lia.
  unfold Qlt, Qmult, Qinv, inject_Z. simpl. lia.
Qed.

Lemma Qc_add_neg (x g : Qc) :
  (g < Q2Qc (inject_Z 0))%Qc ->
  (x + g * Q2Qc (inject_Z 1) < x)%Qc.
Proof.
  change (Q2Qc (inject_Z 0)) with 0%Qc.
  change (Q2Qc (inject_Z 1)) with 1%Qc.
  intros Hg. rewrite Qcmult_1_r.
  apply Qclt_minus_iff in Hg. apply Qclt_minus_iff.
  replace (x + - (x + g))%Qc with (0 + - g)%Qc by ring. exact Hg.
Qed.

(** ** Binary64: the addition is monotone *)

Unset Implicit Arguments.

Section Binary64.

Local Open Scope Z_scope.

(** *** Powers of two and the number of digits *)

Lemma digits2_pos_size (m : positive) : digits2_pos m = Pos.size m.
Proof. induction m as [m IH|m IH|]; simpl; now rewrite ?IH. Qed.

Lemma digits2_lower (m : positive) :
  2 ^ (Z.pos (digits2_pos m) - 1) <= Z.pos m.
Proof.
  induction m as [m IH|m IH|]; cbn [digits2_pos].
  - rewrite Pos2Z.inj_succ.
    replace (Z.succ (Z.pos (digits2_pos m)) - 1)
      with (Z.succ (Z.pos (digits2_pos m) - 1)) by lia.
    rewrite Z.pow_succ_r by lia. lia.
  - rewrite Pos2Z.inj_succ.
    replace (Z.succ (Z.pos (digits2_pos m)) - 1)
      with (Z.succ (Z.pos (digits2_pos m) - 1)) by lia.
    rewrite Z.pow_succ_r by lia. lia.
  - simpl. lia.
Qed.

Lemma digits2_upper (m : positive) :
  Z.pos m < 2 ^ Z.pos (digits2_pos m).
Proof.
  induction m as [m IH|m IH|]; cbn [digits2_pos].
  - rewrite Pos2Z.inj_succ, Z.pow_succ_r by lia. lia.
  - rewrite Pos2Z.inj_succ, Z.pow_succ_r by lia. lia.
  - simpl. lia.
Qed.

(** The number of digits is the one exponent that brackets the number. *)
Lemma digits2_unique (m : positive) (d : Z) :
  2 ^ (d - 1) <= Z.pos m < 2 ^ d -> Z.pos (digits2_pos m) = d.
Proof.
  intros [Hlo Hhi].
  pose proof (digits2_lower m) as Hl. pose proof (digits2_upper m) as Hu.
  assert (Hd : 0 < d).
  { destruct (Z.le_gt_cases d 0) as [Hd|Hd]; [|exact Hd].
    assert (2 ^ d <= 2 ^ 0) by (apply Z.pow_le_mono_r; lia).
    simpl in *. lia. }
  destruct (Z.lt_trichotomy (Z.pos (digits2_pos m)) d) as [H|[H|H]];
    [|exact H|].
  - assert (2 ^ Z.pos (digits2_pos m) <= 2 ^ (d - 1))
      by (apply Z.pow_le_mono_r; lia). lia.
  - assert (2 ^ d <= 2 ^ (Z.pos (digits2_pos m) - 1))
      by (apply Z.pow_le_mono_r; lia). lia.
Qed.

Lemma iter_xO (m n : positive) :
  Z.pos (Pos.iter xO m n) = Z.pos m * 2 ^ Z.pos n.
Proof.
  revert m. induction n as [|n IH] using Pos.peano_ind; intros m.
  - simpl. lia.
  - rewrite Pos.iter_succ, Pos2Z.inj_succ, Z.pow_succ_r by lia.
    rewrite Pos2Z.inj_xO, IH. lia.
Qed.

Lemma digits2_shift (m n : positive) :
  Z.pos (digits2_pos (Pos.iter xO m n)) = Z.pos (digits2_pos m) + Z.pos n.
Proof.
  apply digits2_unique. rewrite iter_xO.
  pose proof (digits2_lower m). pose proof (digits2_upper m).
  replace (Z.pos (digits2_pos m) + Z.pos n - 1)
    with ((Z.pos (digits2_pos m) - 1) + Z.pos n) by lia.
  rewrite !Z.pow_add_r by lia.
  assert (0 < 2 ^ Z.pos n) by (apply Z.pow_pos_nonneg; lia).
  split; nia.
Qed.

(** *** Shifting right with a round bit and a sticky bit *)

Lemma iter_pos_nat {A : Type} (f : A -> A) (n : positive) (x : A) :
  iter_pos f n x = Nat.iter (Pos.to_nat n) f x.
Proof.
  revert x. induction n as [n IH|n IH|]; intros x; cbn [iter_pos].
  - rewrite !IH, Pos2Nat.inj_xI.
    rewrite <- Nat.iter_add, <- Nat.iter_succ_r. f_equal. lia.
  - rewrite !IH, Pos2Nat.inj_xO. rewrite <- Nat.iter_add. f_equal. lia.
  - reflexivity.
Qed.

Lemma shr_1_nonneg (m : Z) (r s : bool) :
  0 <= m ->
  shr_1 (Build_shr_record m r s)
  = Build_shr_record (Z.div2 m) (Z.odd m) (r || s).
Proof.
  intros Hm. destruct m as [|[p|p|]|p]; try reflexivity. lia.
Qed.

Lemma shifted_iter (x : Z) (k : nat) :
  0 <= x ->
  shifted x k (Nat.iter k shr_1 (Build_shr_record x false false)).
Proof.
  intros Hx. induction k as [|k IH].
  - unfold shifted. simpl. rewrite Z.div_1_r, Z.mod_1_r.
    repeat split; intros; try discriminate; try lia.
  - simpl Nat.iter.
    destruct (Nat.iter k shr_1 (Build_shr_record x false false))
      as [m r s].
    unfold shifted in *. cbn [shr_m shr_r shr_s] in *.
    destruct IH as (Hm & Hr & Hs).
    set (p := 2 ^ Z.of_nat k) in *.
    assert (Hp : 0 < p) by (apply Z.pow_pos_nonneg; lia).
    replace (2 ^ Z.of_nat (S k)) with (2 * p)
      by (unfold p; rewrite Nat2Z.inj_succ, Z.pow_succ_r by lia; lia).
    assert (Hm0 : 0 <= m) by (subst m; apply Z.div_pos; lia).
    rewrite shr_1_nonneg by exact Hm0. cbn [shr_m shr_r shr_s].
    pose proof (Z.div_mod x p ltac:(lia)) as Ex.
    pose proof (Z.mod_pos_bound x p Hp) as Bx.
    pose proof (Z.div_mod m 2 ltac:(lia)) as Em.
    pose proof (Z.mod_pos_bound m 2 ltac:(lia)) as Bm.
    rewrite <- Hm in Ex.
    assert (Eq : x / (2 * p) = m / 2).
    { rewrite (Z.mul_comm 2 p), <- Z.div_div by lia. now rewrite Hm. }
    assert (Er : x mod (2 * p) = (m mod 2) * p + x mod p).
    { symmetry. apply Z.mod_unique with (m / 2); [left; nia|]. nia. }
    rewrite Z.div2_div, Eq, Er.
    assert (Eo : Z.odd m = true <-> m mod 2 = 1).
    { rewrite Zodd_mod. destruct (Z.eqb_spec (m mod 2) 1); split;
        intros; try reflexivity; try assumption; try discriminate; lia. }
    split; [reflexivity|].
    assert (Hb : m mod 2 = 0 \/ m mod 2 = 1) by lia.
    split.
    + rewrite Eo. destruct Hb as [-> | ->]; split; intros; lia.
    + rewrite orb_true_iff, Hr, Hs.
      destruct Hb as [-> | ->]; split.
      * intros [H|[H1 H2]]; split; lia.
      * intros [H1 H2].
        destruct (Z.eq_dec (2 * (x mod p)) p); [left; lia|right].
        split; lia.
      * intros [H|[H1 H2]]; split; lia.
      * intros [H1 H2].
        destruct (Z.eq_dec (2 * (x mod p)) p); [left; lia|right].
        split; lia.
Qed.

(** *** Rounding to nearest, ties to even *)

Lemma rne_shifted (x : Z) (k : nat) (mrs : shr_record) :
  shifted x k mrs ->
  round_nearest_even (shr_m mrs) (loc_of_shr_record mrs)
  = rne x (Z.of_nat k).
Proof.
  unfold shifted, rne. destruct mrs as [m r s]. cbn [shr_m shr_r shr_s].
  set (p := 2 ^ Z.of_nat k).
  assert (Hp : 0 < p) by (apply Z.pow_pos_nonneg; lia).
  pose proof (Z.mod_pos_bound x p Hp) as Bx.
  intros (-> & Hr & Hs).
  destruct (Z.ltb_spec (2 * (x mod p)) p) as [H1|H1].
  - destruct r; [exfalso; apply proj1 in Hr; specialize (Hr eq_refl); lia|].
    destruct s; reflexivity.
  - destruct r; [|exfalso; apply proj2 in Hr; specialize (Hr H1);
                  discriminate].
    destruct (Z.ltb_spec p (2 * (x mod p))) as [H2|H2].
    + destruct s; [reflexivity|].
      exfalso. apply proj2 in Hs.
      assert (false = true) by (apply Hs; lia). discriminate.
    + destruct s; [|reflexivity].
      exfalso. apply proj1 in Hs. specialize (Hs eq_refl). lia.
Qed.

Lemma rne_bounds (x k : Z) : x / 2 ^ k <= rne x k <= x / 2 ^ k + 1.
Proof.
  unfold rne.
  destruct (_ <? _); [lia|]. destruct (_ <? _); [lia|].
  destruct (Z.even _); lia.
Qed.

Lemma rne_mono_same (x1 x2 k : Z) :
  0 <= k -> x1 <= x2 -> rne x1 k <= rne x2 k.
Proof.
  intros Hk Hx.
  assert (Hp : 0 < 2 ^ k) by (apply Z.pow_pos_nonneg; lia).
  pose proof (Z.div_le_mono x1 x2 (2 ^ k) Hp Hx) as Hm.
  destruct (Z.eq_dec (x1 / 2 ^ k) (x2 / 2 ^ k)) as [E|E].
  - unfold rne. rewrite E.
    pose proof (Z.div_mod x1 (2 ^ k) ltac:(lia)) as E1.
    pose proof (Z.div_mod x2 (2 ^ k) ltac:(lia)) as E2.
    rewrite E in E1.
    assert (Hr : x1 mod 2 ^ k <= x2 mod 2 ^ k) by lia.
    repeat match goal with
           | |- context [(?a <? ?b)] => destruct (Z.ltb_spec a b)
           end;
      try destruct (Z.even _); lia.
  - pose proof (rne_bounds x1 k). pose proof (rne_bounds x2 k). lia.
Qed.

Lemma rne_scale (x k j : Z) :
  0 <= k -> 0 <= j -> rne (x * 2 ^ j) (k + j) = rne x k.
Proof.
  intros Hk Hj. unfold rne.
  assert (Hp : 0 < 2 ^ k) by (apply Z.pow_pos_nonneg; lia).
  assert (Hq : 0 < 2 ^ j) by (apply Z.pow_pos_nonneg; lia).
  rewrite Z.pow_add_r by lia.
  rewrite Z.div_mul_cancel_r by lia.
  rewrite Z.mul_mod_distr_r by lia.
  set (r := x mod 2 ^ k). set (m := x / 2 ^ k).
  set (p := 2 ^ k) in *. set (q := 2 ^ j) in *.
  assert (E1 : (2 * (r * q) <? p * q) = (2 * r <? p)).
  { destruct (Z.ltb_spec (2 * r) p), (Z.ltb_spec (2 * (r * q)) (p * q));
      try reflexivity; nia. }
  assert (E2 : (p * q <? 2 * (r * q)) = (p <? 2 * r)).
  { destruct (Z.ltb_spec p (2 * r)), (Z.ltb_spec (p * q) (2 * (r * q)));
      try reflexivity; nia. }
  rewrite E1, E2. reflexivity.
Qed.

Lemma rne_zero_shift (x : Z) : rne x 0 = x.
Proof.
  unfold rne. simpl. rewrite Z.div_1_r, Z.mod_1_r. reflexivity.
Qed.

Lemma rne_exact (x k : Z) : 0 <= k -> rne (x * 2 ^ k) k = x.
Proof.
  intros Hk. rewrite <- (rne_zero_shift x) at 2.
  apply (rne_scale x 0 k); lia.
Qed.

(** Rounding is monotone, whatever the two scales. *)
Lemma rne_mono (x1 k1 x2 k2 : Z) :
  0 <= k1 -> 0 <= k2 ->
  x1 * 2 ^ k2 <= x2 * 2 ^ k1 ->
  rne x1 k1 <= rne x2 k2.
Proof.
  intros H1 H2 Hx.
  rewrite <- (rne_scale x1 k1 k2), <- (rne_scale x2 k2 k1) by lia.
  rewrite (Z.add_comm k2 k1). apply rne_mono_same; lia.
Qed.

Lemma rne_le (x k b : Z) : 0 <= k -> x <= b * 2 ^ k -> rne x k <= b.
Proof.
  intros Hk Hx. rewrite <- (rne_exact b k Hk).
  apply rne_mono_same; assumption.
Qed.

Lemma rne_ge (x k b : Z) : 0 <= k -> b * 2 ^ k <= x -> b <= rne x k.
Proof.
  intros Hk Hx. rewrite <- (rne_exact b k Hk).
  apply rne_mono_same; assumption.
Qed.

(** *** What [binary_round] computes *)

Lemma fexp_eq (e : Z) : fexp prec emax e = Z.max (e - 53) emin64.
Proof. reflexivity. Qed.

Lemma shr_fexp_shifted (x e : Z) :
  0 <= x ->
  let k := Z.max 0 (fexp prec emax (Zdigits2 x + e) - e) in
  exists mrs,
    shr_fexp prec emax x e loc_Exact = (mrs, e + k) /\
    shifted x (Z.to_nat k) mrs.
Proof.
  intros Hx k. unfold shr_fexp, shr. cbn [shr_record_of_loc].
  subst k. destruct (fexp prec emax (Zdigits2 x + e) - e) as [|p|p] eqn:E.
  - eexists. split; [rewrite Z.add_0_r; reflexivity|].
    apply (shifted_iter x 0 Hx).
  - eexists. split; [rewrite Z.max_r by lia; reflexivity|].
    rewrite iter_pos_nat, Z.max_r by lia. simpl Z.to_nat.
    apply shifted_iter, Hx.
  - eexists. split; [rewrite Z.max_l by lia; rewrite Z.add_0_r; reflexivity|].
    rewrite Z.max_l by lia. apply (shifted_iter x 0 Hx).
Qed.

Lemma digits2_le_53 (p : positive) :
  Z.pos p < 2 ^ 53 -> Z.pos (digits2_pos p) <= 53.
Proof.
  intros Hp. pose proof (digits2_lower p) as Hl.
  destruct (Z.le_gt_cases (Z.pos (digits2_pos p)) 53) as [H|H]; [exact H|].
  assert (2 ^ 53 <= 2 ^ (Z.pos (digits2_pos p) - 1))
    by (apply Z.pow_le_mono_r; lia).
  lia.
Qed.

Lemma round_aux_aligned (s : bool) (m : positive) (e : Z) :
  let c := fexp prec emax (Z.pos (digits2_pos m) + e) in
  e <= c ->
  binary_round_aux prec emax s (Z.pos m) e loc_Exact
  = decode s (rne (Z.pos m) (c - e)) c.
Proof.
  intros c Hec. unfold binary_round_aux.
  destruct (shr_fexp_shifted (Z.pos m) e ltac:(lia)) as [mrs [E1 S1]].
  cbn [Zdigits2] in E1, S1. fold c in E1, S1.
  rewrite Z.max_r in E1, S1 by lia.
  rewrite E1. replace (e + (c - e)) with c by lia.
  rewrite (rne_shifted _ _ _ S1), Z2Nat.id by lia.
  set (M := rne (Z.pos m) (c - e)).
  assert (Hc : emin64 <= c) by (unfold c; rewrite fexp_eq; lia).
  assert (HM0 : 0 <= M).
  { apply rne_ge; [lia|]. simpl. lia. }
  assert (HM1 : M <= 2 ^ 53).
  { apply rne_le; [lia|].
    pose proof (digits2_upper m) as Hu.
    assert (Z.pos (digits2_pos m) <= 53 + (c - e))
      by (unfold c; rewrite fexp_eq; lia).
    assert (2 ^ Z.pos (digits2_pos m) <= 2 ^ (53 + (c - e)))
      by (apply Z.pow_le_mono_r; lia).
    rewrite Z.pow_add_r in * by lia. lia. }
  destruct (shr_fexp_shifted M c HM0) as [mrs2 [E2 S2]].
  rewrite fexp_eq in E2, S2.
  destruct M as [|p|p] eqn:EM; [| |lia]; cbn [Zdigits2] in E2, S2.
  - (* the mantissa is zero *)
    rewrite Z.max_l in S2, E2 by lia. rewrite E2.
    destruct S2 as (-> & _). reflexivity.
  - destruct (Z.eqb_spec (Z.pos p) (2 ^ 53)) as [E53|E53].
    + (* the rounding carried into a 54th digit *)
      assert (Hd : Z.pos (digits2_pos p) = 54).
      { apply digits2_unique. rewrite E53. simpl. lia. }
      rewrite Hd in E2, S2.
      replace (Z.max 0 (Z.max (54 + c - 53) emin64 - c)) with 1 in *
        by (unfold emin64 in *; lia).
      rewrite E2. destruct S2 as (-> & _).
      cbn [decode]. rewrite E53. reflexivity.
    + pose proof (digits2_le_53 p ltac:(lia)) as Hd.
      rewrite Z.max_l in S2, E2 by lia. rewrite E2.
      destruct S2 as (-> & _). rewrite Z.add_0_r.
      simpl (Z.pos p / 2 ^ Z.of_nat (Z.to_nat 0)).
      rewrite Z.div_1_r. cbn [decode].
      destruct (Z.eqb_spec (Z.pos p) (2 ^ 53)); [contradiction|].
      reflexivity.
Qed.

Lemma Zdigits2_mul_pow2 (m : positive) (j : Z) :
  0 <= j -> Zdigits2 (Z.pos m * 2 ^ j) = Z.pos (digits2_pos m) + j.
Proof.
  intros Hj.
  assert (Hq : 0 < 2 ^ j) by (apply Z.pow_pos_nonneg; lia).
  destruct (Z.pos m * 2 ^ j) as [|q|q] eqn:E; try lia.
  cbn [Zdigits2]. apply digits2_unique. rewrite <- E.
  pose proof (digits2_lower m). pose proof (digits2_upper m).
  replace (Z.pos (digits2_pos m) + j - 1)
    with ((Z.pos (digits2_pos m) - 1) + j) by lia.
  rewrite !Z.pow_add_r by lia. split; nia.
Qed.

Lemma binary_round_int (s : bool) (m : positive) (e : Z) :
  emin64 <= e ->
  binary_round prec emax s m e = round_int s (Z.pos m * 2 ^ (e - emin64)).
Proof.
  intros He. unfold binary_round, round_int, cexp.
  rewrite Zdigits2_mul_pow2 by lia.
  replace (Z.pos (digits2_pos m) + (e - emin64) + emin64)
    with (Z.pos (digits2_pos m) + e) by lia.
  set (c := fexp prec emax (Z.pos (digits2_pos m) + e)).
  assert (Hc : emin64 <= c) by (unfold c; rewrite fexp_eq; lia).
  unfold shl_align. destruct (c - e) as [|d|d] eqn:Ed.
  - rewrite round_aux_aligned by (fold c; lia). fold c.
    replace (c - emin64) with ((c - e) + (e - emin64)) by lia.
    rewrite rne_scale by lia. reflexivity.
  - rewrite round_aux_aligned by (fold c; lia). fold c.
    replace (c - emin64) with ((c - e) + (e - emin64)) by lia.
    rewrite rne_scale by lia. reflexivity.
  - assert (Ec : fexp prec emax (Z.pos (digits2_pos (Pos.iter xO m d)) + c)
                 = c).
    { rewrite digits2_shift.
      replace (Z.pos (digits2_pos m) + Z.pos d + c)
        with (Z.pos (digits2_pos m) + e) by lia.
      reflexivity. }
    rewrite round_aux_aligned by (rewrite Ec; lia).
    rewrite Ec, Z.sub_diag, rne_zero_shift, iter_xO.
    replace (e - emin64) with (Z.pos d + (c - emin64)) by lia.
    rewrite Z.pow_add_r, Z.mul_assoc by lia.
    rewrite rne_exact by lia. reflexivity.
Qed.

Lemma binary_normalize_int (M e : Z) :
  emin64 <= e ->
  binary_normalize prec emax M e false = round_signed (M * 2 ^ (e - emin64)).
Proof.
  intros He.
  assert (Hq : 0 < 2 ^ (e - emin64)) by (apply Z.pow_pos_nonneg; lia).
  unfold binary_normalize, round_signed.
  destruct M as [|m|m].
  - reflexivity.
  - rewrite binary_round_int by exact He.
    destruct (Z.pos m * 2 ^ (e - emin64)) eqn:E; try lia. reflexivity.
  - rewrite binary_round_int by exact He.
    destruct (Z.neg m * 2 ^ (e - emin64)) as [|q|q] eqn:E; try lia.
    f_equal. lia.
Qed.

(** *** The order of the floats, and the monotonicity of rounding *)

Lemma key_ltb_spec (p q : Z * (Z * Z)) :
  key_ltb p q = true <->
  (fst p < fst q \/
   fst p = fst q /\ (fst (snd p) < fst (snd q) \/
                     fst (snd p) = fst (snd q) /\ snd (snd p) < snd (snd q)))%Z.
Proof.
  destruct p as [a [b c]], q as [a' [b' c']]. simpl.
  rewrite !orb_true_iff, !andb_true_iff, !orb_true_iff, !andb_true_iff.
  rewrite !Z.ltb_lt, !Z.eqb_eq. tauto.
Qed.

Lemma key_le_spec (p q : Z * (Z * Z)) :
  key_le p q <->
  (fst p < fst q \/
   fst p = fst q /\ (fst (snd p) < fst (snd q) \/
                     fst (snd p) = fst (snd q) /\ snd (snd p) <= snd (snd q))).
Proof.
  unfold key_le.
  destruct (key_ltb q p) eqn:E.
  - apply key_ltb_spec in E. split; [discriminate|lia].
  - assert (N : ~ key_ltb q p = true) by congruence.
    rewrite key_ltb_spec in N. split; [lia|reflexivity].
Qed.

Lemma key_le_opp (p q : Z * (Z * Z)) :
  key_le p q -> key_le (key_opp q) (key_opp p).
Proof. rewrite !key_le_spec. unfold key_opp. simpl. lia. Qed.

Lemma SF_key_decode_true (M c : Z) :
  0 <= M -> SF_key (decode true M c) = key_opp (SF_key (decode false M c)).
Proof.
  intros HM. unfold decode. destruct M as [|p|p]; [reflexivity| |lia].
  destruct (_ =? _); [destruct (_ <=? _)|destruct (_ <=? _)]; reflexivity.
Qed.

Lemma SF_key_decode_false (M c : Z) :
  0 < M -> SF_key (decode false M c) = mantissa_key M c.
Proof.
  intros HM. unfold decode, mantissa_key.
  destruct M as [|p|p]; try lia.
  destruct (_ =? _); [destruct (_ <=? _)|destruct (_ <=? _)]; reflexivity.
Qed.

Lemma mantissa_key_mono (M1 c1 M2 c2 : Z) :
  0 < M1 <= 2 ^ 53 -> 0 < M2 <= 2 ^ 53 ->
  c1 <= c2 ->
  (c1 = c2 -> M1 <= M2) ->
  (c1 < c2 -> 2 ^ 52 <= M2) ->
  key_le (mantissa_key M1 c1) (mantissa_key M2 c2).
Proof.
  intros H1 H2 Hc Heq Hlt. apply key_le_spec. unfold mantissa_key.
  change (2 ^ 53) with 9007199254740992 in *.
  change (2 ^ 52) with 4503599627370496 in *.
  repeat match goal with
         | |- context [(?a =? ?b)] => destruct (Z.eqb_spec a b)
         | |- context [(?a <=? ?b)] => destruct (Z.leb_spec a b)
         end; simpl; lia.
Qed.

Lemma Zdigits2_pos_bounds (N : Z) :
  0 < N -> 2 ^ (Zdigits2 N - 1) <= N < 2 ^ Zdigits2 N.
Proof.
  intros HN. destruct N as [|p|p]; try lia. cbn [Zdigits2].
  split; [apply digits2_lower|apply digits2_upper].
Qed.

Lemma Zdigits2_mono (N1 N2 : Z) :
  0 < N1 <= N2 -> Zdigits2 N1 <= Zdigits2 N2.
Proof.
  intros [H1 H12].
  pose proof (Zdigits2_pos_bounds N1 H1) as B1.
  pose proof (Zdigits2_pos_bounds N2 ltac:(lia)) as B2.
  destruct (Z.le_gt_cases (Zdigits2 N1) (Zdigits2 N2)) as [H|H]; [exact H|].
  assert (2 ^ Zdigits2 N2 <= 2 ^ (Zdigits2 N1 - 1)).
  { apply Z.pow_le_mono_r; [lia|]. lia. }
  lia.
Qed.

Lemma Zdigits2_pos (N : Z) : 0 < N -> 0 < Zdigits2 N.
Proof. destruct N; simpl; lia. Qed.

(** The mantissa a positive number rounds to. *)
Lemma round_mantissa_bounds (N : Z) :
  0 < N ->
  let M := rne N (cexp N - emin64) in
  0 < M <= 2 ^ 53 /\
  (emin64 < cexp N -> 2 ^ 52 <= M) /\
  (cexp N = emin64 -> M = N).
Proof.
  intros HN M. subst M. unfold cexp. rewrite fexp_eq.
  pose proof (Zdigits2_pos_bounds N HN) as [Blo Bhi].
  pose proof (Zdigits2_pos N HN) as Hd.
  set (d := Zdigits2 N) in *.
  destruct (Z.le_gt_cases d 53) as [Hsmall|Hbig].
  - rewrite Z.max_r by (unfold emin64; lia).
    rewrite Z.sub_diag, rne_zero_shift.
    assert (2 ^ d <= 2 ^ 53) by (apply Z.pow_le_mono_r; lia).
    repeat split; try lia; unfold emin64; lia.
  - rewrite Z.max_l by (unfold emin64; lia).
    replace (d + emin64 - 53 - emin64) with (d - 53) by lia.
    assert (E1 : 2 ^ (d - 1) = 2 ^ 52 * 2 ^ (d - 53)).
    { rewrite <- Z.pow_add_r by lia. f_equal. lia. }
    assert (E2 : 2 ^ d = 2 ^ 53 * 2 ^ (d - 53)).
    { rewrite <- Z.pow_add_r by lia. f_equal. lia. }
    assert (L : 2 ^ 52 <= rne N (d - 53)) by (apply rne_ge; lia).
    assert (U : rne N (d - 53) <= 2 ^ 53) by (apply rne_le; lia).
    change (2 ^ 52) with 4503599627370496 in *.
    repeat split; try lia; unfold emin64; lia.
Qed.

Lemma round_int_mono (N1 N2 : Z) :
  0 < N1 <= N2 ->
  key_le (SF_key (round_int false N1)) (SF_key (round_int false N2)).
Proof.
  intros [H1 H12]. assert (H2 : 0 < N2) by lia.
  unfold round_int.
  destruct (round_mantissa_bounds N1 H1) as (B1 & L1 & E1).
  destruct (round_mantissa_bounds N2 H2) as (B2 & L2 & E2).
  rewrite !SF_key_decode_false by lia.
  pose proof (Zdigits2_mono N1 N2 (conj H1 H12)) as Hd.
  assert (Hc : cexp N1 <= cexp N2) by (unfold cexp; rewrite !fexp_eq; lia).
  assert (Hm1 : emin64 <= cexp N1) by (unfold cexp; rewrite fexp_eq; lia).
  apply mantissa_key_mono; try assumption.
  - intros Ec. rewrite Ec. apply rne_mono_same; [lia|exact H12].
  - intros Hlt. apply L2. lia.
Qed.

Lemma round_int_positive (N : Z) :
  0 < N -> 1 <= fst (SF_key (round_int false N)).
Proof.
  intros HN. unfold round_int.
  destruct (round_mantissa_bounds N HN) as (B & _).
  rewrite SF_key_decode_false by lia. unfold mantissa_key.
  destruct (_ =? _); [destruct (_ <=? _)|destruct (_ <=? _)]; simpl; lia.
Qed.

Lemma round_int_true (N : Z) :
  0 < N ->
  SF_key (round_int true N) = key_opp (SF_key (round_int false N)).
Proof.
  intros HN. unfold round_int.
  destruct (round_mantissa_bounds N HN) as (B & _).
  apply SF_key_decode_true. lia.
Qed.

(** Rounding is monotone. *)
Lemma round_signed_mono (N1 N2 : Z) :
  N1 <= N2 ->
  key_le (SF_key (round_signed N1)) (SF_key (round_signed N2)).
Proof.
  intros H12. unfold round_signed.
  destruct N1 as [|p1|p1], N2 as [|p2|p2]; try lia.
  - apply key_le_spec. simpl. lia.
  - pose proof (round_int_positive (Z.pos p2) ltac:(lia)).
    apply key_le_spec. simpl fst at 1. lia.
  - apply round_int_mono. lia.
  - rewrite round_int_true by lia.
    pose proof (round_int_positive (Z.pos p1) ltac:(lia)).
    apply key_le_spec. unfold key_opp. simpl. lia.
  - rewrite round_int_true by lia.
    pose proof (round_int_positive (Z.pos p1) ltac:(lia)).
    pose proof (round_int_positive (Z.pos p2) ltac:(lia)).
    apply key_le_spec. unfold key_opp. simpl. lia.
  - rewrite !round_int_true by lia. apply key_le_opp.
    apply round_int_mono. lia.
Qed.

(** *** The value of a float, and the sum of two floats *)

Lemma valid_finite (s : bool) (m : positive) (e : Z) :
  valid_binary (S754_finite s m e) = true ->
  fexp prec emax (Z.pos (digits2_pos m) + e) = e /\ e <= 971.
Proof.
  unfold valid_binary, bounded, canonical_mantissa.
  rewrite andb_true_iff, Z.eqb_eq, Z.leb_le. intros [H1 H2].
  split; [exact H1|exact H2].
Qed.

Lemma valid_finite_bounds (s : bool) (m : positive) (e : Z) :
  valid_binary (S754_finite s m e) = true ->
  emin64 <= e <= 971 /\ Z.pos m < 2 ^ 53.
Proof.
  intros Hv. destruct (valid_finite s m e Hv) as [Hc He].
  rewrite fexp_eq in Hc. split; [lia|].
  pose proof (digits2_upper m) as Hu.
  assert (Z.pos (digits2_pos m) <= 53) by lia.
  assert (2 ^ Z.pos (digits2_pos m) <= 2 ^ 53)
    by (apply Z.pow_le_mono_r; lia).
  lia.
Qed.

(** A valid float is what its value rounds to. *)
Lemma round_int_valid (s : bool) (m : positive) (e : Z) :
  valid_binary (S754_finite s m e) = true ->
  round_int s (Z.pos m * 2 ^ (e - emin64)) = S754_finite s m e.
Proof.
  intros Hv. destruct (valid_finite s m e Hv) as [Hc He].
  destruct (valid_finite_bounds s m e Hv) as [Hb Hm].
  unfold round_int, cexp. rewrite Zdigits2_mul_pow2 by lia.
  replace (Z.pos (digits2_pos m) + (e - emin64) + emin64)
    with (Z.pos (digits2_pos m) + e) by lia.
  rewrite Hc, rne_exact by lia. unfold decode.
  destruct (Z.eqb_spec (Z.pos m) (2 ^ 53)); [lia|].
  destruct (Z.leb_spec e 971); [reflexivity|lia].
Qed.

Lemma round_signed_valid (f : spec_float) :
  real f -> valid_binary f = true ->
  SF_key (round_signed (ival f)) = SF_key f.
Proof.
  destruct f as [s|s| |s m e]; try contradiction; intros _ Hv.
  - reflexivity.
  - destruct (valid_finite_bounds s m e Hv) as [Hb _].
    assert (Hq : 0 < 2 ^ (e - emin64)) by (apply Z.pow_pos_nonneg; lia).
    unfold ival, round_signed.
    destruct s.
    + destruct (- Z.pos m * 2 ^ (e - emin64)) as [|q|q] eqn:E; try lia.
      replace (Z.pos q) with (Z.pos m * 2 ^ (e - emin64)) by lia.
      now rewrite round_int_valid.
    + destruct (Z.pos m * 2 ^ (e - emin64)) as [|q|q] eqn:E; try lia.
      rewrite <- E. now rewrite round_int_valid.
Qed.

Lemma shl_align_value (m : positive) (e e' : Z) :
  e' <= e ->
  Z.pos (fst (shl_align m e e')) = Z.pos m * 2 ^ (e - e').
Proof.
  intros He. unfold shl_align. destruct (e' - e) as [|d|d] eqn:Ed; try lia.
  - cbn [fst]. replace (e - e') with 0 by lia. simpl. lia.
  - cbn [fst]. rewrite iter_xO. f_equal. f_equal. lia.
Qed.

Lemma SFadd_finite (sx : bool) (mx : positive) (ex : Z)
      (sy : bool) (my : positive) (ey : Z) :
  valid_binary (S754_finite sx mx ex) = true ->
  valid_binary (S754_finite sy my ey) = true ->
  SFadd prec emax (S754_finite sx mx ex) (S754_finite sy my ey)
  = round_signed (ival (S754_finite sx mx ex) + ival (S754_finite sy my ey)).
Proof.
  intros Hx Hy.
  destruct (valid_finite_bounds _ _ _ Hx) as [Bx _].
  destruct (valid_finite_bounds _ _ _ Hy) as [By _].
  unfold SFadd. rewrite binary_normalize_int by lia. f_equal.
  rewrite !shl_align_value by lia.
  set (ez := Z.min ex ey).
  unfold ival.
  replace (ex - emin64) with ((ex - ez) + (ez - emin64)) by lia.
  replace (ey - emin64) with ((ey - ez) + (ez - emin64)) by lia.
  rewrite !Z.pow_add_r by lia.
  destruct sx, sy; unfold cond_Zopp; lia.
Qed.

Lemma round_signed_not_nan (N : Z) : round_signed N <> S754_nan.
Proof.
  unfold round_signed. destruct N as [|p|p]; [discriminate| |].
  - unfold round_int.
    destruct (round_mantissa_bounds (Z.pos p) ltac:(lia)) as ([B _] & _).
    unfold decode. destruct (rne _ _); try lia.
    destruct (_ =? _); [destruct (_ <=? _)|destruct (_ <=? _)];
      discriminate.
  - unfold round_int.
    destruct (round_mantissa_bounds (Z.pos p) ltac:(lia)) as ([B _] & _).
    unfold decode. destruct (rne _ _); try lia.
    destruct (_ =? _); [destruct (_ <=? _)|destruct (_ <=? _)];
      discriminate.
Qed.

(** The sum of two zero or finite floats is their exact sum, rounded. *)
Lemma SFadd_real (x y : spec_float) :
  real x -> real y ->
  valid_binary x = true -> valid_binary y = true ->
  SFadd prec emax x y <> S754_nan /\
  SF_key (SFadd prec emax x y) = SF_key (round_signed (ival x + ival y)).
Proof.
  destruct x as [sx|sx| |sx mx ex], y as [sy|sy| |sy my ey];
    try contradiction; intros _ _ Hx Hy.
  - split; [destruct sx, sy; discriminate|destruct sx, sy; reflexivity].
  - split; [discriminate|].
    cbn [SFadd]. change (ival (S754_zero sx)) with 0. rewrite Z.add_0_l.
    symmetry. apply round_signed_valid; [exact I|exact Hy].
  - split; [discriminate|].
    cbn [SFadd]. change (ival (S754_zero sy)) with 0. rewrite Z.add_0_r.
    symmetry. apply round_signed_valid; [exact I|exact Hx].
  - rewrite SFadd_finite by assumption.
    split; [apply round_signed_not_nan|reflexivity].
Qed.

Lemma key_le_antisym (p q : Z * (Z * Z)) :
  key_le p q -> key_le q p -> p = q.
Proof.
  rewrite !key_le_spec. destruct p as [a [b c]], q as [a' [b' c']].
  simpl. intros H1 H2.
  assert (a = a') by lia. assert (b = b') by lia. assert (c = c') by lia.
  congruence.
Qed.

Lemma key_eq_ival (x y : spec_float) :
  real x -> real y -> SF_key x = SF_key y -> ival x = ival y.
Proof.
  destruct x as [sx|sx| |sx mx ex], y as [sy|sy| |sy my ey];
    try contradiction; intros _ _; simpl;
    try reflexivity; try (destruct sx; discriminate);
    try (destruct sy; discriminate).
  destruct sx, sy; try discriminate; intros E; injection E; intros;
    assert (ex = ey) by lia; subst; reflexivity.
Qed.

(** The order of the keys is the order of the values. *)
Lemma key_le_ival (x y : spec_float) :
  real x -> real y ->
  valid_binary x = true -> valid_binary y = true ->
  key_le (SF_key y) (SF_key x) -> ival y <= ival x.
Proof.
  intros Rx Ry Vx Vy Hle.
  destruct (Z.le_gt_cases (ival y) (ival x)) as [H|H]; [exact H|].
  pose proof (round_signed_mono (ival x) (ival y) ltac:(lia)) as Hm.
  rewrite !round_signed_valid in Hm by assumption.
  pose proof (key_eq_ival x y Rx Ry (key_le_antisym _ _ Hm Hle)). lia.
Qed.

Lemma SFltb_key (f1 f2 : spec_float) :
  f1 <> S754_nan -> f2 <> S754_nan ->
  SFltb f1 f2 = key_ltb (SF_key f1) (SF_key f2).
Proof.
  intros H1 H2. unfold SFltb.
  destruct f1 as [s1|s1| |s1 m1 e1], f2 as [s2|s2| |s2 m2 e2];
    try contradiction; try (destruct s1, s2; reflexivity);
    try (destruct s1; reflexivity); try (destruct s2; reflexivity).
  destruct s1, s2; try reflexivity; unfold SFcompare, SF_key, key_ltb;
    rewrite Pos.compare_cont_spec; simpl;
    destruct (Z.compare_spec e1 e2), (Pos.compare_spec m1 m2);
    simpl;
    repeat match goal with
           | |- context [(?a <? ?b)%Z] => destruct (Z.ltb_spec a b)
           | |- context [(?a =? ?b)%Z] => destruct (Z.eqb_spec a b)
           end;
    simpl; try reflexivity; exfalso; lia.
Qed.

Lemma real_not_nan (f : spec_float) : real f -> f <> S754_nan.
Proof. destruct f; try contradiction; discriminate. Qed.

(** Adding the same float to two floats does not reverse their order. *)
Lemma SFadd_mono_real (x y c : spec_float) :
  real x -> real y -> real c ->
  valid_binary x = true -> valid_binary y = true -> valid_binary c = true ->
  SFltb x y = false ->
  SFltb (SFadd prec emax x c) (SFadd prec emax y c) = false.
Proof.
  intros Rx Ry Rc Vx Vy Vc Hxy.
  rewrite SFltb_key in Hxy by (apply real_not_nan; assumption).
  destruct (SFadd_real x c Rx Rc Vx Vc) as [Nx Kx].
  destruct (SFadd_real y c Ry Rc Vy Vc) as [Ny Ky].
  rewrite SFltb_key by assumption. rewrite Kx, Ky.
  apply round_signed_mono.
  pose proof (key_le_ival x y Rx Ry Vx Vy Hxy). lia.
Qed.

Lemma SFltb_nan_l (f : spec_float) : SFltb S754_nan f = false.
Proof. reflexivity. Qed.

Lemma SFltb_nan_r (f : spec_float) : SFltb f S754_nan = false.
Proof. destruct f; reflexivity. Qed.

Lemma SFltb_pinf_l (f : spec_float) : SFltb (S754_infinity false) f = false.
Proof. destruct f as [s|s| |s m e]; try reflexivity; destruct s; reflexivity. Qed.

Lemma SFltb_ninf_r (f : spec_float) : SFltb f (S754_infinity true) = false.
Proof. destruct f as [s|s| |s m e]; try reflexivity; destruct s; reflexivity. Qed.

Lemma SFltb_irrefl (f : spec_float) : SFltb f f = false.
Proof.
  destruct f as [s|s| |s m e]; try reflexivity; [destruct s; reflexivity|].
  unfold SFltb, SFcompare. rewrite Z.compare_refl, Pos.compare_cont_refl.
  destruct s; reflexivity.
Qed.

Lemma SFadd_inf_r (x : spec_float) (s : bool) :
  SFadd prec emax x (S754_infinity s) = S754_infinity s \/
  SFadd prec emax x (S754_infinity s) = S754_nan.
Proof.
  destruct x as [sx|sx| |sx mx ex]; simpl; auto.
  destruct sx, s; auto.
Qed.

Lemma SFadd_nan_r (x : spec_float) : SFadd prec emax x S754_nan = S754_nan.
Proof. destruct x; reflexivity. Qed.

Lemma SFadd_inf_l (s : bool) (c : spec_float) :
  real c -> SFadd prec emax (S754_infinity s) c = S754_infinity s.
Proof. destruct c; try contradiction; reflexivity. Qed.

Theorem SFadd_mono (x y c : spec_float) :
  valid_binary x = true -> valid_binary y = true -> valid_binary c = true ->
  SFltb x y = false ->
  SFltb (SFadd prec emax x c) (SFadd prec emax y c) = false.
Proof.
  intros Vx Vy Vc Hxy.
  destruct c as [sc|sc| |sc mc ec].
  2:{ destruct (SFadd_inf_r x sc) as [-> | ->],
               (SFadd_inf_r y sc) as [-> | ->];
        auto using SFltb_irrefl, SFltb_nan_l, SFltb_nan_r. }
  2:{ rewrite !SFadd_nan_r. reflexivity. }
  all: match goal with |- context [SFadd _ _ _ ?c] =>
         assert (Rc : real c) by exact I; set (cc := c) in * end.
  all: destruct x as [sx|sx| |sx mx ex];
    try (change (SFadd prec emax S754_nan cc) with S754_nan;
         apply SFltb_nan_l).
  all: try (rewrite (SFadd_inf_l sx cc Rc); destruct sx;
            [|apply SFltb_pinf_l];
            destruct y as [sy|sy| |sy my ey];
            try discriminate Hxy;
            [destruct sy; [|discriminate Hxy];
             rewrite (SFadd_inf_l true cc Rc); reflexivity
            |apply SFltb_nan_r]).
  all: destruct y as [sy|sy| |sy my ey];
    try (change (SFadd prec emax S754_nan cc) with S754_nan;
         apply SFltb_nan_r).
  all: try (rewrite (SFadd_inf_l sy cc Rc); destruct sy;
            [apply SFltb_ninf_r|]; destruct sx; discriminate Hxy).
  all: apply SFadd_mono_real; try assumption; exact I.
Qed.

(** *** The primitive floats *)

Theorem float_add_mono (x y c : float) :
  PrimFloat.ltb x y = false ->
  PrimFloat.ltb (PrimFloat.add x c) (PrimFloat.add y c) = false.
Proof.
  rewrite !ltb_spec, !add_spec.
  apply SFadd_mono; apply Prim2SF_valid.
Qed.

Lemma Prim2SF_not_nan (f : float) :
  not_nan f -> Prim2SF f <> S754_nan.
Proof.
  unfold not_nan, Prim2SF. intros ->.
  destruct (is_zero f); [discriminate|].
  destruct (is_infinity f); [discriminate|].
  destruct (Z.frexp f) as [r e].
  destruct (shr_fexp _ _ _ _ _) as [shr e'].
  destruct (shr_m shr); discriminate.
Qed.

Lemma not_nan_Prim2SF (f : float) :
  Prim2SF f <> S754_nan -> not_nan f.
Proof.
  unfold not_nan, Prim2SF. destruct (is_nan f); [|reflexivity].
  intros E. contradiction E. reflexivity.
Qed.

(** Adding a zero or finite float to a float that is not NaN gives a float
    that is not NaN. *)
Lemma float_add_not_nan (x c : float) :
  not_nan x -> real (Prim2SF c) -> not_nan (PrimFloat.add x c).
Proof.
  intros Hx Rc. apply not_nan_Prim2SF. rewrite add_spec.
  apply Prim2SF_not_nan in Hx.
  pose proof (Prim2SF_valid x) as Vx. pose proof (Prim2SF_valid c) as Vc.
  destruct (Prim2SF x) as [sx|sx| |sx mx ex] eqn:Ex;
    try contradiction.
  - apply SFadd_real; try assumption; exact I.
  - rewrite SFadd_inf_l by exact Rc. discriminate.
  - apply SFadd_real; try assumption; exact I.
Qed.

Lemma SFadd_comm (x y : spec_float) :
  SFadd prec emax x y = SFadd prec emax y x.
Proof.
  destruct x as [sx|sx| |sx mx ex], y as [sy|sy| |sy my ey];
    try reflexivity; try (destruct sx, sy; reflexivity).
  unfold SFadd. rewrite (Z.min_comm ey ex). f_equal. apply Z.add_comm.
Qed.

Lemma float_add_comm (x y : float) :
  PrimFloat.add x y = PrimFloat.add y x.
Proof.
  apply Prim2SF_inj. rewrite !add_spec. apply SFadd_comm.
Qed.

Lemma float_add_mono_l (x c d : float) :
  PrimFloat.ltb c d = false ->
  PrimFloat.ltb (PrimFloat.add x c) (PrimFloat.add x d) = false.
Proof.
  intros H. rewrite (float_add_comm x c), (float_add_comm x d).
  apply float_add_mono, H.
Qed.


End Binary64.

Set Implicit Arguments.

(** ** The binary64 numbers that are not NaN *)

Lemma key_ltb_asym p q : key_ltb p q = true -> key_ltb q p = false.
Proof.
  intros E. apply key_ltb_spec in E.
  destruct (key_ltb q p) eqn:E'; [|reflexivity].
  apply key_ltb_spec in E'. lia.
Qed.

Lemma key_ltb_negtrans p q r :
  key_ltb p q = false -> key_ltb q r = false -> key_ltb p r = false.
Proof.
  intros E1 E2.
  destruct (key_ltb p r) eqn:E; [|reflexivity].
  apply key_ltb_spec in E.
  assert (N1 : ~ (key_ltb p q = true)) by congruence.
  assert (N2 : ~ (key_ltb q r = true)) by congruence.
  rewrite key_ltb_spec in N1, N2. lia.
Qed.

Lemma float_ltb_key (x y : float) :
  not_nan x -> not_nan y ->
  PrimFloat.ltb x y = key_ltb (SF_key (Prim2SF x)) (SF_key (Prim2SF y)).
Proof.
  intros Hx Hy. rewrite ltb_spec.
  apply SFltb_key; apply Prim2SF_not_nan; assumption.
Qed.

#[export] Instance float_OrderLaws : OrderLaws float not_nan.
Proof.
  split; simpl.
  - intros x y Hx Hy. rewrite !float_ltb_key by assumption.
    apply key_ltb_asym.
  - intros x y z Hx Hy Hz. rewrite !float_ltb_key by assumption.
    apply key_ltb_negtrans.
Qed.

#[export] Instance float_AddMonotone : AddMonotone float.
Proof. split; simpl. apply float_add_mono. Qed.

(** ** Binary64: the float of a whole number below [2^53] *)

Unset Implicit Arguments.

Section Binary64Integers.

Local Open Scope Z_scope.

(** The float a positive whole number below [2^53] is converted to: the
    number itself, shifted to 53 digits. *)
Lemma round_int_small (s : bool) (p : positive) :
  Z.pos p < 2 ^ 53 ->
  let d := Z.pos (digits2_pos p) in
  exists m : positive,
    Z.pos m = Z.pos p * 2 ^ (53 - d) /\
    valid_binary (S754_finite s m (d - 53)) = true /\
    round_int s (Z.pos p * 2 ^ (0 - emin64)) = S754_finite s m (d - 53).
Proof.
  intros Hp d.
  pose proof (digits2_le_53 p Hp) as Hd.
  pose proof (digits2_lower p) as Hlo. pose proof (digits2_upper p) as Hup.
  fold d in Hd, Hlo, Hup.
  assert (Hd1 : 1 <= d) by (unfold d; lia).
  assert (Hq : 0 < 2 ^ (53 - d)) by (apply Z.pow_pos_nonneg; lia).
  destruct (Z.pos p * 2 ^ (53 - d)) as [|m|m] eqn:Em; try lia.
  exists m. split; [reflexivity|].
  assert (H53 : Z.pos (digits2_pos m) = 53).
  { assert (E52 : 2 ^ (53 - 1) = 2 ^ (d - 1) * 2 ^ (53 - d))
      by (rewrite <- Z.pow_add_r by lia; f_equal; lia).
    assert (E53 : 2 ^ 53 = 2 ^ d * 2 ^ (53 - d))
      by (rewrite <- Z.pow_add_r by lia; f_equal; lia).
    apply digits2_unique. rewrite <- Em, E52, E53. split; nia. }
  assert (Hv : valid_binary (S754_finite s m (d - 53)) = true).
  { unfold valid_binary, bounded, canonical_mantissa.
    rewrite H53, fexp_eq. unfold emin64.
    apply andb_true_iff. split; [apply Z.eqb_eq|apply Z.leb_le]; 
      unfold emax, prec; lia. }
  split; [exact Hv|].
  rewrite <- (round_int_valid s m (d - 53) Hv). f_equal.
  rewrite <- Em, <- Z.mul_assoc, <- Z.pow_add_r by (unfold emin64; lia).
  f_equal. f_equal. unfold emin64. lia.
Qed.

Lemma shiftl_back (p m : positive) (d : Z) :
  1 <= d <= 53 -> Z.pos m = Z.pos p * 2 ^ (53 - d) ->
  Z.shiftl (Z.pos m) (d - 53) = Z.pos p.
Proof.
  intros Hd Em.
  replace (d - 53) with (- (53 - d)) by lia.
  change (Z.shiftl (Z.pos m) (- (53 - d))) with (Z.shiftr (Z.pos m) (53 - d)).
  rewrite Z.shiftr_div_pow2 by lia. rewrite Em.
  apply Z.div_mul. apply Z.pow_nonzero; lia.
Qed.

(** [int(float(z)) = z] for [|z| < 2^53]. *)
Lemma float_to_int_of_int (z : Z) :
  Z.abs z < 2 ^ 53 -> float_to_int (float_of_int z) = Returns z.
Proof.
  intros Hz. unfold float_to_int, float_of_int.
  rewrite binary_normalize_int by (unfold emin64; lia).
  destruct z as [|p|p].
  - reflexivity.
  - assert (Hp : Z.pos p < 2 ^ 53) by lia.
    destruct (round_int_small false p Hp) as (m & Em & Hv & Er).
    assert (Hq : 0 < 2 ^ (0 - emin64)) by (apply Z.pow_pos_nonneg; unfold emin64; lia).
    unfold round_signed.
    destruct (Z.pos p * 2 ^ (0 - emin64)) as [|q|q] eqn:E; try lia.
    rewrite Er, Prim2SF_SF2Prim by exact Hv.
    f_equal. apply shiftl_back with (d := Z.pos (digits2_pos p)); [|exact Em].
    pose proof (digits2_le_53 p Hp). lia.
  - assert (Hp : Z.pos p < 2 ^ 53) by lia.
    destruct (round_int_small true p Hp) as (m & Em & Hv & Er).
    assert (Hq : 0 < 2 ^ (0 - emin64)) by (apply Z.pow_pos_nonneg; unfold emin64; lia).
    unfold round_signed.
    destruct (Z.neg p * 2 ^ (0 - emin64)) as [|q|q] eqn:E; try lia.
    replace (Z.pos q) with (Z.pos p * 2 ^ (0 - emin64)) by lia.
    rewrite Er, Prim2SF_SF2Prim by exact Hv.
    f_equal.
    rewrite (shiftl_back p m (Z.pos (digits2_pos p))); [reflexivity| |exact Em].
    pose proof (digits2_le_53 p Hp). lia.
Qed.

End Binary64Integers.

Set Implicit Arguments.

(** ** Binary64: no NaN comes up in a run *)

Unset Implicit Arguments.

Section Binary64Finite.

Local Open Scope Z_scope.

(** The float of a whole number below [2^53] that is not zero is finite. *)
Lemma Prim2SF_of_int_small (z : Z) :
  Z.abs z < 2 ^ 53 -> z <> 0 ->
  exists (m : positive) (e : Z),
    Prim2SF (float_of_int z) = S754_finite (z <? 0) m e.
Proof.
  intros Hz Hnz. unfold float_of_int.
  rewrite binary_normalize_int by (unfold emin64; lia).
  assert (Hq : 0 < 2 ^ (0 - emin64))
    by (apply Z.pow_pos_nonneg; unfold emin64; lia).
  destruct z as [|p|p]; [contradiction| |].
  - destruct (round_int_small false p ltac:(lia)) as (m & Em & Hv & Er).
    unfold round_signed.
    destruct (Z.pos p * 2 ^ (0 - emin64)) as [|q|q] eqn:E; try lia.
    rewrite Er, Prim2SF_SF2Prim by exact Hv. eexists _, _. reflexivity.
  - destruct (round_int_small true p ltac:(lia)) as (m & Em & Hv & Er).
    unfold round_signed.
    destruct (Z.neg p * 2 ^ (0 - emin64)) as [|q|q] eqn:E; try lia.
    replace (Z.pos q) with (Z.pos p * 2 ^ (0 - emin64)) by lia.
    rewrite Er, Prim2SF_SF2Prim by exact Hv. eexists _, _. reflexivity.
Qed.

Lemma of_int_real (z : Z) :
  Z.abs z < 2 ^ 53 -> real (Prim2SF (float_of_int z)).
Proof.
  intros Hz. destruct (Z.eq_dec z 0) as [->|Hnz].
  - vm_compute. exact I.
  - destruct (Prim2SF_of_int_small z Hz Hnz) as (m & e & ->). exact I.
Qed.

(** Rounding never makes a NaN of a mantissa that is not negative. *)
Lemma shr_1_m_nonneg (mrs : shr_record) :
  0 <= shr_m mrs -> 0 <= shr_m (shr_1 mrs).
Proof.
  destruct mrs as [m r s]. cbn [shr_m]. intros Hm.
  rewrite shr_1_nonneg by exact Hm. cbn [shr_m].
  rewrite Z.div2_div. apply Z.div_pos; lia.
Qed.

Lemma iter_shr_nonneg (k : nat) (mrs : shr_record) :
  0 <= shr_m mrs -> 0 <= shr_m (Nat.iter k shr_1 mrs).
Proof.
  intros Hm. induction k as [|k IH]; simpl; [exact Hm|].
  apply shr_1_m_nonneg, IH.
Qed.

Lemma shr_fexp_nonneg (m e : Z) (l : location) :
  0 <= m -> 0 <= shr_m (fst (shr_fexp prec emax m e l)).
Proof.
  intros Hm. unfold shr_fexp, shr.
  assert (H0 : 0 <= shr_m (shr_record_of_loc m l))
    by (destruct l as [|[]]; exact Hm).
  destruct (fexp prec emax (Zdigits2 m + e) - e) as [|p|p]; cbn [fst];
    try exact H0.
  rewrite iter_pos_nat. apply iter_shr_nonneg, H0.
Qed.

Lemma round_nearest_even_nonneg (m : Z) (l : location) :
  0 <= m -> 0 <= round_nearest_even m l.
Proof.
  intros Hm. destruct l as [|[]]; cbn [round_nearest_even];
    try destruct (Z.even m); lia.
Qed.

Lemma binary_round_aux_not_nan (s : bool) (m e : Z) (l : location) :
  0 <= m -> binary_round_aux prec emax s m e l <> S754_nan.
Proof.
  intros Hm. unfold binary_round_aux.
  pose proof (shr_fexp_nonneg m e l Hm) as H1.
  destruct (shr_fexp prec emax m e l) as [mrs' e']. cbn [fst] in H1.
  pose proof (shr_fexp_nonneg
                (round_nearest_even (shr_m mrs') (loc_of_shr_record mrs'))
                e' loc_Exact
                (round_nearest_even_nonneg _ _ H1)) as H2.
  destruct (shr_fexp prec emax _ e' loc_Exact) as [mrs'' e''].
  cbn [fst] in H2.
  destruct (shr_m mrs'') as [|q|q]; [discriminate| |lia].
  destruct (e'' <=? emax - prec); discriminate.
Qed.

(** A zero or finite float divided by a finite float is not NaN. *)
Lemma SFdiv_not_nan (x : spec_float) (sy : bool) (my : positive) (ey : Z) :
  real x -> SFdiv prec emax x (S754_finite sy my ey) <> S754_nan.
Proof.
  destruct x as [sx|sx| |sx mx ex]; try contradiction; intros _.
  - discriminate.
  - cbn [SFdiv]. unfold SFdiv_core_binary.
    set (s := ex - ey - _).
    set (m' := match s with 0 => Z.pos mx | Z.pos _ => Z.shiftl (Z.pos mx) s
                       | Z.neg _ => 0 end).
    assert (Hm' : 0 <= m').
    { unfold m'. destruct s; try lia. apply Z.shiftl_nonneg. lia. }
    pose proof (Z.div_pos m' (Z.pos my) Hm' ltac:(lia)) as Hq.
    unfold Z.div in Hq.
    destruct (Z.div_eucl m' (Z.pos my)) as [q r].
    apply binary_round_aux_not_nan, Hq.
Qed.

Lemma float_div_not_nan (x y : float) :
  real (Prim2SF x) ->
  (exists (s : bool) (m : positive) (e : Z), Prim2SF y = S754_finite s m e) ->
  not_nan (PrimFloat.div x y).
Proof.
  intros Rx (s & m & e & Ey). apply not_nan_Prim2SF.
  rewrite div_spec, Ey. apply SFdiv_not_nan, Rx.
Qed.

(** The product by [1.0] is exact. *)
Lemma SFmul_one (x : spec_float) :
  valid_binary x = true ->
  SFmul prec emax x (S754_finite false 4503599627370496 (-52)) = x.
Proof.
  intros Hv. destruct x as [s|s| |s m e]; cbn [SFmul];
    try (destruct s; reflexivity); try reflexivity.
  destruct (valid_finite s m e Hv) as [Hc He].
  destruct (valid_finite_bounds s m e Hv) as [Hb Hm].
  assert (Hd : Z.pos (digits2_pos (m * 4503599627370496))
               = Z.pos (digits2_pos m) + 52).
  { change (Z.pos (digits2_pos (m * 4503599627370496)))
      with (Zdigits2 (Z.pos (m * 4503599627370496))).
    rewrite Pos2Z.inj_mul. change (Z.pos 4503599627370496) with (2 ^ 52).
    apply Zdigits2_mul_pow2. lia. }
  rewrite round_aux_aligned;
    rewrite Hd;
    replace (Z.pos (digits2_pos m) + 52 + (e + -52))
      with (Z.pos (digits2_pos m) + e) by lia;
    rewrite Hc; [|lia].
  replace (e - (e + -52)) with 52 by lia.
  rewrite Pos2Z.inj_mul. change (Z.pos 4503599627370496) with (2 ^ 52).
  rewrite rne_exact by lia.
  unfold decode.
  destruct (Z.eqb_spec (Z.pos m) (2 ^ 53)); [lia|].
  destruct (Z.leb_spec e 971); [|lia].
  destruct s; reflexivity.
Qed.

Lemma float_mul_one (x : float) : PrimFloat.mul x (float_of_int 1) = x.
Proof.
  apply Prim2SF_inj. rewrite mul_spec.
  change (Prim2SF (float_of_int 1))
    with (S754_finite false 4503599627370496 (-52)).
  apply SFmul_one, Prim2SF_valid.
Qed.

(** Adding the same float, which is not NaN, again and again to a zero or
    finite float never gives NaN. *)
Lemma float_walk_not_nan (c x : float) (k : nat) :
  not_nan c -> real (Prim2SF x) ->
  not_nan (Nat.iter k (fun y => PrimFloat.add y c) x).
Proof.
  intros Nc Rx.
  destruct (Prim2SF c) as [sc|sc| |sc mc ec] eqn:Ec.
  - assert (Rc : real (Prim2SF c)) by (rewrite Ec; exact I).
    induction k as [|k IH]; cbn [Nat.iter nat_rect].
    + apply not_nan_Prim2SF. intros E. rewrite E in Rx. exact Rx.
    + apply float_add_not_nan; assumption.
  - assert (Q : forall j,
               real (Prim2SF (Nat.iter j (fun y => PrimFloat.add y c) x)) \/
               Prim2SF (Nat.iter j (fun y => PrimFloat.add y c) x)
               = S754_infinity sc).
    { induction j as [|j IH]; [left; exact Rx|].
      change (Nat.iter (S j) (fun y => PrimFloat.add y c) x)
        with (PrimFloat.add (Nat.iter j (fun y => PrimFloat.add y c) x) c).
      set (y := Nat.iter j (fun y => PrimFloat.add y c) x) in *.
      right. rewrite add_spec, Ec.
      destruct IH as [R|E].
      - destruct (Prim2SF y) as [s|s| |s m e]; try contradiction; reflexivity.
      - rewrite E. cbn [SFadd]. destruct sc; reflexivity. }
    apply not_nan_Prim2SF. intros E.
    destruct (Q k) as [R|E']; rewrite E in *; [exact R|discriminate].
  - exfalso. apply (Prim2SF_not_nan c Nc), Ec.
  - assert (Rc : real (Prim2SF c)) by (rewrite Ec; exact I).
    induction k as [|k IH]; cbn [Nat.iter nat_rect].
    + apply not_nan_Prim2SF. intros E. rewrite E in Rx. exact Rx.
    + apply float_add_not_nan; assumption.
Qed.

End Binary64Finite.

Set Implicit Arguments.

(** ** Binary64: the videos [main] builds *)

Section Binary64Videos.

Lemma float_fast_forward1 (v : @Video float) :
  views (fast_forward1 v) = PrimFloat.add (views v) (avg_views v).
Proof.
  unfold fast_forward1, fast_forward. cbn [views mul add of_int float_Number].
  now rewrite float_mul_one.
Qed.

Lemma float_views_after (k : nat) (v : @Video float) :
  views (after k v)
  = Nat.iter k (fun y => PrimFloat.add y (avg_views v)) (views v).
Proof.
  induction k as [|k IH]; [reflexivity|].
  rewrite after_succ, float_fast_forward1, avg_views_after, IH. reflexivity.
Qed.

Lemma float_views_not_nan (k : nat) (v : @Video float) :
  real (Prim2SF (views v)) -> not_nan (avg_views v) ->
  not_nan (views (after k v)).
Proof.
  intros Rv Ng. rewrite float_views_after.
  apply float_walk_not_nan; assumption.
Qed.

Lemma Video_init_finite (TODAY : Z) (t : string) (m d : Z) (v : @Video float) :
  Video_init TODAY t m d = Ok v ->
  (Z.abs m < 2 ^ 53)%Z -> (Z.abs (TODAY - d) < 2 ^ 53)%Z ->
  real (Prim2SF (views v)) /\ not_nan (avg_views v).
Proof.
  intros Hv Hm Hd. apply Video_init_inv in Hv. destruct Hv as [Hnz ->].
  cbn [views avg_views of_int div float_Number]. split.
  - apply of_int_real, Hm.
  - apply float_div_not_nan; [apply of_int_real, Hm|].
    destruct (Prim2SF_of_int_small (TODAY - d) Hd Hnz) as (p & e & E).
    eexists _, _, _. exact E.
Qed.

End Binary64Videos.

(** ** Binary64: the arithmetic of whole numbers below [2^53] *)

Unset Implicit Arguments.

Section Binary64WholeNumbers.

Local Open Scope Z_scope.

(** The float of a whole number below [2^53] is that number. *)
Lemma Prim2SF_of_int_exact (z : Z) :
  Z.abs z < 2 ^ 53 ->
  real (Prim2SF (float_of_int z)) /\
  valid_binary (Prim2SF (float_of_int z)) = true /\
  ival (Prim2SF (float_of_int z)) = z * 2 ^ (0 - emin64).
Proof.
  intros Hz. split; [apply of_int_real, Hz|].
  split; [apply Prim2SF_valid|].
  unfold float_of_int.
  rewrite binary_normalize_int by (unfold emin64; lia).
  assert (Hq : 0 < 2 ^ (0 - emin64))
    by (apply Z.pow_pos_nonneg; unfold emin64; lia).
  destruct z as [|p|p].
  - reflexivity.
  - assert (Hp : Z.pos p < 2 ^ 53) by lia.
    pose proof (digits2_le_53 p Hp) as Hd.
    destruct (round_int_small false p Hp) as (m & Em & Hv & Er).
    unfold round_signed.
    destruct (Z.pos p * 2 ^ (0 - emin64)) as [|q|q] eqn:E; try lia.
    rewrite Er, Prim2SF_SF2Prim by exact Hv.
    cbn [ival]. rewrite Em, <- E, <- Z.mul_assoc, <- Z.pow_add_r
      by (unfold emin64; lia).
    f_equal. f_equal. unfold emin64. lia.
  - assert (Hp : Z.pos p < 2 ^ 53) by lia.
    pose proof (digits2_le_53 p Hp) as Hd.
    destruct (round_int_small true p Hp) as (m & Em & Hv & Er).
    unfold round_signed.
    destruct (Z.neg p * 2 ^ (0 - emin64)) as [|q|q] eqn:E; try lia.
    replace (Z.pos q) with (Z.pos p * 2 ^ (0 - emin64)) by lia.
    rewrite Er, Prim2SF_SF2Prim by exact Hv.
    cbn [ival]. rewrite Em.
    replace (- (Z.pos p * 2 ^ (53 - Z.pos (digits2_pos p))))
      with (Z.neg p * 2 ^ (53 - Z.pos (digits2_pos p))) by lia.
    rewrite <- Z.mul_assoc, <- Z.pow_add_r by (unfold emin64; lia).
    rewrite <- E. f_equal. f_equal. unfold emin64. lia.
Qed.

(** The sum of the floats of two whole numbers is the float of their
    sum. *)
Lemma SFadd_ival (x y : spec_float) :
  real x -> real y ->
  valid_binary x = true -> valid_binary y = true ->
  (ival x = 0 -> x = S754_zero false) ->
  (ival y = 0 -> y = S754_zero false) ->
  SFadd prec emax x y = round_signed (ival x + ival y).
Proof.
  intros Rx Ry Vx Vy Zx Zy.
  destruct x as [sx|sx| |sx mx ex], y as [sy|sy| |sy my ey];
    try contradiction.
  - rewrite (Zx eq_refl), (Zy eq_refl). reflexivity.
  - rewrite (Zx eq_refl). cbn [SFadd]. change (ival (S754_zero false)) with 0.
    rewrite Z.add_0_l.
    destruct (valid_finite_bounds sy my ey Vy) as [Hb _].
    assert (Hq : 0 < 2 ^ (ey - emin64)) by (apply Z.pow_pos_nonneg; lia).
    unfold ival, round_signed. destruct sy.
    + destruct (- Z.pos my * 2 ^ (ey - emin64)) as [|q|q] eqn:E; try lia.
      replace (Z.pos q) with (Z.pos my * 2 ^ (ey - emin64)) by lia.
      now rewrite round_int_valid.
    + destruct (Z.pos my * 2 ^ (ey - emin64)) as [|q|q] eqn:E; try lia.
      rewrite <- E. now rewrite round_int_valid.
  - rewrite (Zy eq_refl). cbn [SFadd]. change (ival (S754_zero false)) with 0.
    rewrite Z.add_0_r.
    destruct (valid_finite_bounds sx mx ex Vx) as [Hb _].
    assert (Hq : 0 < 2 ^ (ex - emin64)) by (apply Z.pow_pos_nonneg; lia).
    unfold ival, round_signed. destruct sx.
    + destruct (- Z.pos mx * 2 ^ (ex - emin64)) as [|q|q] eqn:E; try lia.
      replace (Z.pos q) with (Z.pos mx * 2 ^ (ex - emin64)) by lia.
      now rewrite round_int_valid.
    + destruct (Z.pos mx * 2 ^ (ex - emin64)) as [|q|q] eqn:E; try lia.
      rewrite <- E. now rewrite round_int_valid.
  - apply SFadd_finite; assumption.
Qed.

Lemma of_int_zero_only (z : Z) :
  Z.abs z < 2 ^ 53 ->
  ival (Prim2SF (float_of_int z)) = 0 ->
  Prim2SF (float_of_int z) = S754_zero false.
Proof.
  intros Hz E. destruct (Prim2SF_of_int_exact z Hz) as (_ & _ & Ei).
  rewrite Ei in E.
  assert (Hq : 0 < 2 ^ (0 - emin64))
    by (apply Z.pow_pos_nonneg; unfold emin64; lia).
  assert (z = 0) by nia. subst z. reflexivity.
Qed.

Lemma float_add_of_int (a b : Z) :
  Z.abs a < 2 ^ 53 -> Z.abs b < 2 ^ 53 ->
  PrimFloat.add (float_of_int a) (float_of_int b) = float_of_int (a + b).
Proof.
  intros Ha Hb.
  destruct (Prim2SF_of_int_exact a Ha) as (Ra & Va & Ia).
  destruct (Prim2SF_of_int_exact b Hb) as (Rb & Vb & Ib).
  rewrite <- (SF2Prim_Prim2SF (PrimFloat.add _ _)).
  rewrite add_spec.
  rewrite SFadd_ival by (try assumption; apply of_int_zero_only; assumption).
  rewrite Ia, Ib, <- Z.mul_add_distr_r.
  unfold float_of_int.
  now rewrite binary_normalize_int by (unfold emin64; lia).
Qed.

(** The floats of whole numbers are ordered as the numbers. *)
Lemma float_ltb_of_int (a b : Z) :
  Z.abs a < 2 ^ 53 -> Z.abs b < 2 ^ 53 ->
  PrimFloat.ltb (float_of_int a) (float_of_int b) = (a <? b).
Proof.
  intros Ha Hb.
  destruct (Prim2SF_of_int_exact a Ha) as (Ra & Va & Ia).
  destruct (Prim2SF_of_int_exact b Hb) as (Rb & Vb & Ib).
  assert (Hq : 0 < 2 ^ (0 - emin64))
    by (apply Z.pow_pos_nonneg; unfold emin64; lia).
  rewrite ltb_spec, SFltb_key by (apply real_not_nan; assumption).
  destruct (Z.ltb_spec a b) as [Hlt|Hge].
  - destruct (key_ltb _ _) eqn:E; [reflexivity|].
    pose proof (key_le_ival _ _ Ra Rb Va Vb E) as Hle.
    rewrite Ia, Ib in Hle. nia.
  - pose proof (round_signed_mono (ival (Prim2SF (float_of_int b)))
                                  (ival (Prim2SF (float_of_int a)))
                                  ltac:(rewrite Ia, Ib; nia)) as Hm.
    rewrite !round_signed_valid in Hm by assumption. exact Hm.
Qed.

End Binary64WholeNumbers.

Set Implicit Arguments.

(** ** Binary64: the product of two whole numbers *)

Unset Implicit Arguments.

Section Binary64Products.

Local Open Scope Z_scope.

Lemma round_signed_pos (N : Z) :
  0 < N -> round_signed N = round_int false N.
Proof. destruct N; intros H; try lia. reflexivity. Qed.

Lemma round_signed_neg (N : Z) :
  0 < N -> round_signed (- N) = round_int true N.
Proof. destruct N; intros H; try lia. reflexivity. Qed.

(** Rounding a mantissa of at least 53 digits that stands for a whole
    number of units. *)
Lemma binary_round_aux_int (s : bool) (M e : Z) :
  0 < M -> emin64 <= e ->
  e <= fexp prec emax (Zdigits2 M + e) ->
  binary_round_aux prec emax s M e loc_Exact
  = round_int s (M * 2 ^ (e - emin64)).
Proof.
  intros HM He Hc. destruct M as [|m|m]; try lia.
  change (Zdigits2 (Z.pos m)) with (Z.pos (digits2_pos m)) in Hc.
  rewrite round_aux_aligned by exact Hc.
  unfold round_int, cexp. rewrite Zdigits2_mul_pow2 by lia.
  replace (Z.pos (digits2_pos m) + (e - emin64) + emin64)
    with (Z.pos (digits2_pos m) + e) by lia.
  set (c := fexp prec emax _) in *.
  replace (c - emin64) with ((c - e) + (e - emin64)) by lia.
  rewrite rne_scale by lia. reflexivity.
Qed.

(** The float of a whole number below [2^53] that is not zero: its
    sign, its 53 digits and its exponent. *)
Lemma of_int_finite (z : Z) :
  Z.abs z < 2 ^ 53 -> z <> 0 ->
  exists (m : positive) (d : Z),
    1 <= d <= 53 /\
    2 ^ (d - 1) <= Z.abs z < 2 ^ d /\
    Z.pos m = Z.abs z * 2 ^ (53 - d) /\
    2 ^ 52 <= Z.pos m < 2 ^ 53 /\
    Z.pos (digits2_pos m) = 53 /\
    valid_binary (S754_finite (z <? 0) m (d - 53)) = true /\
    Prim2SF (float_of_int z) = S754_finite (z <? 0) m (d - 53).
Proof.
  intros Hz Hnz. unfold float_of_int.
  rewrite binary_normalize_int by (unfold emin64; lia).
  assert (Hq : 0 < 2 ^ (0 - emin64))
    by (apply Z.pow_pos_nonneg; unfold emin64; lia).
  assert (G : forall (s : bool) (p : positive),
             Z.pos p < 2 ^ 53 ->
             exists (m : positive) (d : Z),
               1 <= d <= 53 /\
               2 ^ (d - 1) <= Z.pos p < 2 ^ d /\
               Z.pos m = Z.pos p * 2 ^ (53 - d) /\
               2 ^ 52 <= Z.pos m < 2 ^ 53 /\
               Z.pos (digits2_pos m) = 53 /\
               valid_binary (S754_finite s m (d - 53)) = true /\
               round_int s (Z.pos p * 2 ^ (0 - emin64))
               = S754_finite s m (d - 53)).
  { intros s p Hp.
    destruct (round_int_small s p Hp) as (m & Em & Hv & Er).
    pose proof (digits2_le_53 p Hp) as Hd.
    pose proof (digits2_lower p) as Hlo. pose proof (digits2_upper p) as Hup.
    exists m, (Z.pos (digits2_pos p)).
    destruct (valid_finite s m _ Hv) as [Hc _].
    rewrite fexp_eq in Hc. unfold emin64 in Hc.
    assert (H53 : Z.pos (digits2_pos m) = 53) by lia.
    pose proof (digits2_lower m) as Hlm. pose proof (digits2_upper m) as Hum.
    rewrite H53 in Hlm, Hum.
    repeat split; try assumption; try lia. }
  destruct z as [|p|p]; [contradiction| |].
  - destruct (G false p ltac:(lia)) as (m & d & H1 & H2 & H3 & H4 & H5 & Hv & Er).
    exists m, d. rewrite round_signed_pos by lia. rewrite Er.
    rewrite Prim2SF_SF2Prim by exact Hv.
    repeat split; try assumption; try lia.
  - destruct (G true p ltac:(lia)) as (m & d & H1 & H2 & H3 & H4 & H5 & Hv & Er).
    exists m, d.
    replace (Z.neg p * 2 ^ (0 - emin64)) with (- (Z.pos p * 2 ^ (0 - emin64)))
      by lia.
    rewrite round_signed_neg by lia. rewrite Er.
    rewrite Prim2SF_SF2Prim by exact Hv.
    change (Z.abs (Z.neg p)) with (Z.pos p).
    repeat split; try assumption; try lia.
Qed.

Lemma of_int_round (z : Z) :
  float_of_int z = SF2Prim (round_signed (z * 2 ^ (0 - emin64))).
Proof.
  unfold float_of_int.
  now rewrite binary_normalize_int by (unfold emin64; lia).
Qed.

Lemma round_signed_sign (s : bool) (N : Z) (z : Z) :
  0 < N -> (if s then - N else N) = z ->
  round_int s N = round_signed z.
Proof.
  intros HN <-. destruct s.
  - now rewrite round_signed_neg.
  - now rewrite round_signed_pos.
Qed.

Lemma pow2_lt_exp (a b : Z) : 0 <= b -> 2 ^ a < 2 ^ b -> a < b.
Proof.
  intros Hb H. destruct (Z.lt_ge_cases a b) as [|Hge]; [assumption|].
  pose proof (Z.pow_le_mono_r 2 b a ltac:(lia) Hge). lia.
Qed.

(** The product of the floats of two whole numbers, neither zero, is the
    float of their product, when that is below [2^53]. *)
Lemma float_mul_of_int (a b : Z) :
  a <> 0 -> b <> 0 -> Z.abs a * Z.abs b < 2 ^ 53 ->
  PrimFloat.mul (float_of_int a) (float_of_int b) = float_of_int (a * b).
Proof.
  intros Ha Hb Hab.
  assert (Ba : Z.abs a < 2 ^ 53) by (clear - Hb Hab; nia).
  assert (Bb : Z.abs b < 2 ^ 53) by (clear - Ha Hab; nia).
  destruct (of_int_finite a Ba Ha)
    as (ma & da & Hda & Hra & Ema & Hma & _ & _ & Ea).
  destruct (of_int_finite b Bb Hb)
    as (mb & db & Hdb & Hrb & Emb & Hmb & _ & _ & Eb).
  rewrite <- (SF2Prim_Prim2SF (PrimFloat.mul _ _)), mul_spec, Ea, Eb.
  rewrite of_int_round. f_equal. unfold SF64mul. cbn [SFmul].
  assert (Hp : 2 ^ 104 <= Z.pos (ma * mb)).
  { rewrite Pos2Z.inj_mul. change (2 ^ 104) with (2 ^ 52 * 2 ^ 52).
    clear - Hma Hmb. nia. }
  assert (Hd : 104 < Zdigits2 (Z.pos (ma * mb))).
  { pose proof (digits2_upper (ma * mb)) as Hu.
    change (Zdigits2 (Z.pos (ma * mb))) with (Z.pos (digits2_pos (ma * mb))).
    apply pow2_lt_exp; lia. }
  rewrite binary_round_aux_int;
    [|lia|unfold emin64; lia|rewrite fexp_eq; unfold emin64; lia].
  apply round_signed_sign.
  - apply Z.mul_pos_pos; [lia|apply Z.pow_pos_nonneg; unfold emin64; lia].
  - rewrite Pos2Z.inj_mul, Ema, Emb.
    assert (E : Z.abs a * 2 ^ (53 - da) * (Z.abs b * 2 ^ (53 - db))
                * 2 ^ (da - 53 + (db - 53) - emin64)
                = Z.abs a * Z.abs b * 2 ^ (0 - emin64)).
    { replace (0 - emin64)
        with ((53 - da) + ((53 - db) + (da - 53 + (db - 53) - emin64)))
        by lia.
      rewrite !Z.pow_add_r by (unfold emin64; lia). ring. }
    rewrite E. clear - Ha Hb.
    destruct a, b; try contradiction; cbn [Z.ltb Z.compare xorb Z.abs]; lia.
Qed.

(** A product with a zero is a zero, of either sign. *)
Lemma float_mul_zero (a b : Z) :
  Z.abs a < 2 ^ 53 -> Z.abs b < 2 ^ 53 -> a * b = 0 ->
  exists s : bool,
    Prim2SF (PrimFloat.mul (float_of_int a) (float_of_int b)) = S754_zero s.
Proof.
  intros Ba Bb E. rewrite mul_spec.
  destruct (Z.eq_dec a 0) as [->|Ha], (Z.eq_dec b 0) as [->|Hb].
  - exists false. reflexivity.
  - destruct (of_int_finite b Bb Hb) as (mb & db & _ & _ & _ & _ & _ & _ & ->).
    eexists. reflexivity.
  - destruct (of_int_finite a Ba Ha) as (ma & da & _ & _ & _ & _ & _ & _ & ->).
    eexists. reflexivity.
  - exfalso. clear - Ha Hb E. nia.
Qed.

(** Adding a zero of either sign to the float of a whole number. *)
Lemma float_add_zero (m : Z) (z : float) (s : bool) :
  Z.abs m < 2 ^ 53 -> Prim2SF z = S754_zero s ->
  PrimFloat.add (float_of_int m) z = float_of_int m.
Proof.
  intros Bm Ez. apply Prim2SF_inj. rewrite add_spec, Ez.
  destruct (Z.eq_dec m 0) as [->|Hm].
  - destruct s; reflexivity.
  - destruct (of_int_finite m Bm Hm) as (p & d & _ & _ & _ & _ & _ & _ & ->).
    reflexivity.
Qed.

(** [m + g * n] on whole numbers. *)
Lemma float_add_mul_of_int (m g n : Z) :
  Z.abs m < 2 ^ 53 -> Z.abs g < 2 ^ 53 -> Z.abs n < 2 ^ 53 ->
  Z.abs g * Z.abs n < 2 ^ 53 ->
  PrimFloat.add (float_of_int m)
                (PrimFloat.mul (float_of_int g) (float_of_int n))
  = float_of_int (m + g * n).
Proof.
  intros Bm Bg Bn B.
  destruct (Z.eq_dec (g * n) 0) as [E|Hgn].
  - destruct (float_mul_zero g n Bg Bn E) as [s Es].
    rewrite (float_add_zero m _ s Bm Es).
    rewrite E, Z.add_0_r. reflexivity.
  - assert (Hg : g <> 0) by (intros ->; apply Hgn; reflexivity).
    assert (Hn : n <> 0) by (intros ->; apply Hgn; lia).
    rewrite float_mul_of_int by assumption.
    apply float_add_of_int; [exact Bm|].
    rewrite Z.abs_mul. exact B.
Qed.

End Binary64Products.

Set Implicit Arguments.

(** ** Binary64: the quotient of two whole numbers *)

Unset Implicit Arguments.

Section Binary64Quotients.

Local Open Scope Z_scope.

Lemma div_eucl_div_mod (a b : Z) : Z.div_eucl a b = (a / b, a mod b).
Proof. unfold Z.div, Z.modulo. destruct (Z.div_eucl a b). reflexivity. Qed.


(** What [SFdiv] hands to the rounding for two floats of 53 digits whose
    exponents are those of whole numbers. *)
Lemma SFdiv_core_53 (mx my : positive) (ex ey : Z) :
  Z.pos (digits2_pos mx) = 53 -> Z.pos (digits2_pos my) = 53 ->
  -52 <= ex <= 0 -> -52 <= ey <= 0 ->
  SFdiv_core_binary prec emax (Z.pos mx) ex (Z.pos my) ey
  = ((Z.pos mx * 2 ^ 53) / Z.pos my, ex - ey - 53,
     new_location (Z.pos my) ((Z.pos mx * 2 ^ 53) mod Z.pos my)).
Proof.
  intros Dx Dy Hex Hey. unfold SFdiv_core_binary.
  change (Zdigits2 (Z.pos mx)) with (Z.pos (digits2_pos mx)).
  change (Zdigits2 (Z.pos my)) with (Z.pos (digits2_pos my)).
  rewrite Dx, Dy, fexp_eq.
  replace (Z.min (Z.max (53 + ex - (53 + ey) - 53) emin64) (ex - ey))
    with (ex - ey - 53) by (unfold emin64; lia).
  replace (ex - ey - (ex - ey - 53)) with 53 by lia.
  cbv iota. rewrite Z.shiftl_mul_pow2 by lia.
  rewrite div_eucl_div_mod. reflexivity.
Qed.




End Binary64Quotients.

Set Implicit Arguments.

(** ** Binary64: the sign of a quotient *)

Unset Implicit Arguments.

Section Binary64Signs.

Local Open Scope Z_scope.

Lemma shr_m_iter (k : nat) (mrs : shr_record) :
  0 <= shr_m mrs ->
  shr_m (Nat.iter k shr_1 mrs) = shr_m mrs / 2 ^ Z.of_nat k.
Proof.
  intros Hm. induction k as [|k IH].
  - cbn [Nat.iter nat_rect]. change (2 ^ Z.of_nat 0) with 1.
    now rewrite Z.div_1_r.
  - change (Nat.iter (S k) shr_1 mrs) with (shr_1 (Nat.iter k shr_1 mrs)).
    pose proof (iter_shr_nonneg k mrs Hm) as Hk.
    destruct (Nat.iter k shr_1 mrs) as [m r s] eqn:E.
    cbn [shr_m] in IH, Hk. rewrite shr_1_nonneg by exact Hk. cbn [shr_m].
    rewrite Z.div2_div, IH, Nat2Z.inj_succ, Z.pow_succ_r by lia.
    rewrite Z.div_div by (try apply Z.pow_pos_nonneg; lia).
    f_equal. lia.
Qed.

(** Shifting a mantissa of at least 53 digits, wherever the rest stands,
    leaves 53 digits. *)
Lemma shr_fexp_normal (x e : Z) (l : location) :
  0 < x -> 53 <= Zdigits2 x -> emin64 <= e ->
  exists mrs : shr_record,
    shr_fexp prec emax x e l = (mrs, e + (Zdigits2 x - 53)) /\
    2 ^ 52 <= shr_m mrs < 2 ^ 53.
Proof.
  intros Hx Hd He. unfold shr_fexp, shr. rewrite fexp_eq.
  replace (Z.max (Zdigits2 x + e - 53) emin64 - e) with (Zdigits2 x - 53)
    by lia.
  assert (H0 : shr_m (shr_record_of_loc x l) = x)
    by (destruct l as [|[]]; reflexivity).
  pose proof (Zdigits2_pos_bounds x Hx) as [Hlo Hhi].
  destruct (Zdigits2 x - 53) as [|p|p] eqn:Ek; try lia.
  - eexists. split; [rewrite Z.add_0_r; reflexivity|].
    rewrite H0. replace (Zdigits2 x - 1) with 52 in Hlo by lia.
    replace (Zdigits2 x) with 53 in Hhi by lia. lia.
  - eexists. split; [reflexivity|].
    rewrite iter_pos_nat, shr_m_iter by (rewrite H0; lia).
    rewrite H0, positive_nat_Z.
    assert (Hp : 0 < 2 ^ Z.pos p) by (apply Z.pow_pos_nonneg; lia).
    split.
    + apply Z.div_le_lower_bound; [exact Hp|].
      rewrite Z.mul_comm, <- Z.pow_add_r by lia.
      replace (52 + Z.pos p) with (Zdigits2 x - 1) by lia. exact Hlo.
    + apply Z.div_lt_upper_bound; [exact Hp|].
      rewrite <- Z.pow_add_r by lia.
      replace (Z.pos p + 53) with (Zdigits2 x) by lia. exact Hhi.
Qed.

Lemma round_nearest_even_ge (m : Z) (l : location) :
  m <= round_nearest_even m l <= m + 1.
Proof.
  destruct l as [|[]]; cbn [round_nearest_even];
    try destruct (Z.even m); lia.
Qed.

Lemma Zdigits2_ge_53 (x : Z) : 2 ^ 52 <= x -> 53 <= Zdigits2 x.
Proof.
  intros Hx.
  change 53 with (Zdigits2 (2 ^ 52)). apply Zdigits2_mono. lia.
Qed.

Lemma Zdigits2_le (x d : Z) : 0 < x < 2 ^ d -> 0 <= d -> Zdigits2 x <= d.
Proof.
  intros Hx Hd. pose proof (Zdigits2_pos_bounds x ltac:(lia)) as [Hlo _].
  assert (H : 2 ^ (Zdigits2 x - 1) < 2 ^ d) by lia.
  apply pow2_lt_exp in H; lia.
Qed.

(** Rounding a mantissa of at least 53 digits: the result has the sign
    it is given and an exponent at most one above that of the first 53
    digits; it is infinite when that exponent is too large, and never a
    zero. *)
Lemma binary_round_aux_shape (s : bool) (x e : Z) (l : location) :
  0 < x -> 53 <= Zdigits2 x -> emin64 <= e ->
  exists (m : positive) (e' : Z),
    e' <= e + (Zdigits2 x - 53) + 1 /\
    binary_round_aux prec emax s x e l
    = if e' <=? 971 then S754_finite s m e' else S754_infinity s.
Proof.
  intros Hx Hd He. unfold binary_round_aux.
  destruct (shr_fexp_normal x e l Hx Hd He) as (mrs' & -> & H1).
  pose proof (round_nearest_even_ge (shr_m mrs') (loc_of_shr_record mrs'))
    as H2.
  set (x2 := round_nearest_even (shr_m mrs') (loc_of_shr_record mrs')) in *.
  destruct (shr_fexp_normal x2 (e + (Zdigits2 x - 53)) loc_Exact
              ltac:(lia) (Zdigits2_ge_53 x2 ltac:(lia)) ltac:(lia))
    as (mrs'' & -> & H3).
  assert (H4 : Zdigits2 x2 <= 54).
  { apply Zdigits2_le; [|lia]. change (2 ^ 54) with (2 * 2 ^ 53). lia. }
  destruct (shr_m mrs'') as [|q|q]; try lia.
  exists q, (e + (Zdigits2 x - 53) + (Zdigits2 x2 - 53)).
  split; [lia|reflexivity].
Qed.






End Binary64Signs.

Set Implicit Arguments.

(** ** Binary64: the views stay finite *)

Unset Implicit Arguments.

Section Binary64Bounded.

Local Open Scope Z_scope.

(** The float [2^52 * 2^e], a power of two. *)
Lemma pow2_float_valid (s : bool) (e : Z) :
  emin64 <= e <= 971 ->
  valid_binary (S754_finite s 4503599627370496 e) = true.
Proof.
  intros He. unfold valid_binary, bounded, canonical_mantissa.
  change (Z.pos (digits2_pos 4503599627370496)) with 53.
  rewrite fexp_eq. unfold emin64 in *.
  apply andb_true_iff. split; [apply Z.eqb_eq|apply Z.leb_le];
    unfold emax, prec; lia.
Qed.

(** A float between two opposite powers of two is finite. *)
Lemma real_between (f : spec_float) (e : Z) :
  f <> S754_nan -> valid_binary f = true ->
  emin64 <= e <= 971 ->
  key_le (SF_key f) (SF_key (S754_finite false 4503599627370496 e)) ->
  key_le (SF_key (S754_finite true 4503599627370496 e)) (SF_key f) ->
  real f /\ Z.abs (ival f) <= 2 ^ (e + 1126).
Proof.
  intros Hn Hv He Hhi Hlo.
  assert (Hq : 0 < 2 ^ (e + 1126))
    by (apply Z.pow_pos_nonneg; unfold emin64 in *; lia).
  assert (Ep : ival (S754_finite false 4503599627370496 e) = 2 ^ (e + 1126)).
  { cbn [ival]. change (Z.pos 4503599627370496) with (2 ^ 52).
    rewrite <- Z.pow_add_r by (unfold emin64 in *; lia).
    f_equal. unfold emin64. lia. }
  assert (En : ival (S754_finite true 4503599627370496 e) = - 2 ^ (e + 1126)).
  { cbn [ival]. rewrite <- Ep. cbn [ival]. lia. }
  destruct f as [s|s| |s m x]; try contradiction.
  - split; [exact I|]. cbn [ival]. lia.
  - exfalso. apply key_le_spec in Hhi. apply key_le_spec in Hlo.
    destruct s; cbn [SF_key fst snd] in Hhi, Hlo; lia.
  - split; [exact I|].
    pose proof (key_le_ival (S754_finite false 4503599627370496 e)
                            (S754_finite s m x) I I
                            (pow2_float_valid false e He) Hv Hhi) as H1.
    pose proof (key_le_ival (S754_finite s m x)
                            (S754_finite true 4503599627370496 e) I I
                            Hv (pow2_float_valid true e He) Hlo) as H2.
    rewrite Ep in H1. rewrite En in H2. lia.
Qed.

Lemma round_signed_pow2 (s : bool) (e : Z) :
  emin64 <= e <= 971 ->
  round_signed (if s then - 2 ^ (e + 1126) else 2 ^ (e + 1126))
  = S754_finite s 4503599627370496 e.
Proof.
  intros He.
  assert (Hq : 0 < 2 ^ (e + 1126))
    by (apply Z.pow_pos_nonneg; unfold emin64 in *; lia).
  assert (E : 2 ^ (e + 1126) = Z.pos 4503599627370496 * 2 ^ (e - emin64)).
  { change (Z.pos 4503599627370496) with (2 ^ 52).
    rewrite <- Z.pow_add_r by (unfold emin64 in *; lia).
    f_equal. unfold emin64. lia. }
  destruct s.
  - rewrite round_signed_neg by exact Hq. rewrite E.
    apply round_int_valid, pow2_float_valid, He.
  - rewrite round_signed_pos by exact Hq. rewrite E.
    apply round_int_valid, pow2_float_valid, He.
Qed.

(** The sum of two finite floats below a power of two is finite, below
    the next power of two. *)
Lemma float_add_within (x c : float) (e : Z) :
  emin64 <= e -> e + 1 <= 971 ->
  real (Prim2SF x) -> Z.abs (ival (Prim2SF x)) <= 2 ^ (e + 1126) ->
  real (Prim2SF c) -> Z.abs (ival (Prim2SF c)) <= 2 ^ (e + 1126) ->
  real (Prim2SF (PrimFloat.add x c)) /\
  Z.abs (ival (Prim2SF (PrimFloat.add x c))) <= 2 ^ (e + 1 + 1126).
Proof.
  intros He He' Rx Bx Rc Bc.
  pose proof (Prim2SF_valid (PrimFloat.add x c)) as Vz.
  rewrite add_spec in *. unfold SF64add in *.
  destruct (SFadd_real _ _ Rx Rc (Prim2SF_valid x) (Prim2SF_valid c))
    as [Hn Hk].
  assert (E2 : 2 ^ (e + 1 + 1126) = 2 * 2 ^ (e + 1126)).
  { replace (e + 1 + 1126) with (Z.succ (e + 1126)) by lia.
    apply Z.pow_succ_r. unfold emin64 in *. lia. }
  apply real_between; [exact Hn|exact Vz|unfold emin64 in *; lia| |].
  - rewrite Hk, <- (round_signed_pow2 false) by (unfold emin64 in *; lia).
    apply round_signed_mono. lia.
  - rewrite Hk, <- (round_signed_pow2 true) by (unfold emin64 in *; lia).
    apply round_signed_mono. lia.
Qed.

(** Adding a finite float again and again, as long as the powers of two
    that bound the sums are floats. *)
Lemma float_walk_within (c x : float) (e : Z) (k : nat) :
  emin64 <= e -> e + Z.of_nat k <= 971 ->
  real (Prim2SF x) -> Z.abs (ival (Prim2SF x)) <= 2 ^ (e + 1126) ->
  real (Prim2SF c) -> Z.abs (ival (Prim2SF c)) <= 2 ^ (e + 1126) ->
  real (Prim2SF (Nat.iter k (fun y => PrimFloat.add y c) x)) /\
  Z.abs (ival (Prim2SF (Nat.iter k (fun y => PrimFloat.add y c) x)))
  <= 2 ^ (e + Z.of_nat k + 1126).
Proof.
  intros He Hk Rx Bx Rc Bc. induction k as [|k IH].
  - cbn [Nat.iter nat_rect]. rewrite Z.add_0_r. split; assumption.
  - change (Nat.iter (S k) (fun y => PrimFloat.add y c) x)
      with (PrimFloat.add (Nat.iter k (fun y => PrimFloat.add y c) x) c).
    destruct (IH ltac:(lia)) as [R B].
    replace (e + Z.of_nat (S k) + 1126) with (e + Z.of_nat k + 1 + 1126)
      by lia.
    apply float_add_within; try assumption; try lia.
    apply Z.le_trans with (2 ^ (e + 1126)); [exact Bc|].
    apply Z.pow_le_mono_r; unfold emin64 in *; lia.
Qed.

(** The quotient of the floats of two whole numbers below [2^53] is
    finite, below [2^54]. *)
Lemma float_div_within (m a : Z) :
  Z.abs m < 2 ^ 53 -> Z.abs a < 2 ^ 53 -> a <> 0 ->
  real (Prim2SF (PrimFloat.div (float_of_int m) (float_of_int a))) /\
  Z.abs (ival (Prim2SF (PrimFloat.div (float_of_int m) (float_of_int a))))
  <= 2 ^ (2 + 1126).
Proof.
  intros Bm Ba Ha.
  pose proof (Prim2SF_valid (PrimFloat.div (float_of_int m) (float_of_int a)))
    as Vz.
  rewrite div_spec in *. unfold SF64div in *.
  destruct (of_int_finite a Ba Ha)
    as (ma & da & Hda & _ & _ & Hma & Da & _ & Ea).
  rewrite Ea in *.
  destruct (Z.eq_dec m 0) as [->|Hm].
  - change (Prim2SF (float_of_int 0)) with (S754_zero false).
    cbn [SFdiv real ival]. split; [exact I|discriminate].
  - destruct (of_int_finite m Bm Hm)
      as (mx & dx & Hdx & _ & _ & Hmx & Dx & _ & Ex).
    rewrite Ex in *. cbn [SFdiv] in *.
    rewrite SFdiv_core_53 in * by (assumption || lia).
    set (q := Z.pos mx * 2 ^ 53 / Z.pos ma) in *.
    assert (Hq : 2 ^ 52 <= q).
    { apply Z.div_le_lower_bound; [lia|].
      change (2 ^ 53) with (2 * 2 ^ 52) in *. clear - Hmx Hma. nia. }
    assert (Hq' : q < 2 ^ 54).
    { apply Z.div_lt_upper_bound; [lia|].
      change (2 ^ 54) with (2 ^ 52 * 4). change (2 ^ 53) with (2 ^ 52 * 2) in *.
      clear - Hmx Hma. nia. }
    pose proof (Zdigits2_le q 54 ltac:(lia) ltac:(lia)) as Hd.
    destruct (binary_round_aux_shape (xorb (m <? 0) (a <? 0)) q
                (dx - 53 - (da - 53) - 53)
                (new_location (Z.pos ma) (Z.pos mx * 2 ^ 53 mod Z.pos ma))
                ltac:(lia) (Zdigits2_ge_53 q Hq) ltac:(unfold emin64; lia))
      as (p & e' & He' & E).
    rewrite E in *.
    destruct (Z.leb_spec e' 971) as [_|C]; [|lia].
    split; [exact I|].
    destruct (valid_finite_bounds _ p e' Vz) as [Hb Hp].
    assert (Hs : Z.abs (ival (S754_finite (xorb (m <? 0) (a <? 0)) p e'))
                 = Z.pos p * 2 ^ (e' - emin64)).
    { cbn [ival].
      assert (0 < 2 ^ (e' - emin64)) by (apply Z.pow_pos_nonneg; lia).
      destruct (xorb _ _); nia. }
    rewrite Hs.
    assert (Hle : 2 ^ (e' - emin64) <= 2 ^ (1 - emin64))
      by (apply Z.pow_le_mono_r; lia).
    assert (Hpos : 0 < 2 ^ (e' - emin64)) by (apply Z.pow_pos_nonneg; lia).
    change (2 ^ (2 + 1126)) with (2 ^ 53 * 2 ^ (1 - emin64)).
    clear - Hp Hle Hpos. nia.
Qed.

(** The views of a video constructed from a view count and an age below
    [2^53] are finite for the first 900 days and more. *)
Lemma float_views_real (TODAY : Z) (t : string) (m d : Z) (v : @Video float)
      (k : nat) :
  Video_init TODAY t m d = Ok v ->
  Z.abs m < 2 ^ 53 -> Z.abs (TODAY - d) < 2 ^ 53 ->
  (k <= 900)%nat ->
  real (Prim2SF (views (after k v))).
Proof.
  intros Hv Bm Bd Hk. apply Video_init_inv in Hv. destruct Hv as [Hnz ->].
  rewrite float_views_after. cbn [views avg_views of_int div float_Number].
  destruct (float_div_within m (TODAY - d) Bm Bd Hnz) as [Rc Bc].
  destruct (Prim2SF_of_int_exact m Bm) as (Rx & _ & Ix).
  refine (proj1 (float_walk_within _ _ 2 k _ _ Rx _ Rc Bc)).
  - unfold emin64. lia.
  - lia.
  - rewrite Ix, Z.abs_mul, (Z.abs_eq (2 ^ (0 - emin64)))
      by (apply Z.pow_nonneg; lia).
    change (2 ^ (2 + 1126)) with (2 ^ 54 * 2 ^ (0 - emin64)).
    assert (0 < 2 ^ (0 - emin64)) by (apply Z.pow_pos_nonneg; unfold emin64; lia).
    change (2 ^ 54) with (2 * 2 ^ 53). clear - Bm H. nia.
Qed.

End Binary64Bounded.

Set Implicit Arguments.

(** ** Binary64: videos whose numbers are whole *)

Section WholeVideos.

Lemma abs_step (m g : Z) (k : nat) :
  (Z.abs m + Z.abs g * Z.of_nat (S k) < 2 ^ 53)%Z ->
  (Z.abs (m + g * Z.of_nat k) < 2 ^ 53)%Z /\ (Z.abs g < 2 ^ 53)%Z /\
  (Z.abs m + Z.abs g * Z.of_nat k < 2 ^ 53)%Z.
Proof.
  intros Hb.
  assert (Z.abs (g * Z.of_nat k) = Z.abs g * Z.of_nat k)%Z
    by (rewrite Z.abs_mul, (Z.abs_eq (Z.of_nat k)) by lia; reflexivity).
  assert (0 <= Z.abs g * Z.of_nat k)%Z by (apply Z.mul_nonneg_nonneg; lia).
  rewrite Nat2Z.inj_succ, Z.mul_succ_r in Hb.
  repeat split; lia.
Qed.

(** While the numbers stay below [2^53], the views of a video with whole
    views and a whole gain a day are the whole numbers that linear growth
    gives. *)
Lemma float_views_after_whole (v : @Video float) (m g : Z) (k : nat) :
  views v = of_int m -> avg_views v = of_int g ->
  (Z.abs m + Z.abs g * Z.of_nat k < 2 ^ 53)%Z ->
  views (after k v) = of_int (m + g * Z.of_nat k).
Proof.
  intros Hm Hg. induction k as [|k IH]; intros Hb.
  - cbn [after Nat.iter nat_rect]. rewrite Hm. f_equal. simpl. lia.
  - destruct (abs_step m g k Hb) as (B1 & B2 & B3).
    rewrite after_succ, float_fast_forward1, avg_views_after, IH, Hg by exact B3.
    cbn [of_int float_Number].
    rewrite float_add_of_int by assumption. f_equal. lia.
Qed.

End WholeVideos.

Section WholeOrder.

Local Open Scope Z_scope.

(** The whole numbers a video with whole views and a whole gain passes
    through stay within the bound of the last day. *)
Lemma whole_bound (m g : Z) (k K : nat) :
  (k <= K)%nat ->
  Z.abs m + Z.abs g * Z.of_nat K < 2 ^ 53 ->
  Z.abs m + Z.abs g * Z.of_nat k < 2 ^ 53 /\
  Z.abs (m + g * Z.of_nat k) < 2 ^ 53.
Proof.
  intros Hk HB.
  assert (H1 : Z.abs g * Z.of_nat k <= Z.abs g * Z.of_nat K)
    by (apply Z.mul_le_mono_nonneg_l; lia).
  assert (H2 : Z.abs (g * Z.of_nat k) = Z.abs g * Z.of_nat k)
    by (rewrite Z.abs_mul, (Z.abs_eq (Z.of_nat k)) by lia; reflexivity).
  pose proof (Z.abs_triangle m (g * Z.of_nat k)) as H3.
  split; lia.
Qed.

(** Two lines that cross between [K - 1] and [K]: before, and after. *)
Lemma lines_before (ma ga mb gb : Z) (k K : nat) :
  (1 <= K)%nat -> (k < K)%nat ->
  mb + gb * Z.of_nat (K - 1) <= ma + ga * Z.of_nat (K - 1) ->
  ma + ga * Z.of_nat K < mb + gb * Z.of_nat K ->
  ga < gb /\ mb + gb * Z.of_nat k <= ma + ga * Z.of_nat k.
Proof.
  intros HK Hk Hb Ha.
  replace (Z.of_nat K) with (Z.of_nat (K - 1) + 1) in Ha by lia.
  assert (Hg : ga < gb) by lia.
  split; [exact Hg|].
  assert (Hj : 0 <= Z.of_nat (K - 1) - Z.of_nat k) by lia.
  assert (Hp : 0 <= (gb - ga) * (Z.of_nat (K - 1) - Z.of_nat k))
    by (apply Z.mul_nonneg_nonneg; lia).
  lia.
Qed.

End WholeOrder.

Section WholeRuns.



End WholeRuns.

(** * The properties *)

(** ** Linear growth *)

(** In exact arithmetic, where addition is associative and
    multiplication distributes over it, an item constructed with measure
    [m] and a positive age has, after [N] calls of [fast_forward()], the
    measure a single [fast_forward(N)] gives it, namely
    [m + (m / age) * N].  Binary64 is not such an arithmetic: what holds
    there comes next. *)
Lemma linear_growth_exact
  {num : Type} `{Number num} `{!ExactArith num}
  (TODAY : Z) (t : string) (m d N : Z) (v : @Video num) :
  (0 < TODAY - d)%Z ->
  (0 < N)%Z ->
  Video_init TODAY t m d = Ok v ->
  views (after (Z.to_nat N) v) = views (fast_forward N v) /\
  views (fast_forward N v)
  = add (of_int m) (mul (div (of_int m) (of_int (TODAY - d))) (of_int N)) /\
  avg_views (after (Z.to_nat N) v) = avg_views v.
Proof.
  intros _ HN Hv. apply Video_init_inv in Hv. destruct Hv as [_ ->].
  destruct (Z.to_nat N) as [|n] eqn:En; [lia|].
  rewrite views_after_linear, avg_views_after.
  replace (Z.of_nat (S n)) with N by lia.
  repeat split.
Qed.




(** ** The items A and B *)

Lemma swap_on_day_4_exact (TODAY h : Z) :
  (4 <= h)%Z -> swap_on_day_4 Qc TODAY h.
Proof.
  intros Hh. unfold swap_on_day_4.
  rewrite !Video_init_aged by discriminate.
  do 2 eexists. split; [reflexivity|]. split; [reflexivity|].
  cbn [avg_views of_int div Qc_Number].
  assert (EA : Qcdiv (Q2Qc (inject_Z 100)) (Q2Qc (inject_Z 100))
               = Q2Qc (inject_Z 1))
    by exact (@Qc_div_exact 1 100 ltac:(discriminate)).
  assert (EB : Qcdiv (Q2Qc (inject_Z 90)) (Q2Qc (inject_Z 18))
               = Q2Qc (inject_Z 5))
    by exact (@Qc_div_exact 5 18 ltac:(discriminate)).
  rewrite EA, EB.
  split; [reflexivity|]. split; [reflexivity|].
  split; [|split; reflexivity].
  apply overtake_track_changes; [reflexivity| | | |exact Hh];
    cbn [ltb Qc_Number]; intros; rewrite !Qc_views_after_int, Qc_ltb_of_int.
  - apply Z.ltb_ge. lia.
  - reflexivity.
  - apply Z.ltb_ge. lia.
Qed.

(** In binary64: an item that is ahead of another and gains no less a day
    stays ahead, as long as no NaN comes up. *)
Lemma binary64_stays_ahead (a b : @Video float) :
  real (Prim2SF (mul (avg_views a) (of_int 1))) ->
  real (Prim2SF (mul (avg_views b) (of_int 1))) ->
  ltb (mul (avg_views b) (of_int 1)) (mul (avg_views a) (of_int 1)) = false ->
  not_nan (views a) -> not_nan (views b) ->
  ltb (views b) (views a) = false ->
  forall k : nat,
    not_nan (views (after k a)) /\ not_nan (views (after k b)) /\
    ltb (views (after k b)) (views (after k a)) = false.
Proof.
  intros Ra Rb Hg Na Nb Hab k. induction k as [|k (Nak & Nbk & IH)].
  - repeat split; assumption.
  - rewrite !after_succ. unfold fast_forward1, fast_forward.
    cbn [views]. rewrite !avg_views_after.
    set (ga := mul (avg_views a) (of_int 1)) in *.
    set (gb := mul (avg_views b) (of_int 1)) in *.
    set (x := views (after k a)) in *. set (y := views (after k b)) in *.
    cbn [add ltb float_Number] in *.
    assert (N1 : not_nan (PrimFloat.add x ga))
      by (apply float_add_not_nan; assumption).
    assert (N2 : not_nan (PrimFloat.add y gb))
      by (apply float_add_not_nan; assumption).
    assert (N3 : not_nan (PrimFloat.add x gb))
      by (apply float_add_not_nan; assumption).
    repeat split; try assumption.
    pose proof (@ltb_negtrans float _ not_nan _
                  (PrimFloat.add y gb) (PrimFloat.add x gb)
                  (PrimFloat.add x ga) N2 N3 N1) as T.
    cbn [ltb float_Number] in T. apply T.
    + apply float_add_mono, IH.
    + apply float_add_mono_l, Hg.
Qed.

Lemma swap_on_day_4_binary64 (TODAY h : Z) :
  (4 <= h)%Z -> swap_on_day_4 float TODAY h.
Proof.
  intros Hh. unfold swap_on_day_4.
  rewrite !Video_init_aged by discriminate.
  do 2 eexists. split; [reflexivity|]. split; [reflexivity|].
  split; [reflexivity|]. split; [reflexivity|].
  split; [|split; reflexivity].
  apply overtake_track_changes; [reflexivity| | | |exact Hh].
  - intros [|[|[|k]]] Hk; try lia; vm_compute; reflexivity.
  - vm_compute. reflexivity.
  - intros k Hk. replace k with ((k - 3) + 3)%nat by lia.
    rewrite <- !after_add.
    apply binary64_stays_ahead; vm_compute; try reflexivity; exact I.
Qed.

(** C2: for the items A (100 views, one more a day) and B (90 views, five
    more a day) and a horizon of at least four days, exactly two reports
    are printed: the starting state with A first, and on day 4 (day index
    3) the ranking with B first; nothing is printed on days 2 and 3.  This
    holds for the binary64 numbers the program computes with, and in exact
    arithmetic. *)
Theorem C2_swap_reported_on_day_4 (TODAY h : Z) :
  (4 <= h)%Z ->
  swap_on_day_4 float TODAY h /\ swap_on_day_4 Qc TODAY h.
Proof.
  intros Hh. split.
  - apply swap_on_day_4_binary64, Hh.
  - apply swap_on_day_4_exact, Hh.
Qed.

Lemma C2_swap_reported_on_day_4_witness :
  swap_on_day_4 float 1000 4 /\ swap_on_day_4 Qc 1000 4.
Proof.
  apply (@C2_swap_reported_on_day_4 1000 4). discriminate.
Defined.

(** ** Items that grow alike *)

Lemma steady_views_differ : NoDup (map views [steady_q; steady_p]).
Proof.
  constructor; [|constructor; [intros []|constructor]].
  intros [E|[]].
  apply (f_equal (fun x => PrimFloat.eqb x (views steady_p))) in E.
  vm_compute in E. discriminate.
Qed.

Lemma steady_measured : measured not_nan [steady_q; steady_p].
Proof. repeat constructor. Qed.

(** C3: when all the items have the same [avg_views] and pairwise
    different [views], and the horizon is at least one day, exactly one
    report is printed, the starting one, however long the horizon.  (The
    measures are taken in the domain of the order: for binary64, none is
    NaN.) *)
Theorem C3_same_growth_single_report
  {num : Type} `{Number num} {dom : num -> Prop}
  `{!OrderLaws num dom} `{!AddMonotone num}
  (vs : list (@Video num)) (g : num) (h : Z) :
  vs <> [] ->
  measured dom vs ->
  (forall v, In v vs -> avg_views v = g) ->
  NoDup (map views vs) ->
  (1 <= h)%Z ->
  track_changes vs h = Ok [mkReport starting_label (sort_videos vs)].
Proof.
  intros _ Hm Hg _ Hh. rewrite (track_changes_first_day vs Hh).
  assert (Hst : steady g (after_day 0 (initial_state vs))).
  { apply steady_after_sorted_day.
    - apply Forall_forall. exact Hg.
    - apply sort_videos_sorted, Hm. }
  destruct (steady_run (Z.to_nat h - 1) (Nat.neq_succ_0 0) Hst)
    as [st' [Hrun Hp]].
  rewrite Hrun. simpl. rewrite Hp. reflexivity.
Qed.

Lemma C3_same_growth_single_report_witness :
  track_changes [steady_q; steady_p] 50
  = Ok [mkReport starting_label (sort_videos [steady_q; steady_p])].
Proof.
  apply (@C3_same_growth_single_report float _ not_nan _ _
            [steady_q; steady_p] (of_int 2) 50).
  - discriminate.
  - exact steady_measured.
  - intros v [<-|[<-|[]]]; reflexivity.
  - exact steady_views_differ.
  - discriminate.
Defined.

(** ** The starting state *)

Lemma measured_videos_a_b : measured not_nan [video_b; video_a; video_b].
Proof. repeat constructor. Qed.

(** C4: for a non-empty list and a horizon of at least one day, the first
    report printed is the one headed "Starting state (Day 1):", it ranks
    all the items in descending order of [views], and with a horizon of
    one day nothing else is printed.  (The measures are taken in the
    domain of the order: for binary64, none is NaN.) *)
Theorem C4_starting_state_always_reported
  {num : Type} `{Number num} {dom : num -> Prop} `{!OrderLaws num dom}
  (vs : list (@Video num)) (h : Z) :
  vs <> [] ->
  measured dom vs ->
  (1 <= h)%Z ->
  exists rest : list (@Report num),
    track_changes vs h
      = Ok (mkReport starting_label (sort_videos vs) :: rest) /\
    starting_label = "Starting state (Day 1):"%string /\
    Permutation vs (sort_videos vs) /\
    StronglySorted not_below (sort_videos vs) /\
    (h = 1%Z -> rest = []).
Proof.
  intros _ Hm Hh. rewrite (track_changes_first_day vs Hh).
  destruct (run_days_total (Z.to_nat h - 1)
              (after_day_well_formed 0 1 (initial_state vs)))
    as [st' [Hrun [_ [more Hmore]]]].
  rewrite Hrun. simpl in Hmore. exists more.
  split; [simpl; now rewrite Hmore|]. split; [reflexivity|].
  split; [apply sort_videos_perm|].
  split; [apply sort_videos_sorted, Hm|].
  intros ->. simpl in Hrun. injection Hrun as <-. simpl in Hmore.
  apply (app_inv_head [mkReport starting_label (sort_videos vs)]).
  simpl. now rewrite <- Hmore.
Qed.

Lemma C4_starting_state_always_reported_witness :
  exists rest : list (@Report float),
    track_changes [video_b; video_a; video_b] 1
      = Ok (mkReport starting_label
                     (sort_videos [video_b; video_a; video_b]) :: rest) /\
    starting_label = "Starting state (Day 1):"%string /\
    Permutation [video_b; video_a; video_b]
                (sort_videos [video_b; video_a; video_b]) /\
    StronglySorted not_below (sort_videos [video_b; video_a; video_b]) /\
    (1%Z = 1%Z -> rest = []).
Proof.
  apply (@C4_starting_state_always_reported float _ not_nan _
            [video_b; video_a; video_b] 1).
  - discriminate.
  - exact measured_videos_a_b.
  - discriminate.
Defined.

(** ** The order recorded for the next day *)

(** C5: on every simulated day [d] the detection step goes through, and
    after it [prev_order] is set to the enumeration of that day's sorted
    order, whether or not a report was printed; the detection of day
    [d + 1] then prints a report exactly when a title of its own sorted
    order differs, at some rank, from the title day [d] had there. *)
Theorem C5_prev_order_set_every_day
  {num : Type} `{Number num} (vs : list (@Video num)) (d : nat) :
  exists st st1 : @SimState num,
    run_days d 0 (initial_state vs) = Ok st /\
    detect_step d (sort_step st) = Ok st1 /\
    prev_order (record_step st1)
      = Some (enumerate (sort_videos (videos st))) /\
    day_step d st = Ok (advance_step (record_step st1)) /\
    let next := sort_step (advance_step (record_step st1)) in
    exists st2 : @SimState num,
      detect_step (S d) next = Ok st2 /\
      printed st2 =
      printed st1 ++
        (if titles_differ (sort_videos (videos st)) (videos next)
         then [mkReport (day_label (S d)) (videos next)] else []).
Proof.
  destruct (run_days_total d (initial_well_formed vs)) as [st [Hrun [Hwf _]]].
  rewrite Nat.add_0_r in Hwf.
  pose proof (day_step_spec Hwf) as Hstep.
  unfold day_step in Hstep.
  destruct (detect_step d (sort_step st)) as [st1|e] eqn:Hdet;
    [|discriminate].
  destruct (detect_step_videos _ _ Hdet) as [Hv Hp]. simpl in Hv, Hp.
  exists st, st1. split; [exact Hrun|]. split; [exact Hdet|].
  split; [unfold record_step; simpl; now rewrite Hv|].
  split; [unfold day_step; now rewrite Hdet|].
  simpl. unfold detect_step. simpl.
  rewrite enumerate_map, Hv.
  rewrite order_changed_enumerate
    by (now rewrite sort_videos_length).
  simpl. rewrite titles_differ_map_l.
  destruct (titles_differ _ _); eexists; split; try reflexivity.
  simpl. now rewrite app_nil_r.
Qed.

(** ** The sort *)

(** C6: on every day, the list the sort step leaves is in descending
    order of [views] (no item is below a later one), holds the same items,
    and keeps the items of any one measure in the order they had before
    the sort.  (The measures are taken in the domain of the order: for
    binary64, none is NaN.) *)
Theorem C6_sorted_descending_stable
  {num : Type} `{Number num} {dom : num -> Prop} `{!OrderLaws num dom}
  (st : @SimState num) :
  measured dom (videos st) ->
  let sorted := videos (sort_step st) in
  StronglySorted not_below sorted /\
  Permutation (videos st) sorted /\
  forall k : num,
    dom k ->
    filter (same_measure k) sorted = filter (same_measure k) (videos st).
Proof.
  intros Hm. simpl. split; [apply sort_videos_sorted, Hm|].
  split; [apply sort_videos_perm|].
  intros k Hk. apply sort_videos_stable; assumption.
Qed.

Lemma C6_sorted_descending_stable_witness :
  let st := initial_state [video_b; video_a; video_b] in
  StronglySorted not_below (videos (sort_step st)) /\
  Permutation (videos st) (videos (sort_step st)) /\
  forall k : float,
    not_nan k ->
    filter (same_measure k) (videos (sort_step st))
    = filter (same_measure k) (videos st).
Proof.
  apply (@C6_sorted_descending_stable float _ not_nan _
            (initial_state [video_b; video_a; video_b])).
  exact measured_videos_a_b.
Defined.

(** ** An age of zero days *)

(** C7: constructing a video uploaded on the reference date, so that its
    age is zero days, raises [ZeroDivisionError] and yields no video; a
    video that was constructed never has age zero. *)
Theorem C7_zero_age_raises
  {num : Type} `{Number num} (TODAY : Z) (t : string) (m : Z) :
  Video_init TODAY t m TODAY = Raise ZeroDivisionError /\
  forall (d : Z) (v : @Video num),
    Video_init TODAY t m d = Ok v ->
    days_up v <> 0%Z /\ d <> TODAY /\
    avg_views v = div (of_int m) (of_int (days_up v)).
Proof.
  split.
  - unfold Video_init, truediv. rewrite Z.sub_diag. reflexivity.
  - intros d v. unfold Video_init, truediv.
    destruct (Z.eqb_spec (TODAY - d) 0) as [E|E]; simpl; [discriminate|].
    intros Hv. injection Hv as <-. simpl.
    repeat split; [exact E|lia].
Qed.

(** ** Items of one title *)

(** C8: on a day after the first, when the sorted order differs from the
    order recorded the day before only in that two items of the same
    title have exchanged their ranks, the detection step prints nothing:
    it leaves the state as it found it. *)
Theorem C8_same_title_swap_unreported
  {num : Type} (day : nat) (st : @SimState num) (old : list (@Video num))
  (i j : nat) (a b : @Video num) :
  day <> O ->
  prev_order st = Some (enumerate old) ->
  nth_error old i = Some a ->
  nth_error old j = Some b ->
  title a = title b ->
  map title (videos st) = map title (swap i j old) ->
  detect_step day st = Ok st.
Proof.
  intros Hday Hprev Ha Hb Ht Hcur.
  rewrite (swap_same_title i j old Ha Hb Ht) in Hcur.
  unfold detect_step.
  destruct (Nat.eqb_spec day 0) as [|_]; [contradiction|].
  rewrite Hprev.
  rewrite order_changed_enumerate.
  - rewrite titles_differ_same by (symmetry; exact Hcur). reflexivity.
  - rewrite <- (length_map title old), <- (length_map title (videos st)).
    now rewrite Hcur.
Qed.

Lemma C8_same_title_swap_unreported_witness :
  videos twins_swapped = [fast_forward1 twin_2; fast_forward1 twin_1] /\
  detect_step 1 twins_swapped = Ok twins_swapped.
Proof.
  split; [reflexivity|].
  apply (@C8_same_title_swap_unreported float 1%nat twins_swapped
            [fast_forward1 twin_1; fast_forward1 twin_2] 0%nat 1%nat
            (fast_forward1 twin_1) (fast_forward1 twin_2)).
  - discriminate.
  - reflexivity.
  - reflexivity.
  - reflexivity.
  - reflexivity.
  - reflexivity.
Defined.

(** ** The [-d] flag *)

(** C9: [main] does not pass [-d] on.  Whatever the flag says, the run is
    the run without the flag; with [-d 2] and the items A and B the report
    of day 4 is printed, which a horizon of two days does not reach. *)
Theorem C9_days_flag_is_ignored :
  (forall (num : Type) (N : Number num) (TODAY : Z)
          (youtube : string -> string -> result Snippet)
          (json : string) (key : option string) (d : option Z)
          (data : Config),
      main TODAY youtube (mkArgs json key d) data
      = main TODAY youtube (mkArgs json key None) data) /\
  let r1 := mkReport "Starting state (Day 1):" [video_a; video_b] in
  let r4 := mkReport "Day 4:" [after 3 video_b;
                               after 3 video_a] in
  fetch_videos 1000 two_videos ["a"; "b"]%string "K"
  = Ok [video_a; video_b] /\
  main 1000 two_videos (mkArgs "videos.json" None (Some 2%Z))
       (mkConfig (Some ["a"; "b"]%string) (Some "K"%string))
  = Ok (Finished [r1; r4]) /\
  track_changes [video_a; video_b] default_days_threshold = Ok [r1; r4] /\
  track_changes [video_a; video_b] 2 = Ok [r1].
Proof.
  split; [reflexivity|].
  split; [vm_compute; reflexivity|].
  split; [vm_compute; reflexivity|].
  split; vm_compute; reflexivity.
Qed.

(** ** An upload date after the reference date *)

(** In exact arithmetic, an item with a positive measure and an upload
    date after the reference date has a negative age and a negative
    [avg_views], and every [fast_forward()] lowers its [views]. *)
Lemma future_upload_date_shrinks_exact
  (TODAY : Z) (t : string) (m d : Z) :
  (0 < m)%Z ->
  (TODAY < d)%Z ->
  exists v : @Video Qc,
    Video_init TODAY t m d = Ok v /\
    (days_up v < 0)%Z /\
    ltb (avg_views v) (of_int 0) = true /\
    (forall n : nat,
        ltb (views (after (S n) v)) (views (after n v)) = true) /\
    (forall (d' : Z) (e : exn),
        Video_init (num:=Qc) TODAY t m d' = Raise e ->
        d' = TODAY /\ e = ZeroDivisionError).
Proof.
  intros Hm Hd.
  replace d with (TODAY - (TODAY - d))%Z by lia.
  rewrite Video_init_aged by lia.
  eexists. split; [reflexivity|]. cbn [days_up avg_views].
  split; [lia|].
  assert (Hg : ltb (num:=Qc) (div (of_int m) (of_int (TODAY - d))) (of_int 0)
               = true).
  { apply (proj2 (Qc_ltb_true _ _)). apply Qc_div_neg; lia. }
  split; [exact Hg|]. split.
  - intros n. apply (proj2 (Qc_ltb_true _ _)).
    rewrite after_succ.
    unfold fast_forward1 at 1, fast_forward. cbn [views].
    rewrite avg_views_after. cbn [avg_views].
    apply Qc_add_neg. apply (proj1 (Qc_ltb_true _ _)). exact Hg.
  - intros d' e. apply Video_init_raises.
Qed.



(** Once the views of an item with one view that loses a view a day have
    come down to [-2^53], after [2^53 + 1] days, a further
    [fast_forward()] leaves them where they are: the loss is rounded
    away. *)
Lemma views_absorbed :
  exists (v : @Video float) (n : nat),
    Video_init 10 "x" 1 11 = Ok v /\
    ltb (avg_views v) (of_int 0) = true /\
    views (after (S n) v) = views (after n v).
Proof.
  eexists. exists (3 + Z.to_nat (2 ^ 53 - 2))%nat.
  split; [reflexivity|]. split; [reflexivity|].
  remember (Z.to_nat (2 ^ 53 - 2)) as K eqn:EK.
  assert (HK : Z.of_nat K = (2 ^ 53 - 2)%Z).
  { subst K. apply Z2Nat.id. discriminate. }
  set (v := mkVideo "x" _ _ _ _ _).
  assert (Ev : views v = of_int 1) by reflexivity.
  assert (Ea : avg_views v = of_int (-1)) by reflexivity.
  assert (E : views (after K v) = of_int (1 + -1 * Z.of_nat K)).
  { apply float_views_after_whole; [exact Ev|exact Ea|].
    rewrite HK. reflexivity. }
  rewrite HK in E.
  replace (S (3 + K)) with (4 + K)%nat by reflexivity.
  rewrite <- (after_add 4 K), <- (after_add 3 K).
  rewrite (float_views_after 4 (after K v)), (float_views_after 3 (after K v)).
  rewrite !avg_views_after, E, Ea.
  vm_compute. reflexivity.
Qed.


(** * The run as a whole, the output and the driver *)

Section RunFacts.

Context {num : Type} `{Number num}.

Abbreviation Video := (@Video num).
Abbreviation Report := (@Report num).
Abbreviation SimState := (@SimState num).

Lemma titles_differ_false (old cur : list Video) :
  List.length old = List.length cur ->
  titles_differ old cur = false -> map title old = map title cur.
Proof.
  revert cur. unfold titles_differ.
  induction old as [|a old IH]; intros [|c cur] Hlen; simpl in *;
    try discriminate; try reflexivity.
  intros E. apply orb_false_iff in E. destruct E as [Et Er].
  apply negb_false_iff, String.eqb_eq in Et.
  rewrite Et. f_equal. apply IH; [lia|exact Er].
Qed.

Lemma titles_differ_same_titles (old cur : list Video) :
  List.length old = List.length cur ->
  titles_differ old cur = negb (same_titles old cur).
Proof.
  intros Hlen. unfold same_titles.
  destruct (list_eq_dec string_dec (map title old) (map title cur)) as [E|E].
  - apply titles_differ_same, E.
  - destruct (titles_differ old cur) eqn:Ed; [reflexivity|].
    contradiction E. apply titles_differ_false; assumption.
Qed.

Lemma ranking_on_length (vs : list Video) (d : nat) :
  List.length (ranking_on vs d) = List.length vs.
Proof.
  induction d as [|d IH]; simpl.
  - apply sort_videos_length.
  - now rewrite sort_videos_length, length_map.
Qed.

Lemma map_after_succ (d : nat) (vs : list Video) :
  map fast_forward1 (map (after d) vs) = map (after (S d)) vs.
Proof. rewrite map_map. reflexivity. Qed.

Lemma ranking_on_perm (vs : list Video) (d : nat) :
  Permutation (ranking_on vs d) (map (after d) vs).
Proof.
  induction d as [|d IH]; simpl.
  - rewrite map_id. symmetry. apply sort_videos_perm.
  - apply perm_trans with (map fast_forward1 (ranking_on vs d)).
    + symmetry. apply sort_videos_perm.
    + rewrite <- map_after_succ. apply Permutation_map, IH.
Qed.

Lemma reports_until_succ (vs : list Video) (n : nat) :
  reports_until vs (S n) = reports_until vs n ++ report_on vs n.
Proof.
  unfold reports_until. rewrite seq_S, flat_map_app. simpl.
  now rewrite app_nil_r.
Qed.

Lemma reports_of_day_succ (vs : list Video) (n : nat) :
  reports_of_day (S n) (map fast_forward1 (ranking_on vs n))
                 (ranking_on vs (S n))
  = report_on vs (S n).
Proof.
  unfold reports_of_day. cbn [Nat.eqb report_on].
  rewrite titles_differ_map_l, titles_differ_same_titles
    by (now rewrite !ranking_on_length).
  now destruct (same_titles _ _).
Qed.

(** The state the loop is in after [n + 1] days. *)
Lemma run_days_closed (vs : list Video) (n : nat) :
  run_days (S n) 0 (initial_state vs)
  = Ok (mkState (map fast_forward1 (ranking_on vs n))
                (Some (enumerate (map fast_forward1 (ranking_on vs n))))
                (reports_until vs (S n))).
Proof.
  induction n as [|n IH].
  - cbn [run_days]. rewrite (day_step_spec (initial_well_formed vs)).
    reflexivity.
  - replace (S (S n)) with (S n + 1)%nat by lia.
    rewrite run_days_add, IH. cbn [bind run_days].
    rewrite day_step_spec by (right; reflexivity).
    cbn [bind]. unfold after_day. cbn [videos printed].
    change (sort_videos (map fast_forward1 (ranking_on vs n)))
      with (ranking_on vs (S n)).
    rewrite Nat.add_0_r, reports_of_day_succ, <- reports_until_succ.
    replace (S n + 1)%nat with (S (S n)) by lia. reflexivity.
Qed.

Lemma track_changes_closed (vs : list Video) (h : Z) :
  track_changes vs h = Ok (reports_until vs (Z.to_nat h)).
Proof.
  unfold track_changes. destruct (Z.to_nat h) as [|n].
  - reflexivity.
  - now rewrite run_days_closed.
Qed.

End RunFacts.

Section RunShape.

Context {num : Type} `{Number num}.

Abbreviation Video := (@Video num).
Abbreviation Report := (@Report num).

Lemma sorted_snoc (l : list nat) (n : nat) :
  StronglySorted lt l -> Forall (fun d => (d < n)%nat) l ->
  StronglySorted lt (l ++ [n]).
Proof.
  induction 1 as [|x l Hs IH Hall]; intros Hn; simpl.
  - repeat constructor.
  - inversion Hn as [|? ? Hx Hl]; subst.
    constructor; [apply IH, Hl|].
    apply Forall_app. split; [exact Hall|]. constructor; [exact Hx|constructor].
Qed.

Lemma report_on_cases (vs : list Video) (d : nat) :
  report_on vs d = [] \/
  report_on vs d = [mkReport (label_of_day d) (ranking_on vs d)].
Proof.
  destruct d as [|d]; cbn [report_on].
  - right. reflexivity.
  - destruct (same_titles _ _); [left|right]; reflexivity.
Qed.

(** The reports of the first [n] days are those of an increasing list of
    days below [n], which starts with day 0. *)
Lemma reports_until_days (vs : list Video) (n : nat) :
  exists days : list nat,
    reports_until vs n
    = map (fun d => mkReport (label_of_day d) (ranking_on vs d)) days /\
    StronglySorted lt days /\
    Forall (fun d => (d < n)%nat) days /\
    (List.length days <= n)%nat /\
    (n <> O -> hd_error days = Some O).
Proof.
  induction n as [|n (days & E & Hs & Hb & Hl & Hhd)].
  - exists []. repeat split; try constructor. intros C. contradiction.
  - rewrite reports_until_succ, E.
    assert (Hb' : Forall (fun d => (d < S n)%nat) days)
      by (apply Forall_impl with (2 := Hb); intros; lia).
    destruct (report_on_cases vs n) as [E0 | E0]; rewrite E0.
    + exists days. rewrite app_nil_r.
      repeat split; try assumption; try lia.
      intros _. destruct n as [|n]; [discriminate E0|].
      apply Hhd. discriminate.
    + exists (days ++ [n]). rewrite map_app. simpl.
      repeat split.
      * apply sorted_snoc; assumption.
      * apply Forall_app. split; [exact Hb'|]. repeat constructor.
      * rewrite length_app. simpl. lia.
      * intros _. destruct n as [|n].
        -- destruct days as [|d days]; [reflexivity|].
           inversion Hb; lia.
        -- specialize (Hhd ltac:(discriminate)).
           destruct days as [|d days]; [discriminate|exact Hhd].
Qed.

(** The last report printed shows the titles of the latest ranking. *)
Lemma reports_until_last (vs : list Video) (n : nat) :
  exists (pre : list Report) (r : Report),
    reports_until vs (S n) = pre ++ [r] /\
    map title (ranking r) = map title (ranking_on vs n).
Proof.
  induction n as [|n (pre & r & E & Ht)].
  - exists [], (mkReport starting_label (ranking_on vs 0)).
    split; reflexivity.
  - rewrite reports_until_succ. cbn [report_on]. unfold same_titles.
    destruct (list_eq_dec string_dec _ _) as [Eq|Ne].
    + exists pre, r. rewrite app_nil_r. split; [exact E|].
      now rewrite Ht.
    + eexists _, _. split; reflexivity.
Qed.

Lemma reports_until_adjacent (vs : list Video) (n i : nat) (r1 r2 : Report) :
  nth_error (reports_until vs n) i = Some r1 ->
  nth_error (reports_until vs n) (S i) = Some r2 ->
  map title (ranking r1) <> map title (ranking r2).
Proof.
  revert i r1 r2. induction n as [|n IH]; intros i r1 r2 H1 H2.
  - destruct i; discriminate.
  - rewrite reports_until_succ in H1, H2.
    destruct n as [|n].
    + destruct i as [|i]; simpl in H2; [discriminate|].
      destruct i; discriminate.
    + revert H1 H2. cbn [report_on]. unfold same_titles.
      destruct (list_eq_dec string_dec _ _) as [Eq|Ne].
      * rewrite app_nil_r. apply IH.
      * destruct (reports_until_last vs n) as (pre & r & E & Ht).
        set (L := reports_until vs (S n)) in *.
        intros H1 H2.
        destruct (Nat.lt_ge_cases (S i) (List.length L)) as [Hlt|Hge].
        -- rewrite nth_error_app1 in H1, H2 by lia. apply (IH i); assumption.
        -- rewrite (nth_error_app2 _ _ Hge) in H2.
           assert (Hi : S i = List.length L).
           { destruct (S i - List.length L)%nat as [|k] eqn:Ek; [lia|].
             simpl in H2. destruct k; discriminate. }
           rewrite Hi, Nat.sub_diag in H2. injection H2 as <-.
           rewrite nth_error_app1 in H1 by lia.
           rewrite E in H1, Hi. rewrite length_app in Hi. simpl in Hi.
           rewrite nth_error_app2 in H1 by lia.
           replace (i - List.length pre)%nat with O in H1 by lia.
           injection H1 as <-. cbn [ranking]. now rewrite Ht.
Qed.

Lemma reports_until_add (vs : list Video) (n m : nat) :
  reports_until vs (n + m)
  = reports_until vs n ++ flat_map (report_on vs) (seq n m).
Proof. unfold reports_until. now rewrite seq_app, flat_map_app. Qed.

Lemma short_perm_eq (A : Type) (l l' : list A) :
  (List.length l <= 1)%nat -> Permutation l l' -> l = l'.
Proof.
  intros Hl Hp. destruct l as [|x [|y l]]; simpl in Hl; try lia.
  - apply Permutation_nil in Hp. now subst.
  - apply Permutation_length_1_inv in Hp. now subst.
Qed.

Lemma sort_videos_short (vs : list Video) :
  (List.length vs <= 1)%nat -> sort_videos vs = vs.
Proof. intros Hl. symmetry. apply short_perm_eq, sort_videos_perm. exact Hl. Qed.

Lemma report_on_short (vs : list Video) (d : nat) :
  (List.length vs <= 1)%nat -> report_on vs (S d) = [].
Proof.
  intros Hl. cbn [report_on]. unfold same_titles.
  destruct (list_eq_dec string_dec _ _) as [_|Ne]; [reflexivity|].
  contradiction Ne.
  apply short_perm_eq.
  - now rewrite length_map, ranking_on_length.
  - rewrite <- (map_title_fast_forward (ranking_on vs d)).
    apply Permutation_map. cbn [ranking_on]. apply sort_videos_perm.
Qed.

Lemma reports_later_short (vs : list Video) (n m : nat) :
  (List.length vs <= 1)%nat -> flat_map (report_on vs) (seq (S n) m) = [].
Proof.
  intros Hl. revert n. induction m as [|m IH]; intros n; cbn [seq flat_map].
  - reflexivity.
  - rewrite IH, report_on_short by exact Hl. reflexivity.
Qed.

Lemma ranking_on_sorted {dom : num -> Prop} `{!OrderLaws num dom}
  (vs : list Video) (d : nat) :
  (forall v k, In v vs -> dom (views (after k v))) ->
  StronglySorted not_below (ranking_on vs d).
Proof.
  intros Hdom.
  assert (Hm : forall k, measured dom (map (after k) vs)).
  { intros k. apply Forall_map, Forall_forall. intros v Hv.
    apply Hdom, Hv. }
  destruct d as [|d]; cbn [ranking_on]; apply sort_videos_sorted.
  - specialize (Hm O). rewrite map_id in Hm. exact Hm.
  - apply (Permutation_Forall (x := map (after (S d)) vs)); [|apply Hm].
    rewrite <- map_after_succ. apply Permutation_map. symmetry.
    apply ranking_on_perm.
Qed.

End RunShape.

(** ** What is printed *)

Lemma and_then_ret_r (A : Type) (r : Run A) : (x <~ r ;; ret x) = r.
Proof.
  destruct r as [out [a|e]]; unfold and_then; simpl; [|reflexivity].
  now rewrite app_nil_r.
Qed.

Lemma and_then_assoc (A B C : Type) (r : Run A) (k : A -> Run B)
  (k' : B -> Run C) :
  (y <~ (x <~ r ;; k x) ;; k' y) = (x <~ r ;; y <~ k x ;; k' y).
Proof.
  destruct r as [out [a|e]]; unfold and_then; simpl; [|reflexivity].
  destruct (k a) as [out1 [b|e]]; simpl; [|reflexivity].
  now rewrite app_assoc.
Qed.

Lemma and_then_lift (A B : Type) (a : A) (k : A -> Run B) :
  (x <~ lift (Returns a) ;; k x) = k a.
Proof. unfold and_then. simpl. now destruct (k a). Qed.

Section PrintingFacts.

Context {num : Type} `{Number num} `{Truncation num}.

Abbreviation Video := (@Video num).
Abbreviation Report := (@Report num).
Abbreviation SimState := (@SimState num).

Lemma print_reports_app (a b : list Report) :
  print_reports (a ++ b) = (_ <~ print_reports a ;; print_reports b).
Proof.
  induction a as [|r a IH]; simpl.
  - unfold and_then. simpl. now destruct (print_reports b).
  - rewrite IH. now rewrite and_then_assoc.
Qed.

Lemma print_reports_one (r : Report) : print_reports [r] = print_report r.
Proof.
  simpl. destruct (print_report r) as [out [[]|e]]; unfold and_then; simpl;
    [|reflexivity].
  now rewrite app_nil_r.
Qed.

Lemma detect_print_spec (day : nat) (st : SimState) :
  well_formed day st ->
  detect_print day (sort_step st)
  = print_reports (reports_of_day day (videos st) (sort_videos (videos st))).
Proof.
  intros Hwf. unfold detect_print, reports_of_day.
  destruct (Nat.eqb_spec day 0) as [Hd|Hd].
  - now rewrite print_reports_one.
  - destruct Hwf as [Hwf|Hprev]; [contradiction|].
    cbn [sort_step prev_order videos]. rewrite Hprev.
    rewrite order_changed_enumerate by (now rewrite sort_videos_length).
    cbn [of_result]. rewrite and_then_lift.
    destruct (titles_differ _ _).
    + now rewrite print_reports_one.
    + reflexivity.
Qed.

Lemma detect_print_ext (day : nat) (st st' : SimState) :
  videos st = videos st' -> prev_order st = prev_order st' ->
  detect_print day st = detect_print day st'.
Proof. intros Ev Ep. unfold detect_print. now rewrite Ev, Ep. Qed.

Lemma loop_print_ext (n day : nat) (st st' : SimState) :
  videos st = videos st' -> prev_order st = prev_order st' ->
  loop_print n day st = loop_print n day st'.
Proof.
  revert day st st'. induction n as [|n IH]; intros day st st' Ev Ep.
  - reflexivity.
  - cbn [loop_print].
    rewrite (detect_print_ext day (sort_step st) (sort_step st'))
      by (unfold sort_step; simpl; congruence).
    rewrite (IH (S day) (advance_step (record_step (sort_step st)))
                (advance_step (record_step (sort_step st'))));
      [reflexivity| |]; unfold advance_step, record_step, sort_step; simpl;
      congruence.
Qed.

(** The loop prints the reports the days add, one after the other. *)
Lemma loop_print_spec (n day : nat) (st : SimState) :
  well_formed day st ->
  exists (st' : SimState) (more : list Report),
    run_days n day st = Ok st' /\
    printed st' = printed st ++ more /\
    loop_print n day st = print_reports more.
Proof.
  revert day st. induction n as [|n IH]; intros day st Hwf.
  - exists st, []. repeat split. now rewrite app_nil_r.
  - cbn [run_days loop_print].
    rewrite (day_step_spec Hwf). cbn [bind].
    destruct (IH (S day) _ (after_day_well_formed day (S day) st))
      as (st' & more & Hrun & Hp & Hloop).
    exists st', (reports_of_day day (videos st) (sort_videos (videos st))
                 ++ more).
    split; [exact Hrun|]. split.
    + rewrite Hp. unfold after_day. cbn [printed]. now rewrite app_assoc.
    + rewrite (detect_print_spec Hwf), print_reports_app, <- Hloop.
      rewrite (loop_print_ext n (S day)
                 (advance_step (record_step (sort_step st)))
                 (after_day day st)); [reflexivity|reflexivity|].
      unfold advance_step, record_step, sort_step, after_day. simpl.
      now rewrite enumerate_map.
Qed.

End PrintingFacts.

(** ** The numbers printed *)

Lemma uint_comma_free (u : Decimal.uint) :
  comma_free (NilEmpty.string_of_uint u) = true.
Proof. induction u; simpl; auto. Qed.

Lemma digits_comma_free (n : N) : comma_free (digits n) = true.
Proof.
  unfold digits, NilZero.string_of_uint.
  destruct (N.to_uint n) eqn:E; try reflexivity;
    rewrite <- E; apply uint_comma_free.
Qed.

Lemma mod3_group (a b : nat) :
  (1 <= a <= 3)%nat -> ((a + 3 * b) mod 3 =? 0)%nat = (a =? 3)%nat.
Proof.
  intros Ha. rewrite (Nat.mul_comm 3 b), Nat.Div0.mod_add.
  destruct a as [|[|[|[|a]]]]; try lia; reflexivity.
Qed.

(** The groups of [group_digits]: the first of one to three characters,
    the others of three, and together the string that was grouped. *)
Lemma group_digits_groups (s : string) :
  comma_free s = true -> s <> EmptyString ->
  exists (g : string) (gs : list string),
    split_commas (group_digits s) = g :: gs /\
    (1 <= String.length g <= 3)%nat /\
    Forall (fun x => String.length x = 3%nat) gs /\
    String.length s = (String.length g + 3 * List.length gs)%nat.
Proof.
  induction s as [|c rest IH]; intros Hf Hne; [contradiction|].
  simpl in Hf. apply andb_prop in Hf. destruct Hf as [Hc Hrest].
  apply negb_true_iff in Hc.
  cbn [group_digits].
  destruct rest as [|c' rest'] eqn:Er.
  - exists (String c ""), []. simpl. rewrite Hc. simpl.
    repeat split; try lia. constructor.
  - rewrite <- Er in *.
    destruct (IH Hrest ltac:(subst; discriminate)) as (g & gs & Es & Hg & Hall & Hlen).
    assert (Hn : (String.length rest =? 0)%nat = false)
      by (subst rest; reflexivity).
    rewrite Hn. cbn [negb andb].
    rewrite Hlen, mod3_group by exact Hg.
    destruct (Nat.eqb_spec (String.length g) 3) as [E3|E3].
    + exists (String c ""), (g :: gs).
      cbn [split_commas]. rewrite Hc. cbn [Ascii.eqb]. 
      change ("," =? ",")%char with true. cbn iota. rewrite Es.
      repeat split; simpl; try lia.
      constructor; assumption.
    + exists (String c g), gs.
      cbn [split_commas]. rewrite Hc, Es.
      repeat split; simpl; try lia. exact Hall.
Qed.

Lemma strip_group_digits (s : string) :
  comma_free s = true -> strip_commas (group_digits s) = s.
Proof.
  induction s as [|c rest IH]; intros Hf; [reflexivity|].
  simpl in Hf. apply andb_prop in Hf. destruct Hf as [Hc Hrest].
  apply negb_true_iff in Hc.
  cbn [group_digits strip_commas]. rewrite Hc.
  destruct (negb _ && _)%bool; cbn [strip_commas];
    [change ("," =? ",")%char with true; cbv iota|];
    now rewrite IH.
Qed.

Lemma digits_not_empty (n : N) : digits n <> EmptyString.
Proof.
  unfold digits, NilZero.string_of_uint.
  destruct (N.to_uint n); discriminate.
Qed.


Lemma show_int_digits (z : Z) :
  show_int z
  = ((if (z <? 0)%Z then "-" else "") ++ digits (Z.abs_N z))%string.
Proof. destruct z; reflexivity. Qed.

Lemma strip_format_commas (z : Z) : strip_commas (format_commas z) = show_int z.
Proof.
  rewrite show_int_digits. unfold format_commas.
  destruct (z <? 0)%Z; cbn [append strip_commas];
    [change ("-" =? ",")%char with false; cbv iota|];
    now rewrite strip_group_digits by apply digits_comma_free.
Qed.

Lemma format_commas_groups (z : Z) :
  exists (g : string) (gs : list string),
    split_commas (format_commas z) = g :: gs /\
    Forall (fun x => String.length x = 3%nat) gs /\
    ((if (z <? 0)%Z then 2 else 1) <= String.length g
     <= (if (z <? 0)%Z then 4 else 3))%nat.
Proof.
  unfold format_commas.
  destruct (group_digits_groups (digits_comma_free (Z.abs_N z))
                                (@digits_not_empty (Z.abs_N z)))
    as (g & gs & Es & Hg & Hall & _).
  destruct (z <? 0)%Z.
  - exists (String "-" g), gs. cbn [append split_commas].
    change ("-" =? ",")%char with false. cbv iota. rewrite Es.
    repeat split; simpl; try lia. exact Hall.
  - exists g, gs. cbn [append]. repeat split; try assumption; lia.
Qed.

Section SummaryFacts.

Context {num : Type} `{Number num} `{Truncation num}.

Abbreviation Video := (@Video num).

Lemma print_videos_from_cons (i : nat) (v : Video) (rest : list Video) :
  print_videos_from i (v :: rest)
  = match Video_str v with
    | Returns s =>
        mkRun ((show_nat (i + 1) ++ ". " ++ s)%string
               :: stdout (print_videos_from (S i) rest))
              (ended (print_videos_from (S i) rest))
    | Raises e => mkRun [] (Raises e)
    end.
Proof.
  cbn [print_videos_from]. destruct (Video_str v) as [s|e]; reflexivity.
Qed.

Lemma print_videos_from_lines (k : nat) (vs : list Video) :
  let r := print_videos_from k vs in
  (forall (i : nat) (line : string),
      nth_error (stdout r) i = Some line ->
      exists (v : Video) (s : string),
        nth_error vs i = Some v /\ Video_str v = Returns s /\
        line = (show_nat (k + i + 1) ++ ". " ++ s)%string) /\
  (ended r = Returns tt -> List.length (stdout r) = List.length vs) /\
  (forall e : raised,
      ended r = Raises e ->
      exists v : Video,
        nth_error vs (List.length (stdout r)) = Some v /\
        Video_str v = Raises e).
Proof.
  revert k. induction vs as [|v vs IH]; intros k.
  - cbn. repeat split.
    + intros [|i] line E; discriminate.
    + intros e E. discriminate.
  - cbn zeta. rewrite print_videos_from_cons.
    destruct (Video_str v) as [s|e] eqn:Es.
    + destruct (IH (S k)) as (L & R & F). cbn zeta in L, R, F.
      cbn [stdout ended]. repeat split.
      * intros [|i] line E.
        -- injection E as <-. exists v, s. rewrite Nat.add_0_r.
           repeat split. exact Es.
        -- destruct (L i line E) as (v' & s' & Hv & Hs & ->).
           exists v', s'. repeat split; try assumption.
           now replace (k + S i)%nat with (S k + i)%nat by lia.
      * intros E. simpl. f_equal. apply R, E.
      * intros e E. destruct (F e E) as (v' & Hv & Hs).
        exists v'. split; assumption.
    + cbn [stdout ended]. repeat split.
      * intros [|i] line E; discriminate.
      * discriminate.
      * intros e' E. injection E as <-. exists v. split; [reflexivity|exact Es].
Qed.

End SummaryFacts.

(** [int()] of a whole number, in exact arithmetic. *)
Lemma Qc_to_int_of_int (z : Z) : to_int (of_int (num:=Qc) z) = Returns z.
Proof.
  cbn [to_int of_int Qc_Truncation Qc_Number]. f_equal.
  unfold Q2Qc, this.
  rewrite Qred_identity by (simpl; apply Z.gcd_1_r).
  simpl. apply Z.quot_1_r.
Qed.

(** ** [get_video_details] and [main] *)

Lemma Forall2_In_r (A B : Type) (P : A -> B -> Prop) (l : list A)
  (l' : list B) (y : B) :
  Forall2 P l l' -> In y l' -> exists x : A, In x l /\ P x y.
Proof.
  induction 1 as [|x z l l' Hxz _ IH]; intros Hin; [contradiction|].
  destruct Hin as [<-|Hin].
  - exists x. split; [left; reflexivity|exact Hxz].
  - destruct (IH Hin) as (x' & Hx' & Hp). exists x'. split; [right|]; assumption.
Qed.

Section MainFacts.

Context {num : Type} `{Number num}.

Variable TODAY : Z.
Variable youtube : string -> string -> result Snippet.

Abbreviation Video := (@Video num).

Lemma fetch_videos_ok (ids : list string) (key : string) (vs : list Video) :
  fetch_videos TODAY youtube ids key = Ok vs <->
  Forall2 (fun id v => get_video_details TODAY youtube id key = Ok v) ids vs.
Proof.
  revert vs. induction ids as [|id ids IH]; intros vs; cbn [fetch_videos].
  - split.
    + intros E. injection E as <-. constructor.
    + intros F. inversion F. reflexivity.
  - split.
    + destruct (get_video_details TODAY youtube id key) as [v|e] eqn:Ev;
        cbn [bind]; [|discriminate].
      destruct (fetch_videos TODAY youtube ids key) as [vs'|e] eqn:Er;
        cbn [bind]; [|discriminate].
      intros E. injection E as <-. constructor; [exact Ev|].
      apply IH. reflexivity.
    + intros F. inversion F as [|? v ? vs' Ev Fr]; subst.
      rewrite Ev. cbn [bind].
      apply IH in Fr. rewrite Fr. reflexivity.
Qed.

Lemma fetch_videos_raise (ids : list string) (key : string) (e : exn) :
  fetch_videos TODAY youtube ids key = Raise e <->
  exists (pre : list string) (vid : string) (post : list string),
    ids = pre ++ vid :: post /\
    Forall (fun p => exists v : Video,
                get_video_details TODAY youtube p key = Ok v) pre /\
    get_video_details (num:=num) TODAY youtube vid key = Raise e.
Proof.
  induction ids as [|id ids IH]; cbn [fetch_videos].
  - split; [discriminate|].
    intros (pre & vid & post & E & _). destruct pre; discriminate.
  - destruct (get_video_details TODAY youtube id key) as [v|e'] eqn:Ev;
      cbn [bind].
    + destruct (fetch_videos TODAY youtube ids key) as [vs'|e'] eqn:Er;
        cbn [bind].
      * split; [discriminate|].
        intros (pre & vid & post & E & Hpre & Hvid).
        destruct pre as [|p pre]; simpl in E; injection E as -> ->.
        -- rewrite Hvid in Ev. discriminate.
        -- inversion Hpre; subst.
           assert (C : Ok vs' = Raise e :> result (list Video)).
           { apply IH. exists pre, vid, post. repeat split; assumption. }
           discriminate.
      * split.
        -- intros E. injection E as ->.
           destruct (proj1 IH eq_refl) as (pre & vid & post & -> & Hpre & Hvid).
           exists (id :: pre), vid, post. repeat split; [|exact Hvid].
           constructor; [exists v; exact Ev|exact Hpre].
        -- intros (pre & vid & post & E & Hpre & Hvid).
           destruct pre as [|p pre]; simpl in E; injection E as -> ->.
           ++ rewrite Hvid in Ev. discriminate.
           ++ inversion Hpre; subst. f_equal.
              assert (C : Raise e' = Raise e :> result (list Video)).
              { apply IH. exists pre, vid, post. repeat split; assumption. }
              now injection C.
    + split.
      * intros E. injection E as ->. exists [], id, ids.
        repeat split; [constructor|exact Ev].
      * intros (pre & vid & post & E & Hpre & Hvid).
        destruct pre as [|p pre]; simpl in E; injection E as -> ->.
        -- rewrite Hvid in Ev. injection Ev as ->. reflexivity.
        -- inversion Hpre as [|? ? [v Hv] ?]; subst. rewrite Hv in Ev.
           discriminate.
Qed.

Lemma main_resolved (args : Args) (data : Config) (ids : list string)
  (key : string) :
  cfg_videos data = Some ids -> resolved_key args data = Some key ->
  main TODAY youtube args data
  = (vs <- fetch_videos TODAY youtube ids key ;;
     reports <- track_changes vs default_days_threshold ;;
     Ok (Finished reports)).
Proof.
  unfold main, resolved_key. intros -> Hk.
  destruct (cfg_key data); [injection Hk as ->|rewrite Hk]; reflexivity.
Qed.

End MainFacts.


Section Descending.

Context {num : Type} `{Number num} {dom : num -> Prop} `{!OrderLaws num dom}.

Lemma reports_descending (vs : list (@Video num)) (h : Z) :
  (forall (v : @Video num) (k : nat), In v vs -> dom (views (after k v))) ->
  exists reports : list (@Report num),
    track_changes vs h = Ok reports /\
    Forall (fun r => StronglySorted not_below (ranking r)) reports.
Proof.
  intros Hdom.
  destruct (reports_until_days vs (Z.to_nat h))
    as (days & E & _ & _ & _ & _).
  eexists. split; [apply track_changes_closed|].
  rewrite E. apply Forall_map, Forall_forall. intros d _.
  cbn [ranking]. apply ranking_on_sorted, Hdom.
Qed.

End Descending.

Section Short.

Context {num : Type} `{Number num}.

Lemma track_changes_short (vs : list (@Video num)) (h : Z) :
  (List.length vs <= 1)%nat ->
  (1 <= h)%Z ->
  track_changes vs h = Ok [mkReport starting_label vs].
Proof.
  intros Hl Hh. rewrite track_changes_closed.
  replace (Z.to_nat h) with (1 + (Z.to_nat h - 1))%nat by lia.
  rewrite reports_until_add, reports_later_short by exact Hl.
  unfold reports_until. cbn [seq flat_map report_on ranking_on app].
  now rewrite sort_videos_short.
Qed.

End Short.

(** ** Rankings that do not change, and one overtaking *)

Section LeadingFacts.

Context {num : Type} `{Number num}.

Abbreviation Video := (@Video num).
Abbreviation Report := (@Report num).

Lemma after_zero (l : list Video) : map (after 0) l = l.
Proof. apply map_id. Qed.

Lemma map_title_after (d : nat) (l : list Video) :
  map title (map (after d) l) = map title l.
Proof.
  rewrite map_map. apply map_ext. intros v. apply title_after.
Qed.

Lemma leaders_sorted (d : nat) (l : list Video) :
  StronglySorted leads l -> StronglySorted not_below (map (after d) l).
Proof.
  induction 1 as [|x l Hs IH Hall]; simpl; constructor; [exact IH|].
  apply Forall_map. apply Forall_impl with (2 := Hall).
  intros y Hxy. apply Hxy.
Qed.

Lemma ranking_on_leaders (vs : list Video) (d : nat) :
  StronglySorted leads (sort_videos vs) ->
  ranking_on vs d = map (after d) (sort_videos vs).
Proof.
  intros Hl. induction d as [|d IH]; cbn [ranking_on].
  - now rewrite after_zero.
  - rewrite IH, map_after_succ.
    apply sort_videos_sorted_id, StronglySorted_Sorted, leaders_sorted, Hl.
Qed.

Lemma no_reports (vs : list Video) (n m : nat) :
  (forall d : nat, (n <= d < n + m)%nat -> report_on vs d = []) ->
  flat_map (report_on vs) (seq n m) = [].
Proof.
  revert n. induction m as [|m IH]; intros n Hd; cbn [seq flat_map].
  - reflexivity.
  - rewrite Hd by lia. rewrite IH; [reflexivity|].
    intros d Hr. apply Hd. lia.
Qed.

Lemma track_changes_leaders (vs : list Video) (h : Z) :
  StronglySorted leads (sort_videos vs) ->
  (1 <= h)%Z ->
  track_changes vs h = Ok [mkReport starting_label (sort_videos vs)].
Proof.
  intros Hl Hh. rewrite track_changes_closed.
  replace (Z.to_nat h) with (1 + (Z.to_nat h - 1))%nat by lia.
  rewrite reports_until_add, no_reports; [reflexivity|].
  intros [|d] Hd; [lia|]. cbn [report_on]. unfold same_titles.
  rewrite !ranking_on_leaders, !map_title_after by exact Hl.
  destruct (list_eq_dec string_dec _ _) as [_|C]; [reflexivity|].
  contradiction C. reflexivity.
Qed.

Lemma sorted_both (A : Type) (R1 R2 R3 : A -> A -> Prop) (P : A -> Prop)
  (l : list A) :
  (forall a b : A, P a -> P b -> R1 a b -> R2 a b -> R3 a b) ->
  Forall P l -> StronglySorted R1 l -> StronglySorted R2 l ->
  StronglySorted R3 l.
Proof.
  intros H3 Hp H1. revert Hp.
  induction H1 as [|x l H1 IH Hall1]; intros Hp H2; [constructor|].
  inversion Hp as [|? ? Px Pl]; subst.
  inversion H2 as [|? ? H2' Hall2]; subst.
  constructor; [apply IH; assumption|].
  rewrite Forall_forall in *. intros y Hy.
  apply H3; auto.
Qed.

(** *** Two videos, of which the second passes the first on day [K] *)

Variables a b : Video.
Variable K : nat.

Hypothesis titles : title a <> title b.
Hypothesis ahead :
  forall k : nat, (k < K)%nat ->
                  ltb (views (after k a)) (views (after k b)) = false.
Hypothesis passed : ltb (views (after K a)) (views (after K b)) = true.
Hypothesis behind :
  forall k : nat, (K <= k)%nat ->
                  ltb (views (after k b)) (views (after k a)) = false.

Lemma ranking_before (d : nat) :
  (d < K)%nat -> ranking_on [a; b] d = [after d a; after d b].
Proof.
  induction d as [|d IH]; intros Hd; cbn [ranking_on].
  - apply sort_pair_keep. apply (ahead (k:=0)). exact Hd.
  - rewrite IH by lia. cbn [map]. apply sort_pair_keep.
    apply (ahead (k:=S d)). exact Hd.
Qed.

Lemma ranking_from (d : nat) :
  (K <= d)%nat -> ranking_on [a; b] d = [after d b; after d a].
Proof.
  induction d as [|d IH]; intros Hd.
  - assert (K = O) by lia. subst K. cbn [ranking_on].
    apply sort_pair_swap. exact passed.
  - cbn [ranking_on].
    destruct (Nat.eq_dec K (S d)) as [E|E].
    + rewrite ranking_before by lia. cbn [map].
      apply sort_pair_swap. rewrite <- E. exact passed.
    + rewrite IH by lia. cbn [map]. apply sort_pair_keep.
      apply (behind (k:=S d)). lia.
Qed.

Lemma overtake_at (h : Z) :
  (1 <= K)%nat -> (Z.of_nat K < h)%Z ->
  track_changes [a; b] h
  = Ok [mkReport starting_label [a; b];
        mkReport (day_label K) [after K b; after K a]].
Proof.
  intros HK Hh. rewrite track_changes_closed.
  replace (Z.to_nat h)
    with (1 + ((K - 1) + (1 + (Z.to_nat h - K - 1))))%nat by lia.
  rewrite reports_until_add.
  replace (seq 1 (K - 1 + (1 + (Z.to_nat h - K - 1))))
    with (seq 1 (K - 1) ++ seq K 1 ++ seq (S K) (Z.to_nat h - K - 1))%nat.
  2:{ rewrite (seq_app (K - 1)%nat _ 1%nat),
              (seq_app 1%nat _ (1 + (K - 1))%nat).
      replace (1 + (K - 1))%nat with K by lia.
      replace (K + 1)%nat with (S K) by lia. reflexivity. }
  rewrite !flat_map_app.
  rewrite (@no_reports [a; b] 1%nat (K - 1)%nat),
          (@no_reports [a; b] (S K) (Z.to_nat h - K - 1)%nat).
  - unfold reports_until. cbn [seq flat_map app].
    rewrite app_nil_r.
    assert (EK : report_on [a; b] K
                 = [mkReport (day_label K) [after K b; after K a]]).
    { remember (K - 1)%nat as K' eqn:EK'.
      assert (HKS : K = S K') by lia.
      rewrite HKS at 1. cbn [report_on]. rewrite <- HKS.
      rewrite (@ranking_before K') by lia.
      rewrite (@ranking_from K) by lia.
      unfold same_titles. cbn [map]. rewrite !title_after.
      destruct (list_eq_dec string_dec _ _) as [C|_]; [|reflexivity].
      injection C as C _. contradiction. }
    rewrite EK. cbn [report_on ranking_on].
    rewrite sort_pair_keep by (apply (ahead (k:=0)); lia).
    reflexivity.
  - intros [|d] Hd; [lia|]. cbn [report_on]. unfold same_titles.
    rewrite !ranking_from by lia. cbn [map]. rewrite !title_after.
    destruct (list_eq_dec string_dec _ _) as [_|C]; [reflexivity|].
    contradiction C. reflexivity.
  - intros [|d] Hd; [lia|]. cbn [report_on]. unfold same_titles.
    rewrite !ranking_before by lia. cbn [map]. rewrite !title_after.
    destruct (list_eq_dec string_dec _ _) as [_|C]; [reflexivity|].
    contradiction C. reflexivity.
Qed.

End LeadingFacts.

(** *** In binary64 *)

Lemma float_leads (a b : @Video float) :
  not_nan (views a) -> not_nan (views b) ->
  real (Prim2SF (avg_views a)) -> real (Prim2SF (avg_views b)) ->
  not_below a b -> gains_no_less a b -> leads a b.
Proof.
  intros Na Nb Ra Rb Hab Hg k.
  apply (binary64_stays_ahead b a);
    cbn [mul of_int float_Number]; rewrite ?float_mul_one; assumption.
Qed.

(** ** Printing without an exception *)

Section PrintingReturns.

Context {num : Type} `{Number num} `{Truncation num}.

Lemma print_videos_from_returns (k : nat) (vs : list (@Video num)) :
  (forall v : @Video num,
      In v vs -> exists s : string, Video_str v = Returns s) ->
  ended (print_videos_from k vs) = Returns tt.
Proof.
  revert k. induction vs as [|v vs IH]; intros k Hs; [reflexivity|].
  rewrite print_videos_from_cons.
  destruct (Hs v (or_introl eq_refl)) as [s ->]. cbn [ended].
  apply IH. intros w Hw. apply Hs. right. exact Hw.
Qed.

Lemma print_reports_returns (rs : list (@Report num)) :
  (forall (r : @Report num) (v : @Video num),
      In r rs -> In v (ranking r) ->
      exists s : string, Video_str v = Returns s) ->
  ended (print_reports rs) = Returns tt.
Proof.
  induction rs as [|r rs IH]; intros Hs; [reflexivity|].
  cbn [print_reports]. unfold and_then at 1.
  assert (E : ended (print_report r) = Returns tt).
  { unfold print_report, and_then, print. cbn [ended].
    unfold print_videos_summary.
    rewrite (print_videos_from_returns 0 (ranking r)). 
    - reflexivity.
    - intros v Hv. apply (Hs r v); [left; reflexivity|exact Hv]. }
  rewrite E. cbn [ended]. apply IH.
  intros r' v Hr Hv. apply (Hs r' v); [right; exact Hr|exact Hv].
Qed.

End PrintingReturns.

Section SimulationReturns.

Lemma float_to_int_real (x : float) :
  real (Prim2SF x) -> exists z : Z, float_to_int x = Returns z.
Proof.
  unfold float_to_int.
  destruct (Prim2SF x) as [s|s| |s m e]; try contradiction; intros _;
    eexists; reflexivity.
Qed.

Lemma Video_str_real (v : @Video float) :
  real (Prim2SF (views v)) -> exists s : string, Video_str v = Returns s.
Proof.
  intros R. unfold Video_str. cbn [to_int float_Truncation].
  destruct (float_to_int_real (views v) R) as [z ->]. eexists. reflexivity.
Qed.

End SimulationReturns.

(** * Further properties of the code *)

(** ** The run of [track_changes], day by day *)

(** X1: for every list of videos and every horizon, the loop of
    [track_changes] ends without an exception of its own (no lookup in
    [prev_order] or in [videos] fails), and what it prints is, for each
    day of the horizon in turn: on the first day the starting state; on a
    later day the ranking of the day, when the titles it shows rank by
    rank are not those of the ranking of the day before; nothing
    otherwise. *)
Theorem track_changes_day_by_day
  {num : Type} `{Number num} (vs : list (@Video num)) (h : Z) :
  track_changes vs h
  = Ok (flat_map
          (fun d : nat =>
             match d with
             | O => [mkReport starting_label (ranking_on vs 0)]
             | S d' =>
                 if list_eq_dec string_dec
                      (map title (ranking_on vs d'))
                      (map title (ranking_on vs d))
                 then []
                 else [mkReport (day_label d) (ranking_on vs d)]
             end)
          (seq 0 (Z.to_nat h))).
Proof.
  rewrite track_changes_closed. unfold reports_until. f_equal.
  apply flat_map_ext. intros [|d]; [reflexivity|].
  cbn [report_on]. unfold same_titles.
  now destruct (list_eq_dec string_dec _ _).
Qed.

(** X2: the reports of a run are headed by the days of an increasing list
    of days below the horizon, so there is at most one report a day and
    none for a horizon below one; with a horizon of at least one day the
    list starts with the first day. *)
Theorem track_changes_report_days
  {num : Type} `{Number num} (vs : list (@Video num)) (h : Z) :
  exists days : list nat,
    track_changes vs h
    = Ok (map (fun d => mkReport (label_of_day d) (ranking_on vs d)) days) /\
    StronglySorted lt days /\
    Forall (fun d => (d < Z.to_nat h)%nat) days /\
    (List.length days <= Z.to_nat h)%nat /\
    ((h <= 0)%Z -> days = []) /\
    ((1 <= h)%Z -> hd_error days = Some O).
Proof.
  destruct (reports_until_days vs (Z.to_nat h))
    as (days & E & Hs & Hb & Hl & Hhd).
  exists days. rewrite track_changes_closed, E.
  repeat split; try assumption.
  - intros Hh. destruct days as [|d days]; [reflexivity|].
    simpl in Hl. lia.
  - intros Hh. apply Hhd. lia.
Qed.

(** X3: every report of a run ranks the videos the run was given, each
    one advanced by as many days as have passed: no video is lost,
    duplicated or replaced. *)
Theorem track_changes_ranks_all_videos
  {num : Type} `{Number num} (vs : list (@Video num)) (h : Z) :
  exists reports : list (@Report num),
    track_changes vs h = Ok reports /\
    forall r : @Report num,
      In r reports ->
      exists d : nat,
        (d < Z.to_nat h)%nat /\
        label r = label_of_day d /\
        Permutation (ranking r) (map (after d) vs) /\
        List.length (ranking r) = List.length vs.
Proof.
  destruct (reports_until_days vs (Z.to_nat h))
    as (days & E & _ & Hb & _ & _).
  eexists. split; [apply track_changes_closed|].
  rewrite E. intros r Hr. apply in_map_iff in Hr.
  destruct Hr as (d & <- & Hd). exists d.
  rewrite Forall_forall in Hb.
  repeat split.
  - apply Hb, Hd.
  - apply ranking_on_perm.
  - apply ranking_on_length.
Qed.

(** X4: two reports printed one after the other never show the same
    titles in the same order. *)
Theorem consecutive_reports_differ
  {num : Type} `{Number num} (vs : list (@Video num)) (h : Z) :
  exists reports : list (@Report num),
    track_changes vs h = Ok reports /\
    forall (i : nat) (r1 r2 : @Report num),
      nth_error reports i = Some r1 ->
      nth_error reports (S i) = Some r2 ->
      map title (ranking r1) <> map title (ranking r2).
Proof.
  eexists. split; [apply track_changes_closed|].
  intros i r1 r2. apply reports_until_adjacent.
Qed.

(** X5: a longer horizon only adds reports: what a run of [h] days
    prints is the beginning of what a run of [h'] days prints, for
    [h <= h']. *)
Theorem longer_horizon_appends
  {num : Type} `{Number num} (vs : list (@Video num)) (h h' : Z) :
  (h <= h')%Z ->
  exists reports more : list (@Report num),
    track_changes vs h = Ok reports /\
    track_changes vs h' = Ok (reports ++ more).
Proof.
  intros Hh. rewrite !track_changes_closed.
  replace (Z.to_nat h') with (Z.to_nat h + (Z.to_nat h' - Z.to_nat h))%nat
    by lia.
  rewrite reports_until_add. eexists _, _. split; reflexivity.
Qed.

Lemma longer_horizon_appends_witness :
  exists reports more : list (@Report float),
    track_changes [video_a; video_b] 2 = Ok reports /\
    track_changes [video_a; video_b] 4 = Ok (reports ++ more).
Proof.
  apply (@longer_horizon_appends float _ [video_a; video_b] 2 4).
  discriminate.
Defined.

(** X6: with fewer than two videos, a run of at least one day prints the
    starting state and nothing else; for the empty list, the starting
    state has no line. *)
Theorem fewer_than_two_videos
  {num : Type} `{Number num} (vs : list (@Video num)) (h : Z) :
  (List.length vs <= 1)%nat ->
  (1 <= h)%Z ->
  track_changes vs h = Ok [mkReport starting_label vs].
Proof. apply track_changes_short. Qed.

Lemma fewer_than_two_videos_witness :
  track_changes [video_a] 100 = Ok [mkReport starting_label [video_a]] /\
  track_changes (@nil (@Video float)) 100 = Ok [mkReport starting_label []].
Proof.
  split.
  - apply (@fewer_than_two_videos float _ [video_a] 100).
    + simpl. lia.
    + discriminate.
  - apply (@fewer_than_two_videos float _ [] 100).
    + simpl. lia.
    + discriminate.
Defined.

(** X7: where the comparison is a strict weak order on the views the
    videos take over the days, every report of a run is in descending
    order of views: no video is ranked above one with more views. *)
Theorem every_report_descending
  {num : Type} `{Number num} {dom : num -> Prop} `{!OrderLaws num dom}
  (vs : list (@Video num)) (h : Z) :
  (forall (v : @Video num) (k : nat), In v vs -> dom (views (after k v))) ->
  exists reports : list (@Report num),
    track_changes vs h = Ok reports /\
    Forall (fun r => StronglySorted not_below (ranking r)) reports.
Proof. apply reports_descending. Qed.

Lemma every_report_descending_witness :
  exists reports : list (@Report float),
    track_changes [video_a; video_b] 100 = Ok reports /\
    Forall (fun r => StronglySorted not_below (ranking r)) reports.
Proof.
  apply (@every_report_descending float _ not_nan _ [video_a; video_b] 100).
  intros v k [<-|[<-|[]]]; apply float_views_not_nan;
    vm_compute; reflexivity || exact I.
Defined.

(** ** Overtaking *)

(** X8: in binary64, when no view count is NaN, every [avg_views] is
    finite and no video gains more a day than a video the first ranking
    places above it, the ranking never changes: a run of at least one
    day prints the starting state and nothing else. *)
Theorem slower_never_passes (vs : list (@Video float)) (h : Z) :
  measured not_nan vs ->
  Forall (fun v => real (Prim2SF (avg_views v))) vs ->
  StronglySorted gains_no_less (sort_videos vs) ->
  (1 <= h)%Z ->
  track_changes vs h = Ok [mkReport starting_label (sort_videos vs)].
Proof.
  intros Hm Hr Hg Hh. apply track_changes_leaders; [|exact Hh].
  apply (@sorted_both _ not_below gains_no_less leads
           (fun v => not_nan (views v) /\ real (Prim2SF (avg_views v)))).
  - intros a b [Na Ra] [Nb Rb]. apply float_leads; assumption.
  - apply (Permutation_Forall (sort_videos_perm vs)).
    unfold measured in Hm. rewrite Forall_forall in *.
    intros v Hv. split; [apply Hm|apply Hr]; exact Hv.
  - apply (sort_videos_sorted (dom:=not_nan)), Hm.
  - exact Hg.
Qed.

Lemma slower_never_passes_witness :
  sort_videos [video_a; video_c] = [video_c; video_a] /\
  track_changes [video_a; video_c] 100
  = Ok [mkReport starting_label (sort_videos [video_a; video_c])].
Proof.
  split; [reflexivity|].
  apply (@slower_never_passes [video_a; video_c] 100).
  - repeat constructor.
  - repeat constructor.
  - repeat constructor.
  - discriminate.
Defined.

(** X9: in binary64, for two videos of different titles whose views and
    gains a day are whole numbers, and as long as the numbers stay below
    [2^53] up to day [K]: when the first video is not below the second
    after [K - 1] days and is below it after [K] days, a run of more than
    [K] days prints the starting state with the first video first and,
    headed by day [K + 1], the ranking with the second video first, and
    nothing else: the one change is reported on the day the second video
    passes the first. *)
Theorem overtaking_day_binary64
  (a b : @Video float) (ma ga mb gb : Z) (K : nat) (h : Z) :
  views a = of_int ma -> avg_views a = of_int ga ->
  views b = of_int mb -> avg_views b = of_int gb ->
  title a <> title b ->
  (1 <= K)%nat ->
  (Z.of_nat K < h)%Z ->
  (Z.abs ma + Z.abs ga * Z.of_nat K < 2 ^ 53)%Z ->
  (Z.abs mb + Z.abs gb * Z.of_nat K < 2 ^ 53)%Z ->
  (mb + gb * Z.of_nat (K - 1) <= ma + ga * Z.of_nat (K - 1))%Z ->
  (ma + ga * Z.of_nat K < mb + gb * Z.of_nat K)%Z ->
  track_changes [a; b] h
  = Ok [mkReport starting_label [a; b];
        mkReport (day_label K) [after K b; after K a]].
Proof.
  intros Hma Hga Hmb Hgb Ht HK Hh Ba Bb Hbefore Hafter.
  assert (Vk : forall k : nat, (k <= K)%nat ->
             views (after k a) = of_int (ma + ga * Z.of_nat k) /\
             views (after k b) = of_int (mb + gb * Z.of_nat k) /\
             (Z.abs (ma + ga * Z.of_nat k) < 2 ^ 53)%Z /\
             (Z.abs (mb + gb * Z.of_nat k) < 2 ^ 53)%Z).
  { intros k Hk.
    destruct (@whole_bound ma ga k K Hk Ba) as [B1 B2].
    destruct (@whole_bound mb gb k K Hk Bb) as [B3 B4].
    repeat split; try assumption; apply float_views_after_whole; assumption. }
  apply overtake_at; try assumption.
  - intros k Hk. destruct (Vk k ltac:(lia)) as (-> & -> & B1 & B2).
    cbn [ltb of_int float_Number].
    rewrite float_ltb_of_int by assumption. apply Z.ltb_ge.
    apply (@lines_before ma ga mb gb k K HK Hk Hbefore Hafter).
  - destruct (Vk K ltac:(lia)) as (-> & -> & B1 & B2).
    cbn [ltb of_int float_Number].
    rewrite float_ltb_of_int by assumption. apply Z.ltb_lt. exact Hafter.
  - intros k Hk. replace k with ((k - K) + K)%nat by lia.
    rewrite <- !after_add.
    destruct (Vk K ltac:(lia)) as (Ea & Eb & B1 & B2).
    destruct (@whole_bound ma ga 1 K HK Ba) as [G1 _].
    destruct (@whole_bound mb gb 1 K HK Bb) as [G2 _].
    assert (Ga : (Z.abs ga < 2 ^ 53)%Z) by lia.
    assert (Gb : (Z.abs gb < 2 ^ 53)%Z) by lia.
    destruct (@lines_before ma ga mb gb 0 K HK ltac:(lia) Hbefore Hafter)
      as [Hg _].
    apply binary64_stays_ahead;
      rewrite ?avg_views_after, ?Hga, ?Hgb, ?Ea, ?Eb;
      cbn [mul ltb of_int float_Number]; rewrite ?float_mul_one.
    + apply of_int_real. assumption.
    + apply of_int_real. assumption.
    + rewrite float_ltb_of_int by assumption. apply Z.ltb_ge. lia.
    + apply not_nan_Prim2SF, real_not_nan, of_int_real. assumption.
    + apply not_nan_Prim2SF, real_not_nan, of_int_real. assumption.
    + rewrite float_ltb_of_int by assumption. apply Z.ltb_ge. lia.
Qed.

Lemma overtaking_day_binary64_witness :
  track_changes [video_s; video_f] 200
  = Ok [mkReport starting_label [video_s; video_f];
        mkReport (day_label 99) [after 99 video_f; after 99 video_s]] /\
  day_label 99 = "Day 100:"%string.
Proof.
  split; [|reflexivity].
  apply (@overtaking_day_binary64 video_s video_f 1000 1 902 2 99 200).
  - reflexivity.
  - reflexivity.
  - reflexivity.
  - reflexivity.
  - discriminate.
  - repeat constructor.
  - reflexivity.
  - reflexivity.
  - reflexivity.
  - vm_compute. discriminate.
  - reflexivity.
Defined.

(** ** Binary64: the runs of the videos [main] builds *)

(** X10: in binary64, a video constructed from a view count and an age
    below [2^53] has finite views and an [avg_views] that is not NaN, and
    its views are not NaN after any number of [fast_forward()] calls. *)
Theorem binary64_views_never_nan
  (TODAY : Z) (t : string) (m d : Z) (v : @Video float) :
  Video_init TODAY t m d = Ok v ->
  (Z.abs m < 2 ^ 53)%Z ->
  (Z.abs (TODAY - d) < 2 ^ 53)%Z ->
  real (Prim2SF (views v)) /\
  not_nan (avg_views v) /\
  forall k : nat, not_nan (views (after k v)).
Proof.
  intros Hv Hm Hd.
  destruct (Video_init_finite TODAY t m d Hv Hm Hd) as [Rv Ng].
  repeat split; try assumption.
  intros k. apply float_views_not_nan; assumption.
Qed.

Lemma binary64_views_never_nan_witness :
  real (Prim2SF (views video_b)) /\
  not_nan (avg_views video_b) /\
  forall k : nat, not_nan (views (after k video_b)).
Proof.
  apply (@binary64_views_never_nan 1000 "B" 90 982 video_b).
  - reflexivity.
  - reflexivity.
  - reflexivity.
Defined.

(** X11: in binary64, when the data provider answers with view counts and
    ages below [2^53] and [main] runs to its end, every report it has
    printed is in descending order of views. *)
Theorem binary64_main_reports_descending
  (TODAY : Z) (youtube : string -> string -> result Snippet)
  (args : Args) (data : Config) (reports : list (@Report float)) :
  (forall (vid key : string) (s : Snippet),
      youtube vid key = Ok s ->
      (Z.abs (view_count s) < 2 ^ 53)%Z /\
      (Z.abs (TODAY - published_at s) < 2 ^ 53)%Z) ->
  main TODAY youtube args data = Ok (Finished reports) ->
  Forall (fun r => StronglySorted not_below (ranking r)) reports.
Proof.
  intros Hb Hmain. unfold main in Hmain.
  destruct (cfg_videos data) as [ids|]; [|discriminate].
  destruct (match cfg_key data with Some k => Some k | None => args_key args end)
    as [key|]; [|discriminate].
  destruct (fetch_videos TODAY youtube ids key) as [vs|e] eqn:Ef;
    cbn [bind] in Hmain; [|discriminate].
  apply fetch_videos_ok in Ef.
  assert (Hdom : forall (v : @Video float) (k : nat),
             In v vs -> not_nan (views (after k v))).
  { intros v k Hin.
    destruct (@Forall2_In_r _ _ _ _ _ v Ef Hin) as (vid & _ & Hg).
    unfold get_video_details in Hg.
    destruct (youtube vid key) as [s|e] eqn:Es; [|discriminate].
    cbn [bind] in Hg. destruct (Hb vid key s Es) as [B1 B2].
    destruct (Video_init_finite _ _ _ _ Hg B1 B2) as [Rv Ng].
    apply float_views_not_nan; assumption. }
  destruct (reports_descending (dom:=not_nan) vs default_days_threshold Hdom)
    as (rs & Et & Hs).
  rewrite Et in Hmain. cbn [bind] in Hmain. injection Hmain as <-. exact Hs.
Qed.

Lemma binary64_main_reports_descending_witness :
  Forall (fun r : @Report float => StronglySorted not_below (ranking r))
         [mkReport "Starting state (Day 1):" [video_a; video_b];
          mkReport "Day 4:" [after 3 video_b; after 3 video_a]].
Proof.
  apply (@binary64_main_reports_descending 1000 two_videos
           (mkArgs "videos.json" None None)
           (mkConfig (Some ["a"; "b"]%string) (Some "K"%string))).
  - intros vid key s. unfold two_videos.
    destruct (vid =? "a")%string;
      [intros E; injection E as <-; split; reflexivity|].
    destruct (vid =? "b")%string;
      [intros E; injection E as <-; split; reflexivity|discriminate].
  - vm_compute. reflexivity.
Defined.

(** ** What is printed *)

(** X12: the [print] calls of the loop of [track_changes] are those that
    print the reports of the run one after the other, each as its header
    followed by the numbered lines of its ranking; a line that cannot be
    rendered ends the output there, with its exception. *)
Theorem loop_prints_the_reports
  {num : Type} `{Number num} `{Truncation num}
  (vs : list (@Video num)) (h : Z) :
  exists reports : list (@Report num),
    track_changes vs h = Ok reports /\
    loop_print (Z.to_nat h) 0 (initial_state vs) = print_reports reports.
Proof.
  destruct (loop_print_spec (Z.to_nat h) (initial_well_formed vs))
    as (st' & more & Hrun & Hp & Hloop).
  exists more. unfold track_changes. rewrite Hrun. cbn [bind].
  simpl in Hp. rewrite Hp. split; [reflexivity|exact Hloop].
Qed.

(** X13: [print_videos_summary] prints the videos in their order, the
    line of rank [i] (from 0) being the number [i + 1], a full stop, a
    space and the video's [__str__]; it returns after one line for each
    video, or raises what the [__str__] of the first video that cannot be
    rendered raises, after the lines of the videos before it. *)
Theorem print_videos_summary_lines
  {num : Type} `{Number num} `{Truncation num} (vs : list (@Video num)) :
  let r := print_videos_summary vs in
  (forall (i : nat) (line : string),
      nth_error (stdout r) i = Some line ->
      exists (v : @Video num) (s : string),
        nth_error vs i = Some v /\ Video_str v = Returns s /\
        line = (show_nat (i + 1) ++ ". " ++ s)%string) /\
  (ended r = Returns tt -> List.length (stdout r) = List.length vs) /\
  (forall e : raised,
      ended r = Raises e ->
      exists v : @Video num,
        nth_error vs (List.length (stdout r)) = Some v /\
        Video_str v = Raises e).
Proof. apply (print_videos_from_lines 0 vs). Qed.

(** X14: [__str__] shows the title and the views without their fraction,
    written with a comma before every group of three digits: without the
    commas the number shown is the decimal writing of [int(views)], and
    between the commas stand groups of three characters after a first
    group of one to three digits (and the sign).  When [int(views)]
    raises, so does [__str__]. *)
Theorem str_shows_truncated_views
  {num : Type} `{Number num} `{Truncation num} (v : @Video num) :
  match to_int (views v) with
  | Returns n =>
      exists (shown first : string) (groups : list string),
        Video_str v
        = Returns (RED ++ title v ++ NC ++ " - "
                   ++ GREEN ++ shown ++ " views" ++ NC)%string /\
        strip_commas shown = show_int n /\
        split_commas shown = first :: groups /\
        Forall (fun g => String.length g = 3%nat) groups /\
        ((if (n <? 0)%Z then 2 else 1) <= String.length first
         <= (if (n <? 0)%Z then 4 else 3))%nat
  | Raises e => Video_str v = Raises e
  end.
Proof.
  unfold Video_str. destruct (to_int (views v)) as [n|e]; [|reflexivity].
  destruct (format_commas_groups n) as (g & gs & Es & Hall & Hg).
  exists (format_commas n), g, gs.
  split; [reflexivity|]. split; [apply strip_format_commas|].
  split; [exact Es|]. split; assumption.
Qed.

(** X15: a video constructed from a view count below [2^53] shows exactly
    that count, with its thousands separators, in binary64 as in exact
    arithmetic: the conversion to a float and back loses nothing. *)
Theorem fresh_video_shows_its_count (TODAY : Z) (t : string) (m d : Z) :
  (Z.abs m < 2 ^ 53)%Z ->
  d <> TODAY ->
  let text := (RED ++ t ++ NC ++ " - "
               ++ GREEN ++ format_commas m ++ " views" ++ NC)%string in
  (exists v : @Video float,
      Video_init TODAY t m d = Ok v /\ Video_str v = Returns text) /\
  (exists v : @Video Qc,
      Video_init TODAY t m d = Ok v /\ Video_str v = Returns text).
Proof.
  intros Hm Hd text.
  replace d with (TODAY - (TODAY - d))%Z by lia.
  rewrite !Video_init_aged by lia.
  split; eexists; (split; [reflexivity|]); unfold Video_str; cbn [views title].
  - cbn [to_int float_Truncation of_int float_Number].
    now rewrite float_to_int_of_int.
  - now rewrite Qc_to_int_of_int.
Qed.

Lemma fresh_video_shows_its_count_witness :
  let text := (RED ++ "B" ++ NC ++ " - "
               ++ GREEN ++ format_commas 1234567 ++ " views" ++ NC)%string in
  (exists v : @Video float,
      Video_init 1000 "B" 1234567 982 = Ok v /\ Video_str v = Returns text) /\
  (exists v : @Video Qc,
      Video_init 1000 "B" 1234567 982 = Ok v /\ Video_str v = Returns text).
Proof.
  apply (@fresh_video_shows_its_count 1000 "B" 1234567 982).
  - reflexivity.
  - discriminate.
Defined.

(** ** [get_video_details] and [main] *)

(** X16: [main] returns 1 exactly when the JSON file has no list of
    videos, and 2 exactly when it has one and neither the file nor the
    command line gives a key; a key in the file makes the command line's
    key irrelevant. *)
Theorem main_arguments
  {num : Type} `{Number num}
  (TODAY : Z) (youtube : string -> string -> result Snippet)
  (args : Args) (data : Config) :
  (forall s : Z,
      main (num:=num) TODAY youtube args data = Ok (Exit s) <->
      (s = 1%Z /\ cfg_videos data = None) \/
      (s = 2%Z /\ cfg_videos data <> None /\
       cfg_key data = None /\ args_key args = None)) /\
  (forall k : string,
      cfg_key data = Some k ->
      forall args' : Args,
        main (num:=num) TODAY youtube args data
        = main TODAY youtube args' data).
Proof.
  split.
  - intros s. unfold main.
    destruct (cfg_videos data) as [ids|].
    + destruct (cfg_key data) as [k|].
      * split.
        -- destruct (fetch_videos TODAY youtube ids k) as [vs|e];
             cbn [bind]; [|discriminate].
           destruct (track_changes vs default_days_threshold);
             cbn [bind]; discriminate.
        -- intros [[_ C]|(_ & _ & C & _)]; discriminate.
      * destruct (args_key args) as [k|].
        -- split.
           ++ destruct (fetch_videos TODAY youtube ids k) as [vs|e];
                cbn [bind]; [|discriminate].
              destruct (track_changes vs default_days_threshold);
                cbn [bind]; discriminate.
           ++ intros [[_ C]|(_ & _ & _ & C)]; discriminate.
        -- split.
           ++ intros E. injection E as <-. right.
              repeat split. discriminate.
           ++ intros [[_ C]|(-> & _)]; [discriminate|reflexivity].
    + split.
      * intros E. injection E as <-. left. split; reflexivity.
      * intros [[-> _]|(_ & C & _)]; [reflexivity|contradiction].
  - intros k Hk args'. unfold main. rewrite Hk. reflexivity.
Qed.

(** X17: the videos are fetched in the order of the list, one for each
    id; the list is built exactly when every fetch succeeds, and
    otherwise the exception is that of the first id whose fetch fails. *)
Theorem fetch_videos_in_order
  {num : Type} `{Number num}
  (TODAY : Z) (youtube : string -> string -> result Snippet)
  (ids : list string) (key : string) :
  (forall vs : list (@Video num),
      fetch_videos TODAY youtube ids key = Ok vs <->
      Forall2 (fun id v => get_video_details TODAY youtube id key = Ok v)
              ids vs) /\
  (forall e : exn,
      fetch_videos (num:=num) TODAY youtube ids key = Raise e <->
      exists (pre : list string) (vid : string) (post : list string),
        ids = pre ++ vid :: post /\
        Forall (fun p => exists v : @Video num,
                    get_video_details TODAY youtube p key = Ok v) pre /\
        get_video_details (num:=num) TODAY youtube vid key = Raise e).
Proof.
  split.
  - intros vs. apply fetch_videos_ok.
  - intros e. apply fetch_videos_raise.
Qed.

(** X18: in binary64, when the data provider answers with view counts
    and ages below [2^53], the simulation [main] runs on the videos it
    has fetched raises nothing: [main] returns, and the [print] calls of
    the hundred days are those of its reports, carried out to the end
    without an exception; no [int(self.views)] fails for a view count
    that is infinite or NaN. *)
Theorem bounded_simulation_raises_nothing
  (TODAY : Z) (youtube : string -> string -> result Snippet)
  (args : Args) (data : Config)
  (ids : list string) (key : string) (vs : list (@Video float)) :
  (forall (vid key : string) (s : Snippet),
      youtube vid key = Ok s ->
      (Z.abs (view_count s) < 2 ^ 53)%Z /\
      (Z.abs (TODAY - published_at s) < 2 ^ 53)%Z) ->
  cfg_videos data = Some ids ->
  resolved_key args data = Some key ->
  fetch_videos TODAY youtube ids key = Ok vs ->
  exists reports : list (@Report float),
    main TODAY youtube args data = Ok (Finished reports) /\
    loop_print 100 0 (initial_state vs) = print_reports reports /\
    ended (loop_print 100 0 (initial_state vs)) = Returns tt.
Proof.
  intros Hb Hids Hkey Ef.
  destruct (loop_print_spec 100 (initial_well_formed vs))
    as (st' & more & Hrun & Hp & Hloop).
  cbn [printed initial_state app] in Hp.
  exists more. split; [|split; [exact Hloop|]].
  - rewrite (main_resolved TODAY youtube args data Hids Hkey), Ef.
    cbn [bind]. unfold track_changes.
    change (Z.to_nat default_days_threshold) with 100%nat.
    rewrite Hrun. cbn [bind]. rewrite Hp. reflexivity.
  - rewrite Hloop. apply print_reports_returns. intros r v Hr Hv.
    assert (Et : more = reports_until vs 100).
    { pose proof (track_changes_closed vs 100) as Hc.
      unfold track_changes in Hc. change (Z.to_nat 100) with 100%nat in Hc.
      rewrite Hrun in Hc. cbn [bind] in Hc. rewrite Hp in Hc.
      injection Hc as Hc. exact Hc. }
    destruct (reports_until_days vs 100) as (days & E & _ & Hd & _ & _).
    rewrite Et, E in Hr.
    apply in_map_iff in Hr. destruct Hr as (d & <- & Hin).
    cbn [ranking] in Hv. rewrite Forall_forall in Hd.
    pose proof (Hd d Hin) as Hlt.
    pose proof (Permutation_in v (ranking_on_perm vs d) Hv) as Hv'.
    apply in_map_iff in Hv'. destruct Hv' as (v0 & <- & Hv0).
    apply Video_str_real.
    apply fetch_videos_ok in Ef.
    destruct (@Forall2_In_r _ _ _ _ _ v0 Ef Hv0) as (vid & _ & Hg).
    unfold get_video_details in Hg.
    destruct (youtube vid key) as [s|e] eqn:Es; [|discriminate].
    cbn [bind] in Hg. destruct (Hb vid key s Es) as [B1 B2].
    apply (float_views_real TODAY (snippet_title s) (view_count s)
                            (published_at s) v0 d Hg B1 B2).
    lia.
Qed.

Lemma bounded_simulation_raises_nothing_witness :
  exists reports : list (@Report float),
    main 1000 two_videos (mkArgs "videos.json" (Some "K"%string) None)
         (mkConfig (Some ["a"; "b"]%string) None)
    = Ok (Finished reports) /\
    loop_print 100 0 (initial_state [video_a; video_b])
    = print_reports reports /\
    ended (loop_print 100 0 (initial_state [video_a; video_b])) = Returns tt.
Proof.
  apply (@bounded_simulation_raises_nothing 1000 two_videos
           (mkArgs "videos.json" (Some "K"%string) None)
           (mkConfig (Some ["a"; "b"]%string) None)
           ["a"; "b"]%string "K"%string [video_a; video_b]).
  - intros vid key s. unfold two_videos.
    destruct (vid =? "a")%string;
      [intros E; injection E as <-; split; reflexivity|].
    destruct (vid =? "b")%string;
      [intros E; injection E as <-; split; reflexivity|discriminate].
  - reflexivity.
  - reflexivity.
  - reflexivity.
Defined.

(** X19: a listed video that was published on the reference date stops
    [main] with [ZeroDivisionError], before anything of the simulation is
    printed, when the videos listed before it are fetched without an
    exception. *)
Theorem upload_today_stops_main
  {num : Type} `{Number num}
  (TODAY : Z) (youtube : string -> string -> result Snippet)
  (args : Args) (data : Config)
  (pre post : list string) (vid key : string) (s : Snippet) :
  cfg_videos data = Some (pre ++ vid :: post) ->
  resolved_key args data = Some key ->
  Forall (fun p => exists v : @Video num,
              get_video_details TODAY youtube p key = Ok v) pre ->
  youtube vid key = Ok s ->
  published_at s = TODAY ->
  main (num:=num) TODAY youtube args data = Raise ZeroDivisionError.
Proof.
  intros Hids Hkey Hpre Hs Hd.
  rewrite (main_resolved TODAY youtube args data Hids Hkey).
  assert (Ef : fetch_videos (num:=num) TODAY youtube (pre ++ vid :: post) key
               = Raise ZeroDivisionError).
  { apply fetch_videos_raise. exists pre, vid, post.
    repeat split; [exact Hpre|].
    unfold get_video_details. rewrite Hs. cbn [bind]. rewrite Hd.
    unfold Video_init, truediv. rewrite Z.sub_diag. reflexivity. }
  rewrite Ef. reflexivity.
Qed.

Lemma upload_today_stops_main_witness :
  main (num:=float) 1000 three_videos
       (mkArgs "videos.json" (Some "K"%string) None)
       (mkConfig (Some ["a"; "c"; "b"]%string) None)
  = Raise ZeroDivisionError.
Proof.
  apply (@upload_today_stops_main float _ 1000 three_videos
           (mkArgs "videos.json" (Some "K"%string) None)
           (mkConfig (Some ["a"; "c"; "b"]%string) None)
           ["a"%string] ["b"%string] "c"%string "K"%string
           (mkSnippet "C" 7 1000)).
  - reflexivity.
  - reflexivity.
  - constructor; [|constructor]. exists video_a. reflexivity.
  - reflexivity.
  - reflexivity.
Defined.

(** X20: with an empty list of videos and a key, [main] asks the data
    provider for nothing and prints the header of the starting state and
    no line. *)
Theorem main_no_videos_listed
  {num : Type} `{Number num}
  (TODAY : Z) (youtube : string -> string -> result Snippet)
  (args : Args) (data : Config) (key : string) :
  cfg_videos data = Some [] ->
  resolved_key args data = Some key ->
  main (num:=num) TODAY youtube args data
  = Ok (Finished [mkReport starting_label []]).
Proof.
  intros Hids Hkey.
  rewrite (main_resolved TODAY youtube args data Hids Hkey).
  cbn [fetch_videos bind].
  rewrite track_changes_short; [reflexivity|simpl; lia|discriminate].
Qed.

Lemma main_no_videos_listed_witness :
  main (num:=float) 1000 two_videos
       (mkArgs "videos.json" None None)
       (mkConfig (Some []) (Some "K"%string))
  = Ok (Finished [mkReport starting_label []]).
Proof.
  apply (@main_no_videos_listed float _ 1000 two_videos
           (mkArgs "videos.json" None None)
           (mkConfig (Some []) (Some "K"%string)) "K"%string).
  - reflexivity.
  - reflexivity.
Defined.

(** X21: whatever the command line says, [main] simulates the default
    hundred days, no more and no fewer: when it runs to its end, what it
    has printed is what each of the days 1 to 100 prints, in turn, for
    the videos fetched; so a change of ranks on the hundredth day is
    reported, headed "Day 100:". *)
Theorem main_simulates_100_days
  {num : Type} `{Number num}
  (TODAY : Z) (youtube : string -> string -> result Snippet)
  (args : Args) (data : Config) (reports : list (@Report num)) :
  main TODAY youtube args data = Ok (Finished reports) ->
  exists (ids : list string) (key : string) (vs : list (@Video num)),
    cfg_videos data = Some ids /\
    resolved_key args data = Some key /\
    fetch_videos TODAY youtube ids key = Ok vs /\
    reports = flat_map (report_on vs) (seq 0 100) /\
    (same_titles (ranking_on vs 98) (ranking_on vs 99) = false ->
     In (mkReport "Day 100:" (ranking_on vs 99)) reports).
Proof.
  unfold main, resolved_key.
  destruct (cfg_videos data) as [ids|]; [|discriminate].
  destruct (match cfg_key data with Some k => Some k | None => args_key args end)
    as [key|]; [|discriminate].
  destruct (fetch_videos TODAY youtube ids key) as [vs|e] eqn:Ef; cbn [bind];
    [|discriminate].
  rewrite track_changes_closed. cbn [bind]. intros E. injection E as <-.
  exists ids, key, vs.
  split; [reflexivity|]. split; [reflexivity|]. split; [exact Ef|].
  split; [reflexivity|].
  intros Hd. apply in_flat_map. exists 99%nat. split.
  - apply in_seq. lia.
  - cbn [report_on]. rewrite Hd. left. reflexivity.
Qed.

Lemma main_simulates_100_days_witness :
  exists (ids : list string) (key : string) (vs : list (@Video float)),
    cfg_videos (mkConfig (Some ["s"; "f"]%string) (Some "K"%string))
    = Some ids /\
    resolved_key (mkArgs "videos.json" None (Some 2%Z))
                 (mkConfig (Some ["s"; "f"]%string) (Some "K"%string))
    = Some key /\
    fetch_videos 1000 late_videos ids key = Ok vs /\
    [mkReport "Starting state (Day 1):" [video_s; video_f];
     mkReport "Day 100:" [after 99 video_f; after 99 video_s]]
    = flat_map (report_on vs) (seq 0 100) /\
    (same_titles (ranking_on vs 98) (ranking_on vs 99) = false ->
     In (mkReport "Day 100:" (ranking_on vs 99))
        [mkReport "Starting state (Day 1):" [video_s; video_f];
         mkReport "Day 100:" [after 99 video_f; after 99 video_s]]).
Proof.
  apply (@main_simulates_100_days float _ 1000 late_videos
           (mkArgs "videos.json" None (Some 2%Z))
           (mkConfig (Some ["s"; "f"]%string) (Some "K"%string))).
  vm_compute. reflexivity.
Defined.

(** ** The [Video] class *)

(** X22: under a strict weak order, sorting a sorted list changes
    nothing: the sort is idempotent, and a list already in descending
    order is left as it is, ties included. *)
Theorem sort_videos_idempotent
  {num : Type} `{Number num} {dom : num -> Prop} `{!OrderLaws num dom}
  (l : list (@Video num)) :
  measured dom l ->
  sort_videos (sort_videos l) = sort_videos l /\
  (StronglySorted not_below l -> sort_videos l = l).
Proof.
  intros Hm. split.
  - apply sort_videos_sorted_id, StronglySorted_Sorted, sort_videos_sorted, Hm.
  - intros Hs. apply sort_videos_sorted_id, StronglySorted_Sorted, Hs.
Qed.

Lemma sort_videos_idempotent_witness :
  sort_videos (sort_videos [video_b; video_a; video_b])
  = sort_videos [video_b; video_a; video_b] /\
  (StronglySorted not_below [video_b; video_a; video_b] ->
   sort_videos [video_b; video_a; video_b] = [video_b; video_a; video_b]).
Proof.
  apply (@sort_videos_idempotent float _ not_nan _
           [video_b; video_a; video_b]).
  exact measured_videos_a_b.
Defined.

(** X23: in binary64, on a video whose views and gain a day are whole
    numbers, and as long as the numbers stay below [2^53],
    [fast_forward] composes by adding the days: [b] days and then [a]
    days are [a + b] days, and [-a] days undo [a] days. *)
Theorem fast_forward_adds_up_binary64 (v : @Video float) (m g a b : Z) :
  views v = of_int m -> avg_views v = of_int g ->
  (Z.abs g < 2 ^ 53)%Z ->
  (Z.abs a + Z.abs b < 2 ^ 53)%Z ->
  (Z.abs m + Z.abs g * (Z.abs a + Z.abs b) < 2 ^ 53)%Z ->
  fast_forward a (fast_forward b v) = fast_forward (a + b) v /\
  fast_forward (- a) (fast_forward a v) = v.
Proof.
  intros Hm Hg Bg Bab B.
  destruct v as [t w u dy y gg]. cbn [views avg_views] in Hm, Hg. subst w gg.
  assert (Pa : (0 <= Z.abs g * Z.abs a)%Z) by (apply Z.mul_nonneg_nonneg; lia).
  assert (Pb : (0 <= Z.abs g * Z.abs b)%Z) by (apply Z.mul_nonneg_nonneg; lia).
  rewrite Z.mul_add_distr_l in B.
  assert (Bmb : (Z.abs (m + g * b) < 2 ^ 53)%Z).
  { pose proof (Z.abs_triangle m (g * b)) as T. rewrite Z.abs_mul in T. lia. }
  assert (Bma : (Z.abs (m + g * a) < 2 ^ 53)%Z).
  { pose proof (Z.abs_triangle m (g * a)) as T. rewrite Z.abs_mul in T. lia. }
  assert (Bs : (Z.abs g * Z.abs (a + b) < 2 ^ 53)%Z).
  { pose proof (Z.abs_triangle a b) as T.
    assert (Z.abs g * Z.abs (a + b) <= Z.abs g * (Z.abs a + Z.abs b))%Z
      by (apply Z.mul_le_mono_nonneg_l; lia).
    rewrite Z.mul_add_distr_l in *. lia. }
  unfold fast_forward.
  cbn [title views upload_date days_up years_up avg_views
       add mul of_int float_Number].
  split; f_equal.
  - rewrite (float_add_mul_of_int m g b) by lia.
    rewrite (float_add_mul_of_int (m + g * b) g a) by lia.
    rewrite (float_add_mul_of_int m g (a + b)) by lia.
    f_equal. ring.
  - rewrite (float_add_mul_of_int m g a) by lia.
    rewrite (float_add_mul_of_int (m + g * a) g (- a))
      by (rewrite ?Z.abs_opp; lia).
    f_equal. ring.
Qed.

Lemma fast_forward_adds_up_binary64_witness :
  fast_forward 30 (fast_forward (-4) video_b) = fast_forward (30 + -4) video_b /\
  fast_forward (- 30) (fast_forward 30 video_b) = video_b.
Proof.
  apply (@fast_forward_adds_up_binary64 video_b 90 5 30 (-4)).
  - reflexivity.
  - reflexivity.
  - reflexivity.
  - reflexivity.
  - reflexivity.
Defined.

(** X24: the second line of [full_info] shows [years_up] years, when
    that is not zero, and [days_up % 365] days.  For a video uploaded
    before the reference date the two numbers are the age in days divided
    by 365 and the remainder; for one uploaded after it they are not: the
    years are rounded towards zero and the days are not negative, so that
    together they are a year more than the age, unless the age is a
    multiple of 365 days. *)
Theorem since_upload_numbers
  {num : Type} `{Number num}
  (TODAY : Z) (t : string) (m d : Z) (v : @Video num) :
  Video_init TODAY t m d = Ok v ->
  let y := years_up v in
  let r := (days_up v mod 365)%Z in
  since_upload v
  = (String "009" "" ++ BLUE
     ++ (if (y =? 0)%Z then ""
         else show_int y ++ " year" ++ (if (y =? 1)%Z then "" else "s")
              ++ " and ")
     ++ show_int r ++ " days" ++ NC ++ " since upload"
     ++ String "010" "")%string /\
  (0 <= r < 365)%Z /\
  ((d < TODAY)%Z -> (0 <= y)%Z /\ (365 * y + r = TODAY - d)%Z) /\
  ((TODAY < d)%Z -> (y <= 0)%Z /\
     (365 * y + r = if (r =? 0)%Z then TODAY - d else TODAY - d + 365)%Z).
Proof.
  intros Hv. apply Video_init_inv in Hv. destruct Hv as [Hnz ->].
  cbn [years_up days_up]. split; [reflexivity|].
  set (a := (TODAY - d)%Z) in *.
  pose proof (Z.mod_pos_bound a 365 ltac:(lia)) as Hr.
  pose proof (Z.div_mod a 365 ltac:(lia)) as Hdm.
  split; [exact Hr|]. split.
  - intros Hd. assert (Ha : (0 <= a)%Z) by (unfold a; lia).
    rewrite Z.quot_div_nonneg by lia.
    pose proof (Z.div_pos a 365 Ha ltac:(lia)). split; lia.
  - intros Hd. assert (Ha : (a < 0)%Z) by (unfold a; lia).
    pose proof (Z.quot_rem' a 365) as Hqr.
    pose proof (Z.rem_bound_pos_neg a 365 ltac:(lia) ltac:(lia)) as Hrem.
    destruct (Z.eqb_spec (a mod 365) 0) as [E0|E0]; split; lia.
Qed.

Lemma since_upload_numbers_witness :
  let v : @Video float :=
    mkVideo "x" (of_int 5) 1001 (-1) 0 (div (of_int 5) (of_int (-1))) in
  let y := years_up v in
  let r := (days_up v mod 365)%Z in
  since_upload v
  = (String "009" "" ++ BLUE
     ++ (if (y =? 0)%Z then ""
         else show_int y ++ " year" ++ (if (y =? 1)%Z then "" else "s")
              ++ " and ")
     ++ show_int r ++ " days" ++ NC ++ " since upload"
     ++ String "010" "")%string /\
  (0 <= r < 365)%Z /\
  ((1001 < 1000)%Z -> (0 <= y)%Z /\ (365 * y + r = 1000 - 1001)%Z) /\
  ((1000 < 1001)%Z -> (y <= 0)%Z /\
     (365 * y + r = if (r =? 0)%Z then 1000 - 1001 else 1000 - 1001 + 365)%Z).
Proof.
  apply (@since_upload_numbers float _ 1000 "x" 5 1001).
  reflexivity.
Defined.
